(** * Qubes storage core: a model of [qubes/storage/__init__.py]

    The development embeds the orchestration core of the Qubes storage
    subsystem: the [Volume] and [Pool] entities, the [VolumesCollection]
    lookup adapter, the per-VM [Storage] coordinator with its rollback scope
    [VmCreationManager], the configuration serializer [_sanitize_config] and
    the backend locator [search_pool_containing_dir].

    Python objects become records; the methods that concrete drivers
    override become type-class methods; exceptions become the [Raise] branch
    of [result]; code that mutates the VM, the backing storage or the
    filesystem is written in a small state-and-exception monad over [World];
    dictionaries whose iteration order is observable are association lists,
    the others are [gmap]s, and sets are [gset]s.

    The file has three parts: the model, a few example objects with the
    vocabulary of the statements, and the properties. *)

From Stdlib Require Import ZArith DecimalString.
From Stdlib Require DecimalPos DecimalZ.
From stdpp Require Import base gmap sets list strings sorting.

Set Warnings "-register-all".
Set Default Proof Using "Type".

(** ** Python objects *)

(** [class Pool].  Attributes that only some drivers define ([dir_path] for
    filesystem pools, [volume_group] and [thin_pool] for LVM pools) are
    optional fields: [None] is [not hasattr(pool, ...)]. *)
Module Pool.
Record t : Type := mk {
  name : string;
  revisions_to_keep : Z;
  dir_path : option string;
  volume_group : option string;
  thin_pool : option string;
}.
End Pool.

(** [class Volume], the attributes set by [Volume.__init__]. *)
Module Volume.
Inductive t : Type := mk {
  name : string;
  pool : Pool.t;
  vid : string;
  revisions_to_keep : Z;
  rw : bool;
  save_on_stop : bool;
  _size : Z;
  snap_on_start : bool;
  source : option t;
}.
End Volume.

(** The Python values that reach the functions below. *)
Inductive object : Type :=
| ONone
| OBool (b : bool)
| OInt (z : Z)
| OStr (s : string)
| OPool (p : Pool.t)
| OVolume (v : Volume.t).

(** The owning VM, as far as the storage module reads and writes it:
    [volume_config] and [volumes] are dictionaries in insertion order. *)
Module VM.
Record t : Type := mk {
  name : string;
  dir_path : string;
  volume_config : list (string * gmap string object);
  volumes : list (string * Volume.t);
}.
End VM.

(** ** Exceptions *)

(** [IOError] is an alias of [OSError]; [KeyboardInterrupt] stands for the
    exceptions that derive from [BaseException] but not from [Exception]. *)
Inductive exn : Type :=
| StoragePoolException (msg : string)
| AssertionError
| NotImplementedError (msg : string)
| KeyError (key : object)
| IndexError
| ValueError
| OSError (msg : string)
| KeyboardInterrupt.

Inductive result (A : Type) : Type :=
| Ok (a : A)
| Raise (e : exn).
Arguments Ok {A} a.
Arguments Raise {A} e.

(** [except Exception] *)
Definition is_Exception (e : exn) : bool :=
  match e with
  | KeyboardInterrupt => false
  | _ => true
  end.

(** [except (IOError, OSError)] *)
Definition is_OSError (e : exn) : bool :=
  match e with
  | OSError _ => true
  | _ => false
  end.

Definition is_NotImplementedError (e : exn) : bool :=
  match e with
  | NotImplementedError _ => true
  | _ => false
  end.

Definition is_KeyError (e : exn) : bool :=
  match e with
  | KeyError _ => true
  | _ => false
  end.

(** ** Pool: equality, string form, hash *)

(** [Pool.__eq__]; [None] is [NotImplemented]. *)
Definition Pool__eq__ (self : Pool.t) (other : object) : option bool :=
  match other with
  | OPool o => Some (String.eqb (Pool.name self) (Pool.name o))
  | OStr s => Some (String.eqb (Pool.name self) s)
  | _ => None
  end.

Definition Pool__str__ (self : Pool.t) : string := Pool.name self.

(** [Pool.__hash__]; [hash] is the interpreter's hash on [str]. *)
Definition Pool__hash__ (hash : string → Z) (self : Pool.t) : Z :=
  hash (Pool.name self).

(** [a == b] for two pools: [Pool.__eq__] always answers. *)
Definition Pool_eq (a b : Pool.t) : bool :=
  match Pool__eq__ a (OPool b) with
  | Some r => r
  | None => false
  end.

(** ** Volume: construction, equality, hash *)

(** [repr] of a [str] whose characters are read as the code points below
    256.  The string is written between apostrophes, or between double
    quotes when it holds an apostrophe and no double quote; the quote in use
    and the backslash are escaped with a backslash; tab, line feed and
    carriage return are written [\t], [\n] and [\r], and every other
    character that is not printable as [\x] and two hexadecimal digits. *)
Definition apostrophe : Ascii.ascii := Ascii.ascii_of_nat 39.
Definition double_quote : Ascii.ascii := Ascii.ascii_of_nat 34.
Definition backslash : Ascii.ascii := Ascii.ascii_of_nat 92.

Definition hex_digit (n : N) : Ascii.ascii :=
  Ascii.ascii_of_N (if (n <? 10)%N then 48 + n else 87 + n).

(** [str.isprintable] on one code point below 256. *)
Definition isprintable (n : N) : bool :=
  ((32 <=? n) && (n <? 127) || (161 <=? n) && negb (n =? 173))%N.

Definition repr_char (quote c : Ascii.ascii) : string :=
  let n := Ascii.N_of_ascii c in
  if Ascii.eqb c quote || Ascii.eqb c backslash
  then String backslash (String c "")
  else if (n =? 9)%N then String backslash "t"
  else if (n =? 10)%N then String backslash "n"
  else if (n =? 13)%N then String backslash "r"
  else if isprintable n then String c ""
  else String backslash
         (String (Ascii.ascii_of_nat 120)
            (String (hex_digit (n / 16)) (String (hex_digit (n mod 16)) ""))).

Fixpoint repr_chars (quote : Ascii.ascii) (s : string) : string :=
  match s with
  | "" => ""
  | String c rest => repr_char quote c +:+ repr_chars quote rest
  end.

Fixpoint str_has (c : Ascii.ascii) (s : string) : bool :=
  match s with
  | "" => false
  | String d rest => Ascii.eqb c d || str_has c rest
  end.

Definition repr_str (s : string) : string :=
  let quote := if str_has apostrophe s && negb (str_has double_quote s)
               then double_quote else apostrophe in
  String quote (repr_chars quote s +:+ String quote "").

(** [Volume.__init__].  [isinstance] assertions hold by typing; the second
    assertion keeps its run-time part [source.pool == pool].  [str(name)],
    [int(revisions_to_keep)] and [int(size)] are identities on typed
    arguments. *)
Definition Volume__init__ (name : string) (pool : Pool.t) (vid : string)
    (revisions_to_keep : Z) (rw save_on_stop : bool) (size : Z)
    (snap_on_start : bool) (source : option Volume.t) : result Volume.t :=
  if negb (match source with
           | None => true
           | Some s => Pool_eq (Volume.pool s) pool
           end)
  then Raise AssertionError
  else if snap_on_start && bool_decide (source = None)
  then Raise (StoragePoolException
                ("snap_on_start specified on " +:+ repr_str name
                 +:+ " but no volume source set"))
  else if negb snap_on_start && negb (bool_decide (source = None))
  then Raise (StoragePoolException
                ("source specified on " +:+ repr_str name
                 +:+ " but no snap_on_start set"))
  else Ok (Volume.mk name pool vid revisions_to_keep rw save_on_stop size
             snap_on_start source).

(** [Volume.__eq__]; [None] is [NotImplemented]. *)
Definition Volume__eq__ (self : Volume.t) (other : object) : option bool :=
  match other with
  | OVolume o =>
      Some (Pool_eq (Volume.pool o) (Volume.pool self)
            && String.eqb (Volume.vid o) (Volume.vid self))
  | _ => None
  end.

Definition Volume__str__ (self : Volume.t) : string := Volume.vid self.

(** [Volume.__hash__]: the hash of ['%s:%s' % (self.pool, self.vid)]. *)
Definition Volume__hash__ (hash : string → Z) (self : Volume.t) : Z :=
  hash (Pool__str__ (Volume.pool self) +:+ ":" +:+ Volume.vid self).

(** The [size] property. *)
Definition Volume_size (self : Volume.t) : Z := Volume._size self.

(** The four modes of the class docstring. *)
Definition volatile (v : Volume.t) : bool :=
  negb (Volume.snap_on_start v) && negb (Volume.save_on_stop v).
Definition snapshot (v : Volume.t) : bool :=
  Volume.snap_on_start v && negb (Volume.save_on_stop v).
Definition origin (v : Volume.t) : bool :=
  negb (Volume.snap_on_start v) && Volume.save_on_stop v.
Definition origin_snapshot (v : Volume.t) : bool :=
  Volume.snap_on_start v && Volume.save_on_stop v.

(** ** The [==] operator, [str] and [hash] on objects *)

(** The [__eq__] method of each class. *)
Definition dunder_eq (a b : object) : option bool :=
  match a with
  | ONone => match b with ONone => Some true | _ => None end
  | OBool x =>
      match b with
      | OBool y => Some (Bool.eqb x y)
      | OInt z => Some (Z.eqb (Z.b2z x) z)
      | _ => None
      end
  | OInt x =>
      match b with
      | OBool y => Some (Z.eqb x (Z.b2z y))
      | OInt y => Some (Z.eqb x y)
      | _ => None
      end
  | OStr s => match b with OStr t => Some (String.eqb s t) | _ => None end
  | OPool p => Pool__eq__ p b
  | OVolume v => Volume__eq__ v b
  end.

(** [a == b]: the left operand's [__eq__], then the reflected one, then
    identity, which is false for two objects of unrelated classes. *)
Definition py_eq (a b : object) : bool :=
  match dunder_eq a b with
  | Some r => r
  | None =>
      match dunder_eq b a with
      | Some r => r
      | None => false
      end
  end.

Definition py_str (o : object) : string :=
  match o with
  | ONone => "None"
  | OBool true => "True"
  | OBool false => "False"
  | OInt z => NilZero.string_of_int (Z.to_int z)
  | OStr s => s
  | OPool p => Pool__str__ p
  | OVolume v => Volume__str__ v
  end.

(** [hash(o)] for the hashable objects of the module. *)
Definition py_hash (hash : string → Z) (o : object) : option Z :=
  match o with
  | OStr s => Some (hash s)
  | OPool p => Some (Pool__hash__ hash p)
  | OVolume v => Some (Volume__hash__ hash v)
  | _ => None
  end.

(** ** Configuration dictionaries *)

(** The [config] property of a volume. *)
Definition Volume_config (self : Volume.t) : gmap string object :=
  let result : gmap string object :=
    list_to_map
      [ ("name", OStr (Volume.name self));
        ("pool", OStr (py_str (OPool (Volume.pool self))));
        ("vid", OStr (Volume.vid self));
        ("revisions_to_keep", OInt (Volume.revisions_to_keep self));
        ("rw", OBool (Volume.rw self));
        ("save_on_stop", OBool (Volume.save_on_stop self));
        ("snap_on_start", OBool (Volume.snap_on_start self)) ] in
  let result :=
    if bool_decide (Volume_size self ≠ 0%Z)
    then <["size" := OInt (Volume_size self)]> result
    else result in
  let result :=
    match Volume.source self with
    | Some src => <["source" := OStr (py_str (OVolume src))]> result
    | None => result
    end in
  result.

(** One iteration of the loop of [_sanitize_config]. *)
Definition sanitize_item (key : string) (value : object)
    (result : gmap string string) : gmap string string :=
  match value with
  | OBool b => if b then <[key := "True"]> result else result
  | _ => <[key := py_str value]> result
  end.

Definition _sanitize_config (config : gmap string object) : gmap string string :=
  map_fold sanitize_item ∅ config.

(** The attributes of the element built by [Volume.__xml__]. *)
Definition Volume__xml__ (self : Volume.t) : gmap string string :=
  _sanitize_config (Volume_config self).

(** ** Pool drivers *)

(** The methods a concrete pool driver overrides.  [get_volume] may answer
    with [None] like any Python function; the base class raises
    [NotImplementedError] from all three. *)
Class PoolDriver : Type := {
  get_volume : Pool.t → object → result (option Volume.t);
  list_volumes : Pool.t → result (list Volume.t);
  init_volume : Pool.t → VM.t → gmap string object → result Volume.t;
}.

(** The base class [Pool]: nothing is implemented. *)
Definition Pool_not_implemented {A} (method_name : string) : result A :=
  Raise (NotImplementedError
           ("Pool driver Pool has " +:+ method_name +:+ "() not implemented")).

Definition BasePool : PoolDriver := {|
  get_volume _ _ := Pool_not_implemented "get_volume";
  list_volumes _ := Pool_not_implemented "list_volumes";
  init_volume _ _ _ := Pool_not_implemented "init_volume";
|}.

(** ** VolumesCollection *)

Record VolumesCollection : Type := { _pool : Pool.t }.

Section VolumesCollection.
Context `{PoolDriver}.

Definition VolumesCollection__iter__ (self : VolumesCollection)
    : result (list Volume.t) :=
  list_volumes (_pool self).

(** [__getitem__] past the [isinstance(item, Volume)] test.  The call
    [self[item.vid]] of the first branch lands here, a vid being a [str]. *)
Definition VolumesCollection_getitem_vid (self : VolumesCollection)
    (item : object) : result (option Volume.t) :=
  match get_volume (_pool self) item with
  | Ok r => Ok r
  | Raise e =>
      if is_NotImplementedError e then
        match VolumesCollection__iter__ self with
        | Ok vols =>
            match find (λ vol, py_eq (OStr (Volume.vid vol)) item) vols with
            | Some vol => Ok (Some vol)
            | None => Raise (KeyError item)
            end
        | Raise e' => Raise e'
        end
      else Raise e
  end.

Definition VolumesCollection__getitem__ (self : VolumesCollection)
    (item : object) : result (option Volume.t) :=
  match item with
  | OVolume v =>
      if Pool_eq (Volume.pool v) (_pool self)
      then VolumesCollection_getitem_vid self (OStr (Volume.vid v))
      else Raise (KeyError item)
  | _ => VolumesCollection_getitem_vid self item
  end.

Definition VolumesCollection__contains__ (self : VolumesCollection)
    (item : object) : result bool :=
  match VolumesCollection__getitem__ self item with
  | Ok r => Ok (negb (bool_decide (r = None)))
  | Raise e => if is_KeyError e then Ok false else Raise e
  end.

Definition VolumesCollection_keys (self : VolumesCollection)
    : result (list string) :=
  match VolumesCollection__iter__ self with
  | Ok vols => Ok (Volume.vid <$> vols)
  | Raise e => Raise e
  end.

Definition VolumesCollection_values (self : VolumesCollection)
    : result (list Volume.t) :=
  VolumesCollection__iter__ self.
End VolumesCollection.

(** ** Frontend slots *)

Definition ascii_lowercase : string := "abcdefghijklmnopqrstuvwxyz".

Definition Storage_AVAILABLE_FRONTENDS : gset string :=
  list_to_set ((λ c, "xvd" +:+ String c EmptyString)
                 <$> String.list_ascii_of_string ascii_lowercase).

(** The [used_frontends] property: the [dev] attribute of every disk target
    of the libvirt description, [None] where a target has none.  A [None]
    entry equals no frontend name, so the set is kept at type [string]. *)
Definition Storage_used_frontends (targets : list (option string)) : gset string :=
  list_to_set (omap id targets).

(** The order of [sorted] on [str]: code points, lexicographically. *)
Definition str_le (x y : string) : Prop := String.leb x y = true.

#[global] Instance str_le_dec : RelDecision str_le.
Proof. intros x y; unfold str_le; apply _. Defined.

Definition sorted (l : list string) : list string := merge_sort str_le l.

Definition Storage_unused_frontend (used_frontends : gset string) : result string :=
  let unused_frontends := Storage_AVAILABLE_FRONTENDS ∖ used_frontends in
  match sorted (elements unused_frontends) with
  | x :: _ => Ok x
  | [] => Raise IndexError
  end.

(** ** Dictionaries in insertion order *)

Fixpoint dict_get {V} (d : list (string * V)) (key : string) : option V :=
  match d with
  | [] => None
  | (k, v) :: rest => if String.eqb k key then Some v else dict_get rest key
  end.

(** [d[key] = value] *)
Fixpoint dict_setitem {V} (d : list (string * V)) (key : string) (value : V)
    : list (string * V) :=
  match d with
  | [] => [(key, value)]
  | (k, v) :: rest =>
      if String.eqb k key then (k, value) :: rest
      else (k, v) :: dict_setitem rest key value
  end.

(** [d[key]] *)
Definition dict_getitem {V} (d : list (string * V)) (key : string) : result V :=
  match dict_get d key with
  | Some v => Ok v
  | None => Raise (KeyError (OStr key))
  end.

Definition dict_keys {V} (d : list (string * V)) : list string := d.*1.
Definition dict_values {V} (d : list (string * V)) : list V := d.*2.

(** ** The world the coordinator acts on *)

(** What a logging call is given after its message. *)
Inductive log_arg : Type :=
| LogStr (s : string)
| LogExn (e : exn).

Inductive event : Type :=
| EvCreate (v : Volume.t)
| EvImportVolume (dst src : Volume.t)
| EvImportData (v : Volume.t) (size : Z)
| EvRemove (v : Volume.t)
| EvRmdir (path : string)
| EvLogInfo (msg : string)
| EvLogException (msg : string) (args : list log_arg).

(** [vm] is [self.vm]; [fs] maps every existing directory to its entries;
    [backing] holds the [(pool name, vid)] of the volumes that exist in
    backing storage; [trace] records the calls the coordinator makes: the
    driver calls that ran, the filesystem calls and the calls of the logger.
    [EvLogInfo] holds the text handed to [log.info]; [EvLogException] holds
    the message and the further arguments as [log.exception] is given them,
    before the logging library formats them. *)
Record World : Type := mkWorld {
  vm : VM.t;
  fs : gmap string (list string);
  backing : gset (string * string);
  trace : list event;
}.

Definition volume_key (v : Volume.t) : string * string :=
  (Pool.name (Volume.pool v), Volume.vid v).

(** State and exceptions. *)
Definition M (A : Type) : Type := World → World * result A.

Definition ret {A} (a : A) : M A := λ w, (w, Ok a).
Definition raise {A} (e : exn) : M A := λ w, (w, Raise e).
Definition bind {A B} (m : M A) (k : A → M B) : M B :=
  λ w, match m w with
       | (w', Ok a) => k a w'
       | (w', Raise e) => (w', Raise e)
       end.
Definition lift {A} (r : result A) : M A := λ w, (w, r).
Definition get_world : M World := λ w, (w, Ok w).
Definition modify (f : World → World) : M unit := λ w, (f w, Ok tt).

Notation "x <- m ;; k" := (bind m (λ x, k))
  (at level 100, m at next level, right associativity).
Notation "m ;; k" := (bind m (λ _, k))
  (at level 100, right associativity).

(** [try: body / except <catches> as e: handler e] *)
Definition try_except {A} (body : M A) (catches : exn → bool)
    (handler : exn → M A) : M A :=
  λ w, match body w with
       | (w', Ok a) => (w', Ok a)
       | (w', Raise e) => if catches e then handler e w' else (w', Raise e)
       end.

(** [for x in l: body x] *)
Fixpoint for_each {A} (l : list A) (body : A → M unit) : M unit :=
  match l with
  | [] => ret tt
  | x :: rest => body x ;; for_each rest body
  end.

(** [with manager: body], for a manager whose [__enter__] does nothing and
    whose [__exit__] returns [None]: an exception of the body is raised
    again after [__exit__], unless [__exit__] itself raises, in which case
    that exception replaces it. *)
Definition with_ {A} (__exit__ : option exn → M unit) (body : M A) : M A :=
  λ w, match body w with
       | (w1, Ok a) =>
           match __exit__ None w1 with
           | (w2, Ok _) => (w2, Ok a)
           | (w2, Raise e') => (w2, Raise e')
           end
       | (w1, Raise e) =>
           match __exit__ (Some e) w1 with
           | (w2, Ok _) => (w2, Raise e)
           | (w2, Raise e') => (w2, Raise e')
           end
       end.

Definition add_event (ev : event) (w : World) : World :=
  mkWorld (vm w) (fs w) (backing w) (trace w ++ [ev]).

Definition emit (ev : event) : M unit := modify (add_event ev).

Definition log_info (msg : string) : M unit := emit (EvLogInfo msg).
Definition log_exception (msg : string) (args : list log_arg) : M unit :=
  emit (EvLogException msg args).

Definition set_volumes (f : list (string * Volume.t) → list (string * Volume.t))
    : M unit :=
  modify (λ w,
    mkWorld (VM.mk (VM.name (vm w)) (VM.dir_path (vm w))
               (VM.volume_config (vm w)) (f (VM.volumes (vm w))))
            (fs w) (backing w) (trace w)).

Definition set_backing (f : gset (string * string) → gset (string * string))
    : M unit :=
  modify (λ w, mkWorld (vm w) (fs w) (f (backing w)) (trace w)).

(** [os.rmdir(path)]: removes an existing empty directory. *)
Definition os_rmdir (path : string) : M unit :=
  emit (EvRmdir path) ;;
  w <- get_world ;;
  match fs w !! path with
  | Some [] => modify (λ w, mkWorld (vm w) (delete path (fs w)) (backing w) (trace w))
  | Some (_ :: _) => raise (OSError "Directory not empty")
  | None => raise (OSError "No such file or directory")
  end.

(** ** Volume drivers *)

(** What the methods of a concrete volume do when they run: [None] is
    success, [Some e] raises [e].  A driver may write [remove] as a plain
    method or as a coroutine function, as the base class declares it.  The
    volumes of a driver are the entries of [backing]: the image files that a
    file-backed driver keeps in a directory are not entries of [fs]. *)
Class VolumeDriver : Type := {
  create_outcome : Volume.t → option exn;
  import_volume_outcome : Volume.t → Volume.t → option exn;
  remove_is_coroutine : Volume.t → bool;
  remove_outcome : Volume.t → option exn;
  import_data_result : Volume.t → Z → result string;
}.

(** [vm.app.get_pool] *)
Class App : Type := {
  get_pool : object → result Pool.t;
}.

(** What a call returns: a plain value or a coroutine object, whose body
    runs only when it is awaited. *)
Inductive retval (A : Type) : Type :=
| Plain (a : A)
| Coroutine (body : M A).
Arguments Plain {A} a.
Arguments Coroutine {A} body.

(** Modelled from the spec: [qubes.utils.coro_maybe], which is not part of
    this module.  Callers tolerate blocking and suspending implementations
    alike: a coroutine object is awaited, any other value is returned. *)
Definition coro_maybe {A} (value : retval A) : M A :=
  match value with
  | Plain a => ret a
  | Coroutine body => body
  end.

(** Runs every task to completion, one after the other, and collects the
    exceptions. *)
Fixpoint run_all (tasks : list (M unit)) : M (list exn) :=
  match tasks with
  | [] => ret []
  | task :: rest =>
      λ w, match task w with
           | (w', Ok _) => run_all rest w'
           | (w', Raise e) =>
               match run_all rest w' with
               | (w'', Ok es) => (w'', Ok (e :: es))
               | (w'', Raise e') => (w'', Raise e')
               end
           end
  end.

Definition coroutines (values : list (retval unit)) : list (M unit) :=
  omap (λ value, match value with
                 | Coroutine body => Some body
                 | Plain _ => None
                 end) values.

(** Modelled from the spec: [qubes.utils.void_coros_maybe], the bulk
    fan-out, which is not part of this module.  One task per coroutine
    object is launched and all tasks are awaited; no task is cancelled when
    a sibling fails; once all have settled, a failure is raised if there was
    one.  The tasks are run in the order given and the first failure in that
    order is the one raised: one of the runs the specification allows, which
    promises no order between sibling tasks and no more than that a failure
    is raised when there was one. *)
Definition void_coros_maybe (values : list (retval unit)) : M unit :=
  es <- run_all (coroutines values) ;;
  match es with
  | [] => ret tt
  | e :: _ => raise e
  end.

Section Storage.
Context `{PoolDriver} `{VolumeDriver} `{App}.

(** *** Calls of volume methods *)

Definition create_body (v : Volume.t) : M unit :=
  emit (EvCreate v) ;;
  match create_outcome v with
  | None => set_backing (λ b, {[volume_key v]} ∪ b)
  | Some e => raise e
  end.

Definition import_volume_body (dst src : Volume.t) : M unit :=
  emit (EvImportVolume dst src) ;;
  match import_volume_outcome dst src with
  | None => ret tt
  | Some e => raise e
  end.

Definition remove_body (v : Volume.t) : M unit :=
  emit (EvRemove v) ;;
  match remove_outcome v with
  | None => set_backing (λ b, b ∖ {[volume_key v]})
  | Some e => raise e
  end.

(** [volume.create()], [volume.import_volume(src)]: awaited through
    [coro_maybe] wherever they are called, so the two ways of writing
    them are not told apart. *)
Definition Volume_create (v : Volume.t) : M (retval unit) :=
  ret (Coroutine (create_body v)).

Definition Volume_import_volume (dst src : Volume.t) : M (retval unit) :=
  ret (Coroutine (import_volume_body dst src)).

(** [volume.remove()]: a plain method runs now, a coroutine function
    only hands back a coroutine object. *)
Definition Volume_remove (v : Volume.t) : M (retval unit) :=
  if remove_is_coroutine v
  then ret (Coroutine (remove_body v))
  else (remove_body v ;; ret (Plain tt)).

(** [volume.import_data(size)] *)
Definition Volume_import_data (v : Volume.t) (size : Z) : M (retval string) :=
  ret (Coroutine (emit (EvImportData v size) ;; lift (import_data_result v size))).

(** *** Storage.remove *)

(** The [for] loop of [Storage.remove], with [results] threaded.  The
    handler hands [log.exception] its message, [vol.name] and [e]. *)
Fixpoint Storage_remove_loop (vols : list Volume.t)
    (results : list (retval unit)) : M (list (retval unit)) :=
  match vols with
  | [] => ret results
  | vol :: rest =>
      log_info ("Removing volume " +:+ Volume.name vol +:+ ": "
                +:+ Volume.vid vol) ;;
      results' <-
        try_except
          (r <- Volume_remove vol ;; ret (results ++ [r]))
          is_OSError
          (λ e, log_exception "Failed to remove volume %s"
                  [LogStr (Volume.name vol); LogExn e] ;;
                ret results) ;;
      Storage_remove_loop rest results'
  end.

Definition Storage_remove : M unit :=
  w <- get_world ;;
  results <- Storage_remove_loop (dict_values (VM.volumes (vm w))) [] ;;
  try_except
    (void_coros_maybe results)
    is_OSError
    (λ e, log_exception "Failed to remove some volume" [LogExn e]).

(** *** VmCreationManager *)

(** [__exit__(type, value, tb)]: the three arguments are all [None] or
    all set, so one optional exception stands for them; the method
    returns [None]. *)
Definition VmCreationManager__exit__ (exc : option exn) : M unit :=
  match exc with
  | Some _ =>
      w <- get_world ;;
      for_each (dict_values (VM.volumes (vm w)))
        (λ volume,
           try_except (Volume_remove volume ;; ret tt)
             is_Exception
             (λ _, ret tt)) ;;
      os_rmdir (VM.dir_path (vm w))
  | None => ret tt
  end.

(** *** Storage.clone *)

Definition Storage_clone_volume (src_vm : VM.t) (name : string) : M Volume.t :=
  w <- get_world ;;
  config <- lift (dict_getitem (VM.volume_config (vm w)) name) ;;
  pool_ref <- lift (match config !! "pool" with
                    | Some p => Ok p
                    | None => Raise (KeyError (OStr "pool"))
                    end) ;;
  dst_pool <- lift (get_pool pool_ref) ;;
  dst <- lift (init_volume dst_pool (vm w) config) ;;
  src_volume <- lift (dict_getitem (VM.volumes src_vm) name) ;;
  log_info ("Importing volume " +:+ Volume.name src_volume
            +:+ " from vm " +:+ VM.name src_vm) ;;
  (r <- Volume_create dst ;; coro_maybe r) ;;
  (r <- Volume_import_volume dst src_volume ;; coro_maybe r) ;;
  set_volumes (λ volumes, dict_setitem volumes name dst) ;;
  w' <- get_world ;;
  lift (dict_getitem (VM.volumes (vm w')) name).

(** The generator handed to [void_coros_maybe]: one coroutine object per
    configured volume name. *)
Definition Storage_clone_tasks (src_vm : VM.t) (names : list string)
    : list (retval unit) :=
  (λ vol_name, Coroutine (Storage_clone_volume src_vm vol_name ;; ret tt))
    <$> names.

Definition Storage_clone (src_vm : VM.t) : M unit :=
  set_volumes (λ _, []) ;;
  w <- get_world ;;
  with_ VmCreationManager__exit__
    (void_coros_maybe
       (Storage_clone_tasks src_vm (dict_keys (VM.volume_config (vm w))))).

(** *** Storage.import_data *)

Definition Storage_import_data (volume : object) (size : option Z) : M string :=
  volume <- match volume with
            | OVolume v => ret v
            | OStr s => w <- get_world ;; lift (dict_getitem (VM.volumes (vm w)) s)
            | _ => raise AssertionError
            end ;;
  let size := match size with
              | None => Volume_size volume
              | Some size => size
              end in
  r <- Volume_import_data volume size ;;
  coro_maybe r.
End Storage.

(** ** Locating the pool that contains a directory *)

(** The operating system, as [search_pool_containing_dir] sees it.
    [os.path.realpath] yields a canonical absolute path, kept as the list of
    its components (["/data/pool1"] is [["data"; "pool1"]], ["/"] is [[]]).
    [dm_thin_pool] is what the [try] block of [DirectoryThinPool._init]
    finds for a directory: the volume group and thin pool under its
    filesystem, or nothing when the device is not a thin volume or a step
    of the probe fails. *)
Class OsEnv : Type := {
  os_path_realpath : string → list string;
  dm_thin_pool : list string → option (string * string);
}.

Fixpoint common_prefix (a b : list string) : list string :=
  match a, b with
  | x :: a', y :: b' =>
      if String.eqb x y then x :: common_prefix a' b' else []
  | _, _ => []
  end.

(** [os.path.commonpath] on canonical absolute paths. *)
Definition os_path_commonpath (paths : list (list string)) : result (list string) :=
  match paths with
  | [] => Raise ValueError
  | p :: rest => Ok (foldl common_prefix p rest)
  end.

Section Locator.
Context `{OsEnv}.

(** [DirectoryThinPool._init]: the class attribute [_thin_pool] is
    threaded as [cache]. *)
Definition DirectoryThinPool__init
    (cache : gmap (list string) (option string * option string))
    (dir_path : list string)
    : gmap (list string) (option string * option string) :=
  match cache !! dir_path with
  | Some _ => cache
  | None =>
      let cache := <[dir_path := (None, None)]> cache in
      match dm_thin_pool dir_path with
      | Some (volume_group, thin_pool) =>
          <[dir_path := (Some volume_group, Some thin_pool)]> cache
      | None => cache
      end
  end.

Definition DirectoryThinPool_thin_pool
    (cache : gmap (list string) (option string * option string))
    (dir_path : list string)
    : gmap (list string) (option string * option string)
      * result (option string * option string) :=
  let cache := DirectoryThinPool__init cache dir_path in
  (cache,
   match cache !! dir_path with
   | Some r => Ok r
   | None => Raise (KeyError (OStr (String.concat "/" dir_path)))
   end).

(** The first loop: filesystem pools. *)
Fixpoint search_dir_pools (pools : list Pool.t) (real_dir_path : list string)
    : result (option Pool.t) :=
  match pools with
  | [] => Ok None
  | pool :: rest =>
      match Pool.dir_path pool with
      | Some dir_path =>
          let pool_real_dir_path := os_path_realpath dir_path in
          match os_path_commonpath [pool_real_dir_path; real_dir_path] with
          | Ok common =>
              if bool_decide (common = pool_real_dir_path)
              then Ok (Some pool)
              else search_dir_pools rest real_dir_path
          | Raise e => Raise e
          end
      | None => search_dir_pools rest real_dir_path
      end
  end.

(** The second loop. *)
Fixpoint search_thin_pools (pools : list Pool.t) (real_dir_path : list string)
    (cache : gmap (list string) (option string * option string))
    : gmap (list string) (option string * option string)
      * result (option Pool.t) :=
  match pools with
  | [] => (cache, Ok None)
  | pool :: rest =>
      match Pool.thin_pool pool, Pool.volume_group pool with
      | Some thin_pool, Some volume_group =>
          match DirectoryThinPool_thin_pool cache real_dir_path with
          | (cache', Ok found) =>
              if bool_decide ((Some volume_group, Some thin_pool) = found)
              then (cache', Ok (Some pool))
              else search_thin_pools rest real_dir_path cache'
          | (cache', Raise e) => (cache', Raise e)
          end
      | _, _ => search_thin_pools rest real_dir_path cache
      end
  end.

Definition search_pool_containing_dir (pools : list Pool.t) (dir_path : string)
    (cache : gmap (list string) (option string * option string))
    : gmap (list string) (option string * option string)
      * result (option Pool.t) :=
  let real_dir_path := os_path_realpath dir_path in
  match search_dir_pools pools real_dir_path with
  | Ok (Some pool) => (cache, Ok (Some pool))
  | Ok None => search_thin_pools pools real_dir_path cache
  | Raise e => (cache, Raise e)
  end.
End Locator.

(** ** The libvirt description of a domain: attach and detach *)

(** An [lxml] element: tag, attributes in the order they were set, child
    elements in document order.  Text and namespaces play no part in the
    queries of this file. *)
Inductive element : Type :=
  Element (tag : string) (attrib : list (string * string))
          (children : list element).

Definition element_tag (e : element) : string :=
  match e with Element tag _ _ => tag end.

Definition element_attrib (e : element) : list (string * string) :=
  match e with Element _ attrib _ => attrib end.

Definition element_children (e : element) : list element :=
  match e with Element _ _ children => children end.

(** [e.get(key)] *)
Definition element_get (e : element) (key : string) : option string :=
  dict_get (element_attrib e) key.

(** [e.set(key, value)] *)
Definition element_set (e : element) (key value : string) : element :=
  match e with
  | Element tag attrib children =>
      Element tag (dict_setitem attrib key value) children
  end.

(** [lxml.etree.SubElement(parent, ...)]: the child is appended. *)
Definition SubElement (parent child : element) : element :=
  match parent with
  | Element tag attrib children => Element tag attrib (children ++ [child])
  end.

(** An absolute path [//t1/.../tn], evaluated on the root element: the
    elements, in document order, whose tag is [tn], whose parent's tag is
    [tn-1], and so on up to [t1], which may sit at any depth.  [steps] lists
    [tn; ...; t1]; [ancestors] lists the tags from the parent of [e] up to
    the root. *)
Fixpoint xpath_from (steps ancestors : list string) (e : element) : list element :=
  match e with
  | Element tag attrib children =>
      (if bool_decide (steps `prefix_of` tag :: ancestors) then [e] else [])
      ++ (fix go (cs : list element) : list element :=
            match cs with
            | [] => []
            | c :: cs' => xpath_from steps (tag :: ancestors) c ++ go cs'
            end) children
  end.

Definition xpath (steps : list string) (root : element) : list element :=
  xpath_from steps [] root.

(** A relative path of one step, [e.xpath('tag')]: the children of that
    tag. *)
Definition xpath_child (tag : string) (e : element) : list element :=
  filter (λ c, element_tag c = tag) (element_children e).

Definition disk_path : list string := ["disk"; "devices"; "domain"].

Definition dev_of (volume : Volume.t) : string := "/dev/" +:+ Volume.vid volume.

Definition Volume__repr__ (self : Volume.t) : string :=
  repr_str (Pool__str__ (Volume.pool self) +:+ ":" +:+ Volume.vid self).

(** [Storage._is_already_attached], on the description [XMLDesc()]
    returns. *)
Definition Storage__is_already_attached (XMLDesc : element)
    (volume : Volume.t) : bool :=
  existsb (λ source, bool_decide (element_get source "dev" = Some (dev_of volume)))
          (xpath ("source" :: disk_path) XMLDesc).

(** The targets [used_frontends] reads off the description. *)
Definition disk_targets (XMLDesc : element) : list (option string) :=
  (λ target, element_get target "dev") <$> xpath ("target" :: disk_path) XMLDesc.

(** What [attach] and [detach] do to the domain: a line in its log, or a
    device handed to libvirt.  [lxml.etree.tostring] is kept as the element
    it writes out. *)
Inductive domain_call :=
  | log_info_call (msg : string)
  | attachDevice (disk : element)
  | detachDevice (disk : element).

(** The [<disk>] element [attach] builds. *)
Definition attach_disk (volume : Volume.t) (domain : option string)
    (rw : bool) (frontend : string) : element :=
  let disk := Element "disk" [] [] in
  let disk := element_set disk "type" "block" in
  let disk := element_set disk "device" "disk" in
  let disk := SubElement disk (element_set (Element "driver" [] []) "name" "phy") in
  let disk := SubElement disk
                (element_set (Element "source" [] []) "dev" (dev_of volume)) in
  let disk := SubElement disk
                (element_set (Element "target" [] []) "dev" frontend) in
  let disk := if negb rw then SubElement disk (Element "readonly" [] [])
              else disk in
  match domain with
  | Some name =>
      SubElement disk (element_set (Element "backenddomain" [] []) "name" name)
  | None => disk
  end.

(** [Storage.attach].  [is_running] and [XMLDesc] are what the domain
    answers; [domain] is the name of [volume.domain], if the volume has
    one.  The calls made are returned with the outcome; [attachDevice] is
    the last statement, so what libvirt answers is the outcome of the
    call. *)
Definition Storage_attach (is_running : bool) (XMLDesc : element)
    (volume : Volume.t) (domain : option string) (rw : bool)
    : list domain_call * result unit :=
  if negb is_running then ([], Raise AssertionError)
  else if Storage__is_already_attached XMLDesc volume
  then ([log_info_call (Volume__repr__ volume +:+ " already attached")], Ok tt)
  else
    match Storage_unused_frontend (Storage_used_frontends (disk_targets XMLDesc)) with
    | Raise IndexError =>
        ([], Raise (StoragePoolException "No unused frontend found"))
    | Raise e => ([], Raise e)
    | Ok frontend => ([attachDevice (attach_disk volume domain rw frontend)], Ok tt)
    end.

(** The loop of [Storage.detach] over the disks of the description. *)
Fixpoint detach_loop (disks : list element) (volume : Volume.t)
    : list domain_call * result unit :=
  match disks with
  | [] => ([], Raise (StoragePoolException
                        ("Volume " +:+ Volume__repr__ volume +:+ " is not attached")))
  | disk :: rest =>
      match xpath_child "source" disk with
      | [] => ([], Raise IndexError)
      | source :: _ =>
          if bool_decide (element_get source "dev" = Some (dev_of volume))
          then ([detachDevice disk], Ok tt)
          else detach_loop rest volume
      end
  end.

(** [Storage.detach] *)
Definition Storage_detach (XMLDesc : element) (volume : Volume.t)
    : list domain_call * result unit :=
  detach_loop (xpath disk_path XMLDesc) volume.

(** ** The source volume of a snapshot: the chain of templates *)

(** [Storage._update_volume_config_source].  [templates] is the chain
    [vm.template], [vm.template.template], ... as far as it goes; the
    dictionary [volume_config] is changed in place, so it is returned with
    the outcome also when the lookup in a template raises. *)
Fixpoint _update_volume_config_source (templates : list VM.t) (name : string)
    (volume_config : gmap string object)
    : gmap string object * result unit :=
  match templates with
  | [] => (volume_config, Ok tt)
  | template :: rest =>
      match dict_getitem (VM.volumes template) name with
      | Raise e => (volume_config, Raise e)
      | Ok source =>
          let volume_config := <["source" := OVolume source]> volume_config in
          let volume_config :=
            <["pool" := OPool (Volume.pool source)]> volume_config in
          let volume_config :=
            <["size" := OInt (Volume_size source)]> volume_config in
          match Volume.source source with
          | Some _ => _update_volume_config_source rest name volume_config
          | None => (volume_config, Ok tt)
          end
      end
  end.

(** ** Strings, as the probe of the thin pool uses them *)

(** The line feed. *)
Definition LF : string := String (Ascii.ascii_of_nat 10) EmptyString.

(** [sub in s] *)
Fixpoint str_in (sub s : string) : bool :=
  String.prefix sub s
  || match s with
     | EmptyString => false
     | String _ rest => str_in sub rest
     end.

(** [s.replace(old, new)] for a non-empty [old]: the occurrences of [old]
    are taken from the left and do not overlap; [skip] counts the characters
    of an occurrence that are still to be passed over. *)
Fixpoint str_replace_from (old new : string) (skip : nat) (s : string) : string :=
  match s with
  | EmptyString => EmptyString
  | String c rest =>
      match skip with
      | S skip' => str_replace_from old new skip' rest
      | O =>
          if String.prefix old s
          then new +:+ str_replace_from old new (String.length old - 1) rest
          else String c (str_replace_from old new 0 rest)
      end
  end.

Definition str_replace (old new s : string) : string :=
  str_replace_from old new 0 s.

(** [s.split(sep, maxsplit)] for a non-empty [sep]; [maxsplit] is [None]
    where Python has no limit. *)
Fixpoint str_split_from (sep : string) (skip : nat) (maxsplit : option nat)
    (s : string) : list string :=
  match s with
  | EmptyString => [EmptyString]
  | String c rest =>
      match skip with
      | S skip' => str_split_from sep skip' maxsplit rest
      | O =>
          if String.prefix sep s && negb (bool_decide (maxsplit = Some 0))
          then EmptyString
               :: str_split_from sep (String.length sep - 1)
                    (Nat.pred <$> maxsplit) rest
          else
            match str_split_from sep 0 maxsplit rest with
            | piece :: pieces => String c piece :: pieces
            | [] => [String c EmptyString]
            end
      end
  end.

Definition str_split (sep : string) (maxsplit : option nat) (s : string)
    : list string :=
  str_split_from sep 0 maxsplit s.

Fixpoint str_rev (s : string) : string :=
  match s with
  | EmptyString => EmptyString
  | String c rest => str_rev rest +:+ String c EmptyString
  end.

(** [s.rsplit(sep, maxsplit)]: [split] read from the right. *)
Definition str_rsplit (sep : string) (maxsplit : option nat) (s : string)
    : list string :=
  rev (str_rev <$> str_split (str_rev sep) maxsplit (str_rev s)).

(** [s.rstrip(chars)] *)
Fixpoint str_rstrip (chars : string) (s : string) : string :=
  match s with
  | EmptyString => EmptyString
  | String c rest =>
      match str_rstrip chars rest with
      | EmptyString =>
          if str_in (String c EmptyString) chars then EmptyString
          else String c EmptyString
      | kept => String c kept
      end
  end.

(** [s.endswith(suffix)] *)
Fixpoint str_endswith (s suffix : string) : bool :=
  String.eqb s suffix
  || match s with
     | EmptyString => false
     | String _ rest => str_endswith rest suffix
     end.

(** ** The probe of the thin pool under a directory *)

(** What the probe asks of the host: [os.stat(dir_path).st_dev],
    [os.getuid()], the decoded output of [subprocess.check_output], and the
    content of a file. *)
Record Host : Type := mkHost {
  os_stat_st_dev : list string → result Z;
  os_getuid : Z;
  check_output : list string → result string;
  read_file : string → result string;
}.

Definition fs_major (st_dev : Z) : Z := Z.shiftr (Z.land st_dev 0xff00) 8.

Definition fs_minor (st_dev : Z) : Z := Z.land st_dev 0xff.

(** The command line of the query to [dmsetup]. *)
Definition dmsetup_argv (uid st_dev : Z) : list string :=
  let sudo := if bool_decide (uid ≠ 0%Z) then ["sudo"] else [] in
  sudo ++ ["dmsetup"; "-j"; py_str (OInt (fs_major st_dev));
           "-m"; py_str (OInt (fs_minor st_dev)); "table"].

(** From the content of [/sys/dev/block/<devnum>/dm/name] to the volume
    group and the thin pool; [None] where nothing is assigned. *)
Definition thin_pool_of_name (content : string)
    : result (option (string * string)) :=
  let thin_pool_tpool := str_rstrip LF content in
  if str_endswith thin_pool_tpool "-tpool" then
    let thin_pool_tpool := str_replace "--" "=" thin_pool_tpool in
    match str_rsplit "-" (Some 2) thin_pool_tpool with
    | [volume_group; thin_pool; _tpool] =>
        Ok (Some (str_replace "=" "-" volume_group,
                  str_replace "=" "-" thin_pool))
    | _ => Raise ValueError
    end
  else Ok None.

(** From the table of the device on. *)
Definition thin_pool_of_table (h : Host) (root_table : string)
    : result (option (string * string)) :=
  match str_split " " (Some 3) root_table with
  | [_start; _sectors; target_type; target_args] =>
      if String.eqb target_type "thin" then
        match str_split " " None target_args with
        | [thin_pool_devnum; _thin_pool_id] =>
            match read_file h ("/sys/dev/block/" +:+ thin_pool_devnum
                               +:+ "/dm/name") with
            | Ok content => thin_pool_of_name content
            | Raise e => Raise e
            end
        | _ => Raise ValueError
        end
      else Ok None
  | _ => Raise ValueError
  end.

(** The [try] block of [DirectoryThinPool._init]. *)
Definition DirectoryThinPool_probe (h : Host) (dir_path : list string)
    : result (option (string * string)) :=
  match os_stat_st_dev h dir_path with
  | Ok st_dev =>
      match check_output h (dmsetup_argv (os_getuid h) st_dev) with
      | Ok root_table => thin_pool_of_table h root_table
      | Raise e => Raise e
      end
  | Raise e => Raise e
  end.

(** The block with its bare [except]: whatever is raised, nothing is
    assigned. *)
Definition host_dm_thin_pool (h : Host) (dir_path : list string)
    : option (string * string) :=
  match DirectoryThinPool_probe h dir_path with
  | Ok found => found
  | Raise _ => None
  end.

(** The operating system, given the host and the resolution of paths. *)
Definition host_OsEnv (realpath : string → list string) (h : Host) : OsEnv := {|
  os_path_realpath := realpath;
  dm_thin_pool := host_dm_thin_pool h;
|}.

(** ** Resizing a volume *)

(** The [volume] argument of [Storage.resize]: a name or a volume. *)
Inductive volume_arg : Type :=
| by_name (name : string)
| by_volume (volume : Volume.t).

(** How [vm.run_service_for_stdio] ends: normally, with
    [subprocess.CalledProcessError] carrying the bytes of [stderr], or with
    another exception. *)
Inductive service_outcome : Type :=
| service_done
| CalledProcessError (stderr : string)
| service_raises (e : exn).

(** What [resize] meets: the volumes of the VM, the driver's
    [volume.resize(size)], awaited where it is a coroutine, whether the VM
    runs once the volume is resized, and the service in the VM. *)
Record ResizeEnv : Type := mkResizeEnv {
  resize_volumes : list (string * Volume.t);
  resize_outcome : Volume.t → Z → option exn;
  resize_is_running : bool;
  run_service_for_stdio : string → string → string → service_outcome;
}.

Inductive resize_call : Type :=
| call_resize (volume : Volume.t) (size : Z)
| call_run_service (service input user : string).

(** [bytes.decode('ascii', errors='ignore')]: the bytes from 128 on are
    dropped. *)
Fixpoint decode_ascii_ignore (bytes : string) : string :=
  match bytes with
  | EmptyString => EmptyString
  | String c rest =>
      if (Ascii.N_of_ascii c <? 128)%N
      then String c (decode_ascii_ignore rest)
      else decode_ascii_ignore rest
  end.

(** [Storage.resize]: the calls it makes, in order, and its outcome. *)
Definition Storage_resize (env : ResizeEnv) (volume : volume_arg) (size : Z)
    : list resize_call * result unit :=
  match match volume with
        | by_name name => dict_getitem (resize_volumes env) name
        | by_volume volume => Ok volume
        end with
  | Raise e => ([], Raise e)
  | Ok volume =>
      match resize_outcome env volume size with
      | Some e => ([call_resize volume size], Raise e)
      | None =>
          if resize_is_running env then
            let service :=
              call_run_service "qubes.ResizeDisk" (Volume.name volume) "root" in
            match run_service_for_stdio env "qubes.ResizeDisk"
                    (Volume.name volume) "root" with
            | service_done => ([call_resize volume size; service], Ok tt)
            | CalledProcessError stderr =>
                let service_error := decode_ascii_ignore stderr in
                let service_error := str_replace "%" "" service_error in
                ([call_resize volume size; service],
                 Raise (StoragePoolException
                          ("Online resize of volume " +:+ Volume__str__ volume
                           +:+ " failed (you need to resize "
                           +:+ "filesystem manually): " +:+ service_error)))
            | service_raises e => ([call_resize volume size; service], Raise e)
            end
          else ([call_resize volume size], Ok tt)
      end
  end.

(** ** Block devices and outdated volumes *)

Module BlockDevice.
Record t : Type := mk {
  path : string;
  name : string;
  rw : bool;
  script : option string;
  domain : option string;
  devtype : string;
}.
End BlockDevice.

(** [BlockDevice.__init__]: both assertions are on the truth of a string,
    and [None] is as false as the empty string. *)
Definition BlockDevice__init__ (path : option string) (name : string)
    (script : option string) (rw : bool) (domain : option string)
    (devtype : string) : result BlockDevice.t :=
  if bool_decide (name = "") then Raise AssertionError
  else
    match path with
    | Some p =>
        if bool_decide (p = "") then Raise AssertionError
        else Ok (BlockDevice.mk p name rw script domain devtype)
    | None => Raise AssertionError
    end.

(** The attributes of a volume that its class decides, and what
    [is_outdated()] answers. *)
Class VolumeAttributes : Type := {
  Volume_devtype : Volume.t → string;
  Volume_domain : Volume.t → option string;
  Volume_path : Volume.t → option string;
  Volume_script : Volume.t → option string;
  Volume_is_outdated : Volume.t → result bool;
}.

Section VolumeAttributes.
Context `{VolumeAttributes}.

(** [Volume.block_device] *)
Definition Volume_block_device (self : Volume.t) : result BlockDevice.t :=
  BlockDevice__init__ (Volume_path self) (Volume.name self)
    (Volume_script self) (Volume.rw self) (Volume_domain self)
    (Volume_devtype self).

(** The loop of [Storage.outdated_volumes]; [outdated] is the list the
    source calls [result]. *)
Fixpoint outdated_loop (volumes : list Volume.t) (outdated : list Volume.t)
    : result (list Volume.t) :=
  match volumes with
  | [] => Ok outdated
  | volume :: rest =>
      match Volume_is_outdated volume with
      | Ok true => outdated_loop rest (outdated ++ [volume])
      | Ok false => outdated_loop rest outdated
      | Raise e => Raise e
      end
  end.

(** [Storage.outdated_volumes] *)
Definition Storage_outdated_volumes (is_halted : bool)
    (volumes : list (string * Volume.t)) : result (list Volume.t) :=
  if is_halted then Ok [] else outdated_loop (dict_values volumes) [].
End VolumeAttributes.

(** ** Building the volumes of a VM *)

(** A VM with what [init_volume] asks of it besides its volumes: whether
    its [storage] attribute is set, and its template, if it has one. *)
Inductive Domain : Type :=
  mkDomain (dom_vm : VM.t) (dom_storage : bool) (dom_template : option Domain).

Definition dom_vm (d : Domain) : VM.t :=
  match d with mkDomain vm _ _ => vm end.

Definition dom_storage (d : Domain) : bool :=
  match d with mkDomain _ storage _ => storage end.

Definition dom_template (d : Domain) : option Domain :=
  match d with mkDomain _ _ template => template end.

(** The VMs from [d] up its templates. *)
Fixpoint domain_chain (d : Domain) : list VM.t :=
  match d with
  | mkDomain vm _ template =>
      vm :: match template with
            | Some t => domain_chain t
            | None => []
            end
  end.

(** [vm.template], [vm.template.template], ... *)
Definition template_chain (d : Domain) : list VM.t :=
  match dom_template d with
  | Some t => domain_chain t
  | None => []
  end.

(** [getattr(vm.app, 'default_pool_' + name)] *)
Class AppDefaults : Type := {
  default_pool : string → result object;
}.

(** [if 'name' not in volume_config: volume_config['name'] = name] *)
Definition set_default_name (name : string)
    (volume_config : gmap string object) : gmap string object :=
  match volume_config !! "name" with
  | Some _ => volume_config
  | None => <["name" := OStr name]> volume_config
  end.

(** The dictionary [init_volume] is given may be the VM's own, the one under
    [key] in [vm.volume_config]: what is written to it is then written to
    the VM. *)
Definition write_back (alias : option string)
    (volume_config : gmap string object) (d : Domain) : Domain :=
  match alias with
  | Some key =>
      mkDomain
        (VM.mk (VM.name (dom_vm d)) (VM.dir_path (dom_vm d))
           (dict_setitem (VM.volume_config (dom_vm d)) key volume_config)
           (VM.volumes (dom_vm d)))
        (dom_storage d) (dom_template d)
  | None => d
  end.

Section InitVolume.
Context `{PoolDriver} `{App} `{AppDefaults}.

(** [Storage(template)], the constructor run on the template: the template
    as the constructor leaves it, and how the constructor ends. *)
Variable new_Storage : Domain → Domain * result unit.

(** [if template and template.storage is None:
        template.storage = Storage(template)] *)
Definition init_template_storage (d : Domain) : Domain * result unit :=
  match dom_template d with
  | Some template =>
      if dom_storage template then (d, Ok tt)
      else
        match new_Storage template with
        | (template, Ok _) =>
            (mkDomain (dom_vm d) (dom_storage d)
               (Some (mkDomain (dom_vm template) true (dom_template template))),
             Ok tt)
        | (template, Raise e) =>
            (mkDomain (dom_vm d) (dom_storage d) (Some template), Raise e)
        end
  | None => (d, Ok tt)
  end.

(** The block under [if 'source' in volume_config]. *)
Definition init_volume_source (d : Domain) (name : string)
    (volume_config : gmap string object)
    : Domain * gmap string object * result unit :=
  match volume_config !! "source" with
  | None => (d, volume_config, Ok tt)
  | Some source =>
      match init_template_storage d with
      | (d, Raise e) => (d, volume_config, Raise e)
      | (d, Ok _) =>
          match source with
          | ONone =>
              let '(volume_config, r) :=
                _update_volume_config_source (template_chain d) name
                  volume_config in
              (d, volume_config, r)
          | _ =>
              match volume_config !! "pool" with
              | None => (d, volume_config, Raise (KeyError (OStr "pool")))
              | Some pool_ref =>
                  match get_pool pool_ref with
                  | Raise e => (d, volume_config, Raise e)
                  | Ok pool =>
                      match VolumesCollection__getitem__ {| _pool := pool |}
                              source with
                      | Raise e => (d, volume_config, Raise e)
                      | Ok found =>
                          (d,
                           <["source" := match found with
                                         | Some volume => OVolume volume
                                         | None => ONone
                                         end]> volume_config,
                           Ok tt)
                      end
                  end
              end
          end
      end
  end.

(** From [if 'pool' not in volume_config] to the deletion of
    ['internal']. *)
Definition init_volume_pool (name : string)
    (volume_config : gmap string object)
    : gmap string object * result Pool.t :=
  match match volume_config !! "pool" with
        | Some _ => (volume_config, Ok tt)
        | None =>
            match default_pool name with
            | Ok pool_ref => (<["pool" := pool_ref]> volume_config, Ok tt)
            | Raise e => (volume_config, Raise e)
            end
        end with
  | (volume_config, Raise e) => (volume_config, Raise e)
  | (volume_config, Ok _) =>
      match volume_config !! "pool" with
      | None => (volume_config, Raise (KeyError (OStr "pool")))
      | Some pool_ref =>
          match get_pool pool_ref with
          | Raise e => (volume_config, Raise e)
          | Ok pool => (delete "internal" volume_config, Ok pool)
          end
      end
  end.

(** [Storage.init_volume]: the VM, the dictionary and the outcome.  The
    driver is handed a copy of the dictionary. *)
Definition Storage_init_volume (d : Domain) (name : string)
    (volume_config : gmap string object) (alias : option string)
    : Domain * gmap string object * result Volume.t :=
  let volume_config := set_default_name name volume_config in
  match init_volume_source d name volume_config with
  | (d, volume_config, Raise e) =>
      (write_back alias volume_config d, volume_config, Raise e)
  | (d, volume_config, Ok _) =>
      match init_volume_pool name volume_config with
      | (volume_config, Raise e) =>
          (write_back alias volume_config d, volume_config, Raise e)
      | (volume_config, Ok pool) =>
          let d := write_back alias volume_config d in
          match init_volume pool (dom_vm d) volume_config with
          | Raise e => (d, volume_config, Raise e)
          | Ok volume =>
              (mkDomain
                 (VM.mk (VM.name (dom_vm d)) (VM.dir_path (dom_vm d))
                    (VM.volume_config (dom_vm d))
                    (dict_setitem (VM.volumes (dom_vm d)) name volume))
                 (dom_storage d) (dom_template d),
               volume_config, Ok volume)
          end
      end
  end.

(** The loop of [Storage.__init__] over [vm.volume_config.items()]. *)
Fixpoint init_volumes_loop (items : list (string * gmap string object))
    (d : Domain) : Domain * result unit :=
  match items with
  | [] => (d, Ok tt)
  | (name, conf) :: rest =>
      match Storage_init_volume d name conf (Some name) with
      | (d, _, Ok _) => init_volumes_loop rest d
      | (d, _, Raise e) => (d, Raise e)
      end
  end.

(** [Storage.__init__] *)
Definition Storage__init__ (d : Domain) : Domain * result unit :=
  init_volumes_loop (VM.volume_config (dom_vm d)) d.
End InitVolume.

(** The constructor on a VM whose chain of templates is at most [depth]
    long: the constructor it runs on the template is itself, one template
    up. *)
Fixpoint Storage_new `{PoolDriver} `{App} `{AppDefaults} (depth : nat)
    (d : Domain) : Domain * result unit :=
  Storage__init__
    (match depth with
     | O => λ template, (template, Ok tt)
     | S depth' => Storage_new depth'
     end) d.

(** * Example objects *)

Definition pool_varlibqubes : Pool.t :=
  Pool.mk "varlibqubes" 1 (Some "/var/lib/qubes") None None.

Definition pool_lvm : Pool.t :=
  Pool.mk "vm-pool" 1 None (Some "qubes_dom0") (Some "vm-pool").

Definition template_root : Volume.t :=
  Volume.mk "root" pool_lvm "vm-templates/fedora/root" 0 false true 10737418240
    false None.

(** How many of the given flags are set. *)
Definition count_true (flags : list bool) : nat :=
  count_occ bool_dec flags true.

(** A filesystem without symbolic links: the real path of a directory is
    the list of its components. *)
Fixpoint split_path (s : string) (component : string) : list string :=
  match s with
  | EmptyString =>
      if bool_decide (component = EmptyString) then [] else [component]
  | String c rest =>
      if Ascii.eqb c (Ascii.ascii_of_nat 47)
      then (if bool_decide (component = EmptyString) then [] else [component])
           ++ split_path rest EmptyString
      else split_path rest (component +:+ String c EmptyString)
  end.

(** A host whose [/var/lib/qubes] lies on the thin pool [qubes_dom0/vm-pool]. *)
Definition example_host : OsEnv := {|
  os_path_realpath s := split_path s EmptyString;
  dm_thin_pool real :=
    if bool_decide (["var"; "lib"; "qubes"] `prefix_of` real)
    then Some ("qubes_dom0", "vm-pool")
    else None;
|}.

Definition pool_data1 : Pool.t :=
  Pool.mk "pool1" 1 (Some "/data/pool1") None None.

(** An application VM with a snapshot [root] and a persistent [private]. *)
Definition work_root : Volume.t :=
  Volume.mk "root" pool_lvm "vm-work-root" 0 false false 10737418240 true
    (Some template_root).

Definition work_private : Volume.t :=
  Volume.mk "private" pool_lvm "vm-work-private" 0 true true 2147483648 false
    None.

Definition work_config (name : string) (v : Volume.t) : gmap string object :=
  <["pool" := OStr "vm-pool"]> (<["name" := OStr name]> (Volume_config v)).

Definition work_vm : VM.t :=
  VM.mk "work" "/var/lib/qubes/appvms/work"
    [("root", work_config "root" work_root);
     ("private", work_config "private" work_private)]
    [("root", work_root); ("private", work_private)].

Definition work_world : World :=
  mkWorld work_vm
    {["/var/lib/qubes/appvms/work" := []]}
    {[volume_key work_root; volume_key work_private]}
    [].

(** A driver with plain methods whose [remove] of a [root] volume fails
    because the volume is in use. *)
Definition busy_root_driver : VolumeDriver := {|
  create_outcome _ := None;
  import_volume_outcome _ _ := None;
  remove_is_coroutine _ := false;
  remove_outcome v :=
    if String.eqb (Volume.name v) "root"
    then Some (StoragePoolException "volume is in use")
    else None;
  import_data_result v _ := Ok ("/dev/" +:+ Volume.vid v);
|}.

(** The base class [Volume]: [remove] is a coroutine function that raises
    [NotImplementedError]. *)
Definition Volume_not_implemented (method_name : string) : exn :=
  NotImplementedError
    ("Volume Volume has " +:+ method_name +:+ "() not implemented").

Definition BaseVolume : VolumeDriver := {|
  create_outcome _ := Some (Volume_not_implemented "create");
  import_volume_outcome _ _ := Some (Volume_not_implemented "import_volume");
  remove_is_coroutine _ := true;
  remove_outcome _ := Some (Volume_not_implemented "remove");
  import_data_result _ _ := Raise (Volume_not_implemented "import_data");
|}.

(** A driver with plain methods whose [remove] hits an I/O error on
    [root]. *)
Definition io_error_driver : VolumeDriver := {|
  create_outcome _ := None;
  import_volume_outcome _ _ := None;
  remove_is_coroutine _ := false;
  remove_outcome v :=
    if String.eqb (Volume.name v) "root"
    then Some (OSError "Input/output error")
    else None;
  import_data_result v _ := Ok ("/dev/" +:+ Volume.vid v);
|}.

(** The same driver with [remove] written as a coroutine function. *)
Definition io_error_async_driver : VolumeDriver := {|
  create_outcome _ := None;
  import_volume_outcome _ _ := None;
  remove_is_coroutine _ := true;
  remove_outcome v :=
    if String.eqb (Volume.name v) "root"
    then Some (OSError "Input/output error")
    else None;
  import_data_result v _ := Ok ("/dev/" +:+ Volume.vid v);
|}.

(** Cloning [work] into a new VM [work-clone]. *)
Definition clone_root : Volume.t :=
  Volume.mk "root" pool_lvm "vm-work-clone-root" 0 false false 10737418240
    true (Some template_root).

Definition clone_private : Volume.t :=
  Volume.mk "private" pool_lvm "vm-work-clone-private" 0 true true 2147483648
    false None.

Definition clone_vm : VM.t :=
  VM.mk "work-clone" "/var/lib/qubes/appvms/work-clone"
    [("root", work_config "root" clone_root);
     ("private", work_config "private" clone_private)]
    [].

Definition lvm_driver : PoolDriver := {|
  get_volume _ _ := Pool_not_implemented "get_volume";
  list_volumes _ := Ok [template_root; work_root; work_private];
  init_volume pool vm config :=
    match config !! "name" with
    | Some (OStr name) =>
        if String.eqb name "root" then Ok clone_root
        else if String.eqb name "private" then Ok clone_private
        else Raise (StoragePoolException "unknown volume")
    | _ => Raise (KeyError (OStr "name"))
    end;
|}.

Definition example_app : App := {|
  get_pool ref :=
    if py_eq (OPool pool_lvm) ref then Ok pool_lvm else Raise (KeyError ref);
|}.

(** Drivers whose [import_volume] fails on [private]; [remove] is a plain
    method in the first and a coroutine function, as the base class
    declares it, in the second. *)
Definition failing_import_driver : VolumeDriver := {|
  create_outcome _ := None;
  import_volume_outcome dst _ :=
    if String.eqb (Volume.name dst) "private"
    then Some (StoragePoolException "import failed")
    else None;
  remove_is_coroutine _ := false;
  remove_outcome _ := None;
  import_data_result v _ := Ok ("/dev/" +:+ Volume.vid v);
|}.

Definition failing_import_async_driver : VolumeDriver := {|
  create_outcome _ := None;
  import_volume_outcome dst _ :=
    if String.eqb (Volume.name dst) "private"
    then Some (StoragePoolException "import failed")
    else None;
  remove_is_coroutine _ := true;
  remove_outcome _ := None;
  import_data_result v _ := Ok ("/dev/" +:+ Volume.vid v);
|}.

(** The world before the clone, by the entries of the new VM's directory. *)
Definition clone_world (entries : list string) : World :=
  mkWorld clone_vm
    {["/var/lib/qubes/appvms/work-clone" := entries]}
    {[volume_key template_root; volume_key work_root; volume_key work_private]}
    [].

(** A pool whose [get_volume] looks the vid up in the pool's table and
    answers [None] for a vid that is not in it. *)
Definition table_driver : PoolDriver := {|
  get_volume _ item :=
    Ok (find (λ vol, py_eq (OStr (Volume.vid vol)) item)
          [template_root; work_root; work_private]);
  list_volumes _ := Ok [template_root; work_root; work_private];
  init_volume _ _ _ := Pool_not_implemented "init_volume";
|}.

(** A driver with plain methods that all succeed. *)
Definition healthy_driver : VolumeDriver := {|
  create_outcome _ := None;
  import_volume_outcome _ _ := None;
  remove_is_coroutine _ := false;
  remove_outcome _ := None;
  import_data_result v _ := Ok ("/dev/" +:+ Volume.vid v);
|}.

(** The destination and the source of the clone of [work], by name. *)
Definition clone_dst (name : string) : Volume.t :=
  if String.eqb name "root" then clone_root else clone_private.

Definition clone_src (name : string) : Volume.t :=
  if String.eqb name "root" then work_root else work_private.

(** The template's root volume as another pool object of the same name
    would hold it. *)
Definition pool_lvm_resized : Pool.t :=
  Pool.mk "vm-pool" 3 None (Some "qubes_dom1") (Some "vm-pool").

Definition template_root_moved : Volume.t :=
  Volume.mk "root" pool_lvm_resized "vm-templates/fedora/root" 0 false true
    10737418240 false None.

(** The description of a running domain, given its disks; its root disk
    and an empty CD-ROM drive. *)
Definition work_root_disk : element :=
  Element "disk" [("type", "block"); ("device", "disk")]
    [Element "driver" [("name", "phy")] [];
     Element "source" [("dev", "/dev/vm-work-root")] [];
     Element "target" [("dev", "xvda")] []].

Definition empty_cdrom : element :=
  Element "disk" [("type", "file"); ("device", "cdrom")]
    [Element "target" [("dev", "xvdc")] []; Element "readonly" [] []].

Definition work_XMLDesc (disks : list element) : element :=
  Element "domain" [("type", "xen")]
    [Element "name" [] []; Element "devices" [] disks].

(** The same domain once libvirt lists the disk of the [private] volume,
    after the empty drive. *)
Definition work_XMLDesc_attached : element :=
  work_XMLDesc [work_root_disk; empty_cdrom;
                attach_disk work_private None true "xvdb"].

(** The template of [work]: its [root] has no source of its own. *)
Definition fedora_vm : VM.t :=
  VM.mk "fedora" "/var/lib/qubes/vm-templates/fedora" []
    [("root", template_root)].

(** The configuration of the [root] volume of a disposable VM based on
    [work], before its source is known. *)
Definition disp_root_config : gmap string object :=
  <["snap_on_start" := OBool true]> (<["source" := ONone]> ∅).

(** A template that has no volume yet. *)
Definition bare_vm : VM.t :=
  VM.mk "bare" "/var/lib/qubes/vm-templates/bare" [] [].

(** A host, run as root, whose [/var/lib/qubes] lies on a thin volume of
    the pool [qubes_dom0/vm-pool]: device 253:4, a thin volume of the pool
    device 253:3. *)
Definition lvm_host : Host := {|
  os_stat_st_dev real :=
    if bool_decide (["var"; "lib"; "qubes"] `prefix_of` real)
    then Ok 64772%Z else Raise (OSError "No such file or directory");
  os_getuid := 0;
  check_output argv :=
    if bool_decide (argv = ["dmsetup"; "-j"; "253"; "-m"; "4"; "table"])
    then Ok ("0 41943040 thin 253:3 1" +:+ LF)
    else Raise (OSError "dmsetup");
  read_file path :=
    if bool_decide (path = "/sys/dev/block/253:3/dm/name")
    then Ok ("qubes_dom0-vm--pool-tpool" +:+ LF)
    else Raise (OSError "No such file or directory");
|}.

(** The VM [work] running, with a driver that resizes anything and a
    resize service that fails on a read-only filesystem. *)
Definition work_resize_env : ResizeEnv := {|
  resize_volumes := VM.volumes work_vm;
  resize_outcome _ _ := None;
  resize_is_running := true;
  run_service_for_stdio _ _ _ :=
    CalledProcessError "resize2fs: 100% read-only";
|}.

(** The attributes the base class [Volume] has. *)
Definition BaseAttributes : VolumeAttributes := {|
  Volume_devtype _ := "disk";
  Volume_domain _ := None;
  Volume_path _ := None;
  Volume_script _ := None;
  Volume_is_outdated _ := Raise (Volume_not_implemented "is_outdated");
|}.

(** A driver of block devices under [/dev]: a snapshot is outdated when its
    source has been written since. *)
Definition lvm_attributes : VolumeAttributes := {|
  Volume_devtype _ := "disk";
  Volume_domain _ := None;
  Volume_path v := Some ("/dev/" +:+ Volume.vid v);
  Volume_script _ := None;
  Volume_is_outdated v := Ok (Volume.snap_on_start v);
|}.

(** A flag of a configuration. *)
Definition config_flag (config : gmap string object) (key : string) : bool :=
  match config !! key with
  | Some (OBool b) => b
  | _ => false
  end.

(** A driver that builds the volume its configuration describes. *)
Definition config_driver : PoolDriver := {|
  get_volume _ _ := Pool_not_implemented "get_volume";
  list_volumes _ := Ok [];
  init_volume pool vm config :=
    match config !! "name" with
    | Some (OStr name) =>
        Volume__init__ name pool (VM.name vm +:+ "-" +:+ name) 1
          (config_flag config "rw")
          (config_flag config "save_on_stop")
          (match config !! "size" with Some (OInt size) => size | _ => 0%Z end)
          (config_flag config "snap_on_start")
          (match config !! "source" with
           | Some (OVolume source) => Some source
           | _ => None
           end)
    | _ => Raise (KeyError (OStr "name"))
    end;
|}.

Definition example_defaults : AppDefaults := {|
  default_pool _ := Ok (OStr "vm-pool");
|}.

(** The configuration of a snapshot [root] whose source is to be found,
    and of a [private] volume with a key of an old configuration. *)
Definition new_root_config : gmap string object :=
  <["snap_on_start" := OBool true]> (<["source" := ONone]> ∅).

Definition new_work_vm : VM.t :=
  VM.mk "work" "/var/lib/qubes/appvms/work"
    [("root", new_root_config);
     ("private", <["internal" := OBool true]>
                   (<["save_on_stop" := OBool true]>
                      (<["pool" := OStr "vm-pool"]> ∅)))]
    [].

(** The VM [work] before its volumes are built: over the template [fedora]
    that has its storage, and over a template that has none yet. *)
Definition new_work_domain : Domain :=
  mkDomain new_work_vm false (Some (mkDomain fedora_vm true None)).

Definition new_fedora_vm : VM.t :=
  VM.mk "fedora" "/var/lib/qubes/vm-templates/fedora"
    [("root", <["size" := OInt 10737418240]>
                (<["save_on_stop" := OBool true]> ∅))]
    [].

Definition new_work_domain_bare : Domain :=
  mkDomain new_work_vm false (Some (mkDomain new_fedora_vm false None)).

(** ** Vocabulary of the statements about [repr] *)

Fixpoint str_all (P : Ascii.ascii → bool) (s : string) : bool :=
  match s with
  | "" => true
  | String c rest => P c && str_all P rest
  end.

(** A printable character other than the apostrophe and the backslash. *)
Definition plain_char (c : Ascii.ascii) : bool :=
  isprintable (Ascii.N_of_ascii c)
  && negb (Ascii.eqb c apostrophe) && negb (Ascii.eqb c backslash).

(** ** Vocabulary of the statements about the locator *)

(** [pool] exposes a directory whose real path is a prefix, component by
    component, of [real]. *)
Definition contains_dir `{OsEnv} (real : list string) (pool : Pool.t) : Prop :=
  ∃ d, Pool.dir_path pool = Some d ∧ os_path_realpath d `prefix_of` real.

(** [pool] has the volume group and thin pool [found]. *)
Definition on_thin_pool (found : option string * option string)
    (pool : Pool.t) : Prop :=
  ∃ vg tp, Pool.volume_group pool = Some vg ∧ Pool.thin_pool pool = Some tp
           ∧ found = (Some vg, Some tp).

(** What [DirectoryThinPool.thin_pool] answers: the cached pair when the
    directory is in the cache, else what the probe finds. *)
Definition resolved_thin_pool `{OsEnv}
    (cache : gmap (list string) (option string * option string))
    (real : list string) : option string * option string :=
  match cache !! real with
  | Some r => r
  | None =>
      match dm_thin_pool real with
      | Some (volume_group, thin_pool) => (Some volume_group, Some thin_pool)
      | None => (None, None)
      end
  end.

(** [result] is the first element of [l] that satisfies [P], or [None]
    when there is none. *)
Definition first_match {A} (P : A → Prop) (l : list A) (result : option A)
    : Prop :=
  match result with
  | Some x => ∃ l1 l2, l = l1 ++ x :: l2 ∧ P x ∧ ∀ y, y ∈ l1 → ¬ P y
  | None => ∀ y, y ∈ l → ¬ P y
  end.

(** ** Vocabulary of the statements about worlds *)

(** [w'] is a later state of [w]: same VM and filesystem, a longer trace,
    and no new volume in backing storage. *)
Definition later (w w' : World) : Prop :=
  vm w' = vm w ∧ fs w' = fs w
  ∧ trace w `prefix_of` trace w' ∧ backing w' ⊆ backing w.

(** The failures of [remove] are I/O errors. *)
Definition remove_fails_with_OSError `{VolumeDriver} (v : Volume.t) : Prop :=
  ∀ e, remove_outcome v = Some e → is_OSError e = true.

(** ** Vocabulary of the statements about cloning *)

(** Every step of [clone_volume] for [name] succeeds in the VM [self_vm],
    whatever volumes it has registered: the configuration names a pool,
    the pool builds [dst], the source VM has the volume [src] under the
    same name, and [dst] can be created and can import [src]. *)
Definition clone_volume_succeeds `{PoolDriver} `{VolumeDriver} `{App}
    (src_vm self_vm : VM.t) (name : string) (dst src : Volume.t) : Prop :=
  ∃ config pool_ref dst_pool,
    dict_get (VM.volume_config self_vm) name = Some config
    ∧ config !! "pool" = Some pool_ref
    ∧ get_pool pool_ref = Ok dst_pool
    ∧ (∀ volumes,
         init_volume dst_pool
           (VM.mk (VM.name self_vm) (VM.dir_path self_vm)
              (VM.volume_config self_vm) volumes) config = Ok dst)
    ∧ dict_get (VM.volumes src_vm) name = Some src
    ∧ create_outcome dst = None
    ∧ import_volume_outcome dst src = None.

(** The events of one successful [clone_volume]. *)
Definition clone_volume_events (src_vm : VM.t) (dst src : Volume.t)
    : list event :=
  [EvLogInfo ("Importing volume " +:+ Volume.name src
              +:+ " from vm " +:+ VM.name src_vm);
   EvCreate dst;
   EvImportVolume dst src].

(** The results collected by the loop are coroutines of removals of
    volumes of [vols]. *)
Definition removals_of `{VolumeDriver} (vols : list Volume.t) (tasks : list (M unit)) : Prop :=
  Forall (λ task, ∃ v, v ∈ vols ∧ task = remove_body v) tasks.

(** What a clone whose every step succeeded has made of the world [w]: the
    VM has, under each configured name, the volume built for it, and nothing
    under any other name; the new volumes are in backing storage beside what
    was there; and the calls made are those of the configured volumes, each
    volume's own in their order, and no other.  Nothing is said of the order
    between the calls of two volumes. *)
Definition cloned (src_vm : VM.t) (dst_of src_of : string → Volume.t)
    (w w' : World) : Prop :=
  let names := dict_keys (VM.volume_config (vm w)) in
  VM.name (vm w') = VM.name (vm w)
  ∧ VM.dir_path (vm w') = VM.dir_path (vm w)
  ∧ VM.volume_config (vm w') = VM.volume_config (vm w)
  ∧ (∀ name,
       dict_get (VM.volumes (vm w')) name
       = if bool_decide (name ∈ names) then Some (dst_of name) else None)
  ∧ backing w' = list_to_set (volume_key ∘ dst_of <$> names) ∪ backing w
  ∧ ∃ new,
      trace w' = trace w ++ new
      ∧ new ≡ₚ names ≫= (λ n, clone_volume_events src_vm (dst_of n) (src_of n))
      ∧ ∀ n, n ∈ names →
             clone_volume_events src_vm (dst_of n) (src_of n) `sublist_of` new.

(** ** Vocabulary of the statements about removals *)

(** [w'] comes from [w] by calls on the volumes [vols]: the VM is the same,
    a volume in backing storage that is none of [vols] is still there, and
    every call made since satisfies [P]. *)
Definition touches_only (vols : list Volume.t) (P : event → Prop)
    (w w' : World) : Prop :=
  vm w' = vm w
  ∧ (∀ key, key ∈ backing w → (∀ v, v ∈ vols → volume_key v ≠ key) →
            key ∈ backing w')
  ∧ ∃ new, trace w' = trace w ++ new ∧ Forall P new.

(** The calls of the rollback of a VM with the volumes [vols] and the
    directory [dir_path]. *)
Definition rollback_call `{VolumeDriver} (vols : list Volume.t)
    (dir_path : string) (ev : event) : Prop :=
  match ev with
  | EvRemove v => v ∈ vols ∧ remove_is_coroutine v = false
  | EvRmdir path => path = dir_path
  | _ => False
  end.

(** The calls of [Storage.remove] on a VM with the volumes [vols]. *)
Definition removal_call (vols : list Volume.t) (ev : event) : Prop :=
  match ev with
  | EvRemove v => v ∈ vols
  | EvLogInfo _ | EvLogException _ _ => True
  | _ => False
  end.

(** ** Vocabulary of the statements about attached disks *)

(** The first [<source>] child of a disk, the one [detach] looks at. *)
Definition first_source (disk : element) : option element :=
  head (xpath_child "source" disk).

(** The source names the device of the volume. *)
Definition source_of (volume : Volume.t) (source : element) : Prop :=
  element_get source "dev" = Some (dev_of volume).

(** The disk has a first source, and it names another device. *)
Definition other_disk (volume : Volume.t) (disk : element) : Prop :=
  ∃ source, first_source disk = Some source ∧ ¬ source_of volume source.

(** [frontend] is the least of the slots that are not in use. *)
Definition least_unused (used : gset string) (frontend : string) : Prop :=
  frontend ∈ Storage_AVAILABLE_FRONTENDS ∧ (frontend ∉ used)
  ∧ ∀ t, t ∈ Storage_AVAILABLE_FRONTENDS → t ∉ used →
         String.leb frontend t = true.

(** ** Vocabulary of the statements about the chain of templates *)

(** What one round of the loop writes into the configuration. *)
Definition with_source (source : Volume.t) (volume_config : gmap string object)
    : gmap string object :=
  <["size" := OInt (Volume_size source)]>
    (<["pool" := OPool (Volume.pool source)]>
       (<["source" := OVolume source]> volume_config)).

(** The template's volume of that name is itself a snapshot: the loop goes
    on to the template's template. *)
Definition passes_on (name : string) (template : VM.t) : Prop :=
  ∃ volume source,
    dict_get (VM.volumes template) name = Some volume
    ∧ Volume.source volume = Some source.

(** The configuration after the loop has gone through [templates]. *)
Definition through (name : string) (templates : list VM.t)
    (volume_config : gmap string object) : gmap string object :=
  foldl (λ cfg template,
           match dict_get (VM.volumes template) name with
           | Some source => with_source source cfg
           | None => cfg
           end) volume_config templates.

(** ** Vocabulary of the statements about the probe *)

(** The name device-mapper gives the device of the thin pool [tp] of the
    volume group [vg]: LVM doubles the hyphens of both names and joins them
    with a hyphen. *)
Definition dm_tpool_name (vg tp : string) : string :=
  str_replace "-" "--" vg +:+ "-" +:+ str_replace "-" "--" tp +:+ "-tpool".

(** A line of [dmsetup table]: start, length, target type, arguments. *)
Definition dm_table_line (start sectors target_type target_args : string)
    : string :=
  start +:+ " " +:+ sectors +:+ " " +:+ target_type +:+ " " +:+ target_args.

(** ** Vocabulary of the statements about resizing *)

(** The volume the argument stands for. *)
Definition resize_target (env : ResizeEnv) (volume : volume_arg)
    : option Volume.t :=
  match volume with
  | by_name name => dict_get (resize_volumes env) name
  | by_volume volume => Some volume
  end.

(** The bytes [resize] keeps of the service's [stderr]: ASCII, and not a
    percent sign. *)
Definition kept_byte (c : Ascii.ascii) : bool :=
  (Ascii.N_of_ascii c <? 128)%N && negb (Ascii.eqb c (Ascii.ascii_of_nat 37)).

Fixpoint str_filter (keep : Ascii.ascii → bool) (s : string) : string :=
  match s with
  | EmptyString => EmptyString
  | String c rest =>
      if keep c then String c (str_filter keep rest) else str_filter keep rest
  end.

(** ** Vocabulary of the statements about outdated volumes *)

(** The volume answers that it is outdated. *)
Definition says_outdated `{VolumeAttributes} (v : Volume.t) : bool :=
  match Volume_is_outdated v with
  | Ok true => true
  | _ => false
  end.

(** ** Vocabulary of the statements about building volumes *)

(** The volume [name] of the VM has been built: it is registered, and the
    VM's own configuration of it names the volume and a pool and has no
    [internal] key. *)
Definition initialised (d : Domain) (name : string) : Prop :=
  is_Some (dict_get (VM.volumes (dom_vm d)) name)
  ∧ ∃ cfg,
      dict_get (VM.volume_config (dom_vm d)) name = Some cfg
      ∧ is_Some (cfg !! "name")
      ∧ is_Some (cfg !! "pool")
      ∧ cfg !! "internal" = None.

(** [vm.volumes[name] = volume] *)
Definition register (d : Domain) (name : string) (volume : Volume.t) : Domain :=
  mkDomain
    (VM.mk (VM.name (dom_vm d)) (VM.dir_path (dom_vm d))
       (VM.volume_config (dom_vm d))
       (dict_setitem (VM.volumes (dom_vm d)) name volume))
    (dom_storage d) (dom_template d).

(** ** Vocabulary of the statements about the log *)

(** The conversions of a [%]-format whose conversions are plain ([%s],
    [%d], ...): every percent sign opens one, and two percent signs in a
    row are a percent sign. *)
Fixpoint conversions (fmt : string) : nat :=
  match fmt with
  | "" => 0
  | String c rest =>
      if Ascii.eqb c (Ascii.ascii_of_nat 37)
      then match rest with
           | "" => 1
           | String d rest' =>
               if Ascii.eqb d (Ascii.ascii_of_nat 37) then conversions rest'
               else S (conversions rest')
           end
      else conversions rest
  end.

(** A call of [log.exception] with more arguments than its message has
    conversions: [msg % args] raises [TypeError], which the logging library
    reports on [stderr] in place of the record. *)
Definition surplus_arguments (ev : event) : bool :=
  match ev with
  | EvLogException msg args => conversions msg <? length args
  | _ => false
  end.

(** * Properties *)

(** ** Equality and hashing *)

Lemma Pool_eq_name (a b : Pool.t) :
  Pool_eq a b = true ↔ Pool.name a = Pool.name b.
Proof. unfold Pool_eq; simpl. apply String.eqb_eq. Qed.

Lemma Pool_eq_sym (a b : Pool.t) : Pool_eq a b = Pool_eq b a.
Proof. unfold Pool_eq; simpl. apply String.eqb_sym. Qed.

Lemma Volume_eq_unfold (v w : Volume.t) :
  py_eq (OVolume v) (OVolume w)
  = Pool_eq (Volume.pool w) (Volume.pool v)
    && String.eqb (Volume.vid w) (Volume.vid v).
Proof. reflexivity. Qed.

Section Hashing.
Variable hash : string → Z.

(** C7. Two volumes compare equal exactly when their pools compare equal
    (pools compare by name) and their vids are the same string, whatever
    the other attributes hold; and volumes that compare equal have the
    same hash. *)
Theorem Volume_eq_iff_pool_vid (v w : Volume.t) :
  (py_eq (OVolume v) (OVolume w) = true
   ↔ py_eq (OPool (Volume.pool v)) (OPool (Volume.pool w)) = true
     ∧ Volume.vid v = Volume.vid w)
  ∧ (py_eq (OVolume v) (OVolume w) = true
     → Volume__hash__ hash v = Volume__hash__ hash w)
  ∧ (∀ name name' keep keep' rw rw' save save' size size' snap snap' src src',
       py_eq
         (OVolume (Volume.mk name (Volume.pool v) (Volume.vid v) keep rw save
                     size snap src))
         (OVolume (Volume.mk name' (Volume.pool v) (Volume.vid v) keep' rw'
                     save' size' snap' src'))
       = true).
Proof.
  rewrite Volume_eq_unfold, andb_true_iff, String.eqb_eq.
  change (py_eq (OPool (Volume.pool v)) (OPool (Volume.pool w)))
    with (Pool_eq (Volume.pool v) (Volume.pool w)).
  rewrite (Pool_eq_sym (Volume.pool w)).
  split_and!; [intuition congruence | |].
  - intros [Hp Hv]. apply Pool_eq_name in Hp.
    unfold Volume__hash__, Pool__str__. by rewrite Hp, Hv.
  - intros. rewrite Volume_eq_unfold. simpl.
    rewrite String.eqb_refl, andb_true_r. by apply Pool_eq_name.
Qed.

(** C9. A pool compares equal to a string exactly when the string is its
    name, from either side of [==]; the hash of a pool is the hash of its
    name, so pools that compare equal, and a pool and a string that
    compare equal, hash alike. *)
Theorem Pool_eq_str_hash (p : Pool.t) (s : string) :
  (py_eq (OPool p) (OStr s) = true ↔ Pool.name p = s)
  ∧ (py_eq (OStr s) (OPool p) = true ↔ Pool.name p = s)
  ∧ Pool__hash__ hash p = hash (Pool.name p)
  ∧ (∀ q, py_eq (OPool p) (OPool q) = true
          → py_hash hash (OPool p) = py_hash hash (OPool q))
  ∧ (py_eq (OPool p) (OStr s) = true
     → py_hash hash (OPool p) = py_hash hash (OStr s)).
Proof.
  assert (Hs : py_eq (OPool p) (OStr s) = true ↔ Pool.name p = s)
    by (unfold py_eq; simpl; apply String.eqb_eq).
  split_and!; try done.
  - intros q Hq. apply (Pool_eq_name p q) in Hq.
    simpl. unfold Pool__hash__. by rewrite Hq.
  - intros Hp. apply Hs in Hp. simpl. unfold Pool__hash__. by rewrite Hp.
Qed.
End Hashing.

(** ** The text of [repr] *)

Lemma repr_chars_plain (s : string) :
  str_all plain_char s = true → repr_chars apostrophe s = s.
Proof.
  induction s as [|c s IH]; [done|]. simpl.
  intros [[[Hp Hq]%andb_true_iff Hb]%andb_true_iff Hs]%andb_true_iff.
  rewrite (IH Hs). unfold repr_char.
  apply negb_true_iff in Hq, Hb. rewrite Hq, Hb. simpl.
  destruct (N.eqb_spec (Ascii.N_of_ascii c) 9) as [E|_];
    [by rewrite E in Hp|].
  destruct (N.eqb_spec (Ascii.N_of_ascii c) 10) as [E|_];
    [by rewrite E in Hp|].
  destruct (N.eqb_spec (Ascii.N_of_ascii c) 13) as [E|_];
    [by rewrite E in Hp|].
  by rewrite Hp.
Qed.

Lemma str_has_plain (s : string) :
  str_all plain_char s = true → str_has apostrophe s = false.
Proof.
  induction s as [|c s IH]; [done|]. cbn [str_has str_all].
  unfold plain_char at 1.
  intros [[[_ Hq]%andb_true_iff _]%andb_true_iff Hs]%andb_true_iff.
  rewrite (IH Hs), orb_false_r. apply negb_true_iff in Hq.
  by rewrite Ascii.eqb_sym.
Qed.

(** A string of printable characters that holds no apostrophe and no
    backslash is written as it is, between apostrophes. *)
Lemma repr_str_plain (s : string) :
  str_all plain_char s = true →
  repr_str s = String apostrophe (s +:+ String apostrophe "").
Proof.
  intros Hs. unfold repr_str.
  rewrite (str_has_plain s Hs). cbn [andb].
  by rewrite (repr_chars_plain s Hs).
Qed.

(** A string with an apostrophe is written between double quotes; with
    both quotes, between apostrophes with its apostrophe escaped; a line
    feed is written as an escape. *)
Example repr_str_quoted :
  repr_str "vm-pool:vm-work-root" = "'vm-pool:vm-work-root'"
  ∧ repr_str "it's"
    = String double_quote ("it's" +:+ String double_quote "")
  ∧ repr_str (String apostrophe (String double_quote ""))
    = String apostrophe
        (String backslash
           (String apostrophe (String double_quote (String apostrophe ""))))
  ∧ repr_str LF = String apostrophe (String backslash "n'").
Proof. split_and!; reflexivity. Qed.

(** ** Volume construction *)

Lemma Volume_init_Ok name pool vid rtk rw sos size snap source v :
  Volume__init__ name pool vid rtk rw sos size snap source = Ok v →
  v = Volume.mk name pool vid rtk rw sos size snap source
  ∧ (snap = true ↔ source ≠ None)
  ∧ (∀ s, source = Some s → Pool_eq (Volume.pool s) pool = true).
Proof.
  unfold Volume__init__. intros Hv.
  destruct source as [s|], snap; simpl in Hv;
    try destruct (Pool_eq (Volume.pool s) pool) eqn:Hp; simpl in Hv;
    try discriminate; injection Hv as <-;
    (split; [done|]); (split; [|naive_solver]); split; congruence.
Qed.

(** C3, as the constructor has it.  With [snap_on_start] set and no source
    the constructor raises [StoragePoolException]; without [snap_on_start]
    and with a source of the volume's own pool it raises
    [StoragePoolException]; a source of another pool fails the assertion
    that precedes both tests.  A volume that was constructed is in exactly
    one of the four modes, has a source exactly when [snap_on_start] is set,
    and its source is of its own pool. *)
Theorem Volume_init_checks name pool vid rtk rw sos size :
  Volume__init__ name pool vid rtk rw sos size true None
  = Raise (StoragePoolException
             ("snap_on_start specified on " +:+ repr_str name
              +:+ " but no volume source set"))
  ∧ (∀ s, py_eq (OPool (Volume.pool s)) (OPool pool) = true →
          Volume__init__ name pool vid rtk rw sos size false (Some s)
          = Raise (StoragePoolException
                     ("source specified on " +:+ repr_str name
                      +:+ " but no snap_on_start set")))
  ∧ (∀ snap s, py_eq (OPool (Volume.pool s)) (OPool pool) = false →
          Volume__init__ name pool vid rtk rw sos size snap (Some s)
          = Raise AssertionError)
  ∧ (∀ snap source v,
        Volume__init__ name pool vid rtk rw sos size snap source = Ok v →
        count_true [volatile v; snapshot v; origin v; origin_snapshot v] = 1
        ∧ (Volume.snap_on_start v = true ↔ Volume.source v ≠ None)
        ∧ (∀ s, Volume.source v = Some s →
                py_eq (OPool (Volume.pool s)) (OPool (Volume.pool v)) = true)).
Proof.
  split_and!.
  - reflexivity.
  - intros s Hs. unfold Volume__init__.
    change (Pool_eq (Volume.pool s) pool = true) in Hs. by rewrite Hs.
  - intros snap s Hs. unfold Volume__init__.
    change (Pool_eq (Volume.pool s) pool = false) in Hs. by rewrite Hs.
  - intros snap source v Hv.
    apply Volume_init_Ok in Hv as (-> & Hsnap & Hsrc). simpl.
    split_and!; [by destruct snap, sos | done | exact Hsrc].
Qed.

(** C3, witness: one input for each case of [Volume_init_checks]. *)
Lemma Volume_init_checks_witness :
  (∃ msg, Volume__init__ "root" pool_lvm "vm/work/root" 0 false false 0 true None
          = Raise (StoragePoolException msg))
  ∧ (∃ msg, Volume__init__ "root" pool_lvm "vm/work/root" 0 false false 0 false
              (Some template_root)
            = Raise (StoragePoolException msg))
  ∧ Volume__init__ "root" pool_varlibqubes "appvms/work/root" 0 false false 0
      true (Some template_root)
    = Raise AssertionError
  ∧ count_true
      [volatile (Volume.mk "root" pool_lvm "vm/work/root" 0 false false 0 true
                   (Some template_root));
       snapshot (Volume.mk "root" pool_lvm "vm/work/root" 0 false false 0 true
                   (Some template_root));
       origin (Volume.mk "root" pool_lvm "vm/work/root" 0 false false 0 true
                 (Some template_root));
       origin_snapshot (Volume.mk "root" pool_lvm "vm/work/root" 0 false false
                          0 true (Some template_root))] = 1.
Proof.
  pose proof (Volume_init_checks "root" pool_lvm "vm/work/root" 0 false false 0)
    as (H1 & H2 & _ & H4).
  pose proof (Volume_init_checks "root" pool_varlibqubes "appvms/work/root" 0
                false false 0) as (_ & _ & H3 & _).
  split_and!.
  - eexists. exact H1.
  - eexists. apply H2. reflexivity.
  - apply H3. reflexivity.
  - apply (H4 true (Some template_root)). reflexivity.
Defined.

(** C3, counterexample: without [snap_on_start], a source that belongs to
    another pool makes the constructor fail its assertion, and no
    [StoragePoolException] is raised. *)
Lemma Volume_init_foreign_source :
  Volume__init__ "root" pool_varlibqubes "appvms/work/root" 0 false false 0
    false (Some template_root)
  = Raise AssertionError
  ∧ (∀ msg, Volume__init__ "root" pool_varlibqubes "appvms/work/root" 0 false
              false 0 false (Some template_root)
            ≠ Raise (StoragePoolException msg)).
Proof. split; [reflexivity | intros msg; discriminate]. Qed.

(** ** Serialization of configuration dictionaries *)

(** What [_sanitize_config] writes under a key, by the value the
    configuration holds there. *)
Lemma sanitize_config_lookup (config : gmap string object) (key : string) :
  _sanitize_config config !! key
  = match config !! key with
    | Some (OBool b) => if b then Some "True" else None
    | Some value => Some (py_str value)
    | None => None
    end.
Proof.
  unfold _sanitize_config.
  apply (map_fold_weak_ind
    (λ (res : gmap string string) (m : gmap string object),
       res !! key = match m !! key with
                    | Some (OBool b) => if b then Some "True" else None
                    | Some value => Some (py_str value)
                    | None => None
                    end)).
  - by rewrite !lookup_empty.
  - intros k x m r Hk IH. destruct (decide (k = key)) as [->|Hne].
    + rewrite lookup_insert_eq. rewrite Hk in IH.
      destruct x as [|[]| | | |]; simpl;
        by rewrite ?lookup_insert_eq.
    + rewrite lookup_insert_ne by done. rewrite <- IH.
      destruct x as [|[]| | | |]; simpl;
        by rewrite ?lookup_insert_ne.
Qed.

Lemma Volume_config_save_on_stop (v : Volume.t) :
  Volume_config v !! "save_on_stop" = Some (OBool (Volume.save_on_stop v)).
Proof.
  unfold Volume_config.
  destruct (Volume.source v); case_bool_decide;
    rewrite ?(lookup_insert_ne _ "source"), ?(lookup_insert_ne _ "size") by done;
    reflexivity.
Qed.

Lemma Volume_config_snap_on_start (v : Volume.t) :
  Volume_config v !! "snap_on_start" = Some (OBool (Volume.snap_on_start v)).
Proof.
  unfold Volume_config.
  destruct (Volume.source v); case_bool_decide;
    rewrite ?(lookup_insert_ne _ "source"), ?(lookup_insert_ne _ "size") by done;
    reflexivity.
Qed.

(** C6. The serialized form of a volume, [_sanitize_config] of its
    [config], has no [save_on_stop] key when [save_on_stop] is false and
    holds the string ["True"] under [snap_on_start] when [snap_on_start] is
    true; and for every configuration dictionary a key that holds a boolean
    is written as ["True"] when the boolean is true and is left out when it
    is false. *)
Theorem sanitize_config_booleans :
  (∀ v : Volume.t,
     Volume__xml__ v !! "save_on_stop"
     = if Volume.save_on_stop v then Some "True" else None)
  ∧ (∀ v : Volume.t,
       Volume__xml__ v !! "snap_on_start"
       = if Volume.snap_on_start v then Some "True" else None)
  ∧ (∀ (config : gmap string object) (key : string) (b : bool),
       config !! key = Some (OBool b) →
       _sanitize_config config !! key = if b then Some "True" else None).
Proof.
  unfold Volume__xml__. split_and!.
  - intros v. by rewrite sanitize_config_lookup, Volume_config_save_on_stop.
  - intros v. by rewrite sanitize_config_lookup, Volume_config_snap_on_start.
  - intros config key b Hb. by rewrite sanitize_config_lookup, Hb.
Qed.

(** ** Importing data *)

Section ImportData.
Context `{VolumeDriver}.

(** C10. [Storage.import_data] with size [None] calls the volume's
    [import_data] with the volume's current size and returns what it
    returns; a size that is given is passed on as it is; a volume given by
    name is the one registered under that name, and a name that is not
    registered raises [KeyError]. *)
Theorem Storage_import_data_size (v : Volume.t) (w : World) :
  Storage_import_data (OVolume v) None w
  = (add_event (EvImportData v (Volume_size v)) w,
     import_data_result v (Volume_size v))
  ∧ (∀ n : Z,
       Storage_import_data (OVolume v) (Some n) w
       = (add_event (EvImportData v n) w, import_data_result v n))
  ∧ (∀ name size,
       dict_get (VM.volumes (vm w)) name = Some v →
       Storage_import_data (OStr name) size w
       = Storage_import_data (OVolume v) size w)
  ∧ (∀ name size,
       dict_get (VM.volumes (vm w)) name = None →
       Storage_import_data (OStr name) size w
       = (w, Raise (KeyError (OStr name)))).
Proof.
  split_and!.
  - reflexivity.
  - reflexivity.
  - intros name size Hv.
    unfold Storage_import_data, bind, get_world, lift, dict_getitem, ret.
    by rewrite Hv.
  - intros name size Hv.
    unfold Storage_import_data, bind, get_world, lift, dict_getitem.
    by rewrite Hv.
Qed.
End ImportData.

(** ** Lookup in a pool's volumes *)

Section Lookup.
Context `{PoolDriver}.

Lemma getitem_vid_fallback (self : VolumesCollection) (vid msg : string)
    (vols : list Volume.t) :
  get_volume (_pool self) (OStr vid) = Raise (NotImplementedError msg) →
  list_volumes (_pool self) = Ok vols →
  VolumesCollection_getitem_vid self (OStr vid)
  = match find (λ vol, String.eqb (Volume.vid vol) vid) vols with
    | Some vol => Ok (Some vol)
    | None => Raise (KeyError (OStr vid))
    end.
Proof.
  intros Hget Hlist.
  unfold VolumesCollection_getitem_vid, VolumesCollection__iter__.
  rewrite Hget, Hlist. reflexivity.
Qed.

Lemma getitem_not_None (self : VolumesCollection) (item : object) :
  (∀ item, get_volume (_pool self) item ≠ Ok None) →
  VolumesCollection__getitem__ self item ≠ Ok None.
Proof.
  intros Hcontract.
  assert (Hvid : ∀ key, VolumesCollection_getitem_vid self key ≠ Ok None).
  { intros key. unfold VolumesCollection_getitem_vid.
    destruct (get_volume (_pool self) key) as [r|e] eqn:Hget.
    - rewrite <- Hget. apply Hcontract.
    - destruct (is_NotImplementedError e); [|done].
      destruct (VolumesCollection__iter__ self) as [vols|]; [|done].
      by destruct (find _ vols). }
  destruct item as [| | | |p|v]; simpl; try apply Hvid.
  destruct (Pool_eq _ _); [apply Hvid | done].
Qed.

(** C4, as the code has it.  A [Volume] key of another pool raises
    [KeyError]; a [Volume] key of the wrapped pool is looked up by its vid.
    A vid key is first handed to [pool.get_volume], whose answer or
    exception is the result, except [NotImplementedError]: then
    [list_volumes()] is scanned and the first volume with that vid is
    returned, [KeyError] being raised when there is none.  Containment is
    true exactly when the lookup returns a volume; it is false when the
    lookup raises [KeyError] and when the lookup returns [None], as it does
    when [get_volume] answers [None].  For a driver whose [get_volume] never
    answers [None], containment is true exactly when the lookup returns
    without an exception. *)
Theorem VolumesCollection_lookup (self : VolumesCollection) :
  (∀ v : Volume.t,
     py_eq (OPool (Volume.pool v)) (OPool (_pool self)) = false →
     VolumesCollection__getitem__ self (OVolume v) = Raise (KeyError (OVolume v)))
  ∧ (∀ v : Volume.t,
       py_eq (OPool (Volume.pool v)) (OPool (_pool self)) = true →
       VolumesCollection__getitem__ self (OVolume v)
       = VolumesCollection__getitem__ self (OStr (Volume.vid v)))
  ∧ (∀ vid r,
       get_volume (_pool self) (OStr vid) = Ok r →
       VolumesCollection__getitem__ self (OStr vid) = Ok r)
  ∧ (∀ vid e,
       get_volume (_pool self) (OStr vid) = Raise e →
       is_NotImplementedError e = false →
       VolumesCollection__getitem__ self (OStr vid) = Raise e)
  ∧ (∀ vid msg vols,
       get_volume (_pool self) (OStr vid) = Raise (NotImplementedError msg) →
       list_volumes (_pool self) = Ok vols →
       VolumesCollection__getitem__ self (OStr vid)
       = match find (λ vol, String.eqb (Volume.vid vol) vid) vols with
         | Some vol => Ok (Some vol)
         | None => Raise (KeyError (OStr vid))
         end)
  ∧ (∀ item,
       VolumesCollection__contains__ self item = Ok true
       ↔ ∃ v, VolumesCollection__getitem__ self item = Ok (Some v))
  ∧ (∀ item key,
       VolumesCollection__getitem__ self item = Raise (KeyError key) →
       VolumesCollection__contains__ self item = Ok false)
  ∧ (∀ item,
       VolumesCollection__getitem__ self item = Ok None →
       VolumesCollection__contains__ self item = Ok false)
  ∧ ((∀ item, get_volume (_pool self) item ≠ Ok None) →
     ∀ item,
       VolumesCollection__contains__ self item = Ok true
       ↔ ∃ r, VolumesCollection__getitem__ self item = Ok r).
Proof.
  split_and!.
  - intros v Hv. simpl.
    change (Pool_eq (Volume.pool v) (_pool self) = false) in Hv. by rewrite Hv.
  - intros v Hv. simpl.
    change (Pool_eq (Volume.pool v) (_pool self) = true) in Hv. by rewrite Hv.
  - intros vid r Hget. simpl. unfold VolumesCollection_getitem_vid.
    by rewrite Hget.
  - intros vid e Hget He. simpl. unfold VolumesCollection_getitem_vid.
    by rewrite Hget, He.
  - intros vid msg vols Hget Hlist. simpl.
    by apply (getitem_vid_fallback self vid msg).
  - intros item. unfold VolumesCollection__contains__.
    destruct (VolumesCollection__getitem__ self item) as [[v|]|e].
    + split; [eauto | done].
    + split; [done | by intros [? ?]].
    + split; [by destruct (is_KeyError e) | by intros [? ?]].
  - intros item key Hget. unfold VolumesCollection__contains__.
    by rewrite Hget.
  - intros item Hget. unfold VolumesCollection__contains__.
    by rewrite Hget.
  - intros Hcontract item. unfold VolumesCollection__contains__.
    destruct (VolumesCollection__getitem__ self item) as [[v|]|e] eqn:Hget.
    + split; [eauto | done].
    + exfalso. apply getitem_not_None in Hget; [done | exact Hcontract].
    + split; [by destruct (is_KeyError e) | by intros [? ?]].
Qed.
End Lookup.

(** C4, on a pool that implements [list_volumes()] only: a volume is found
    by its vid, as a key of either kind; an absent vid and a volume of
    another pool raise [KeyError]. *)
Lemma VolumesCollection_lookup_witness :
  @VolumesCollection__getitem__ lvm_driver {| _pool := pool_lvm |}
    (OStr "vm-work-private") = Ok (Some work_private)
  ∧ @VolumesCollection__getitem__ lvm_driver {| _pool := pool_lvm |}
      (OVolume work_private) = Ok (Some work_private)
  ∧ @VolumesCollection__getitem__ lvm_driver {| _pool := pool_lvm |}
      (OStr "vm-absent") = Raise (KeyError (OStr "vm-absent"))
  ∧ @VolumesCollection__contains__ lvm_driver {| _pool := pool_lvm |}
      (OStr "vm-work-private") = Ok true
  ∧ @VolumesCollection__contains__ lvm_driver {| _pool := pool_lvm |}
      (OStr "vm-absent") = Ok false
  ∧ @VolumesCollection__getitem__ lvm_driver {| _pool := pool_varlibqubes |}
      (OVolume work_private) = Raise (KeyError (OVolume work_private)).
Proof.
  pose proof (@VolumesCollection_lookup lvm_driver {| _pool := pool_lvm |})
    as (_ & Hvol & _ & _ & Hscan & Hin & Hout & _).
  pose proof (@VolumesCollection_lookup lvm_driver {| _pool := pool_varlibqubes |})
    as (Hother & _).
  assert (Hfound : @VolumesCollection__getitem__ lvm_driver {| _pool := pool_lvm |}
                     (OStr "vm-work-private") = Ok (Some work_private)).
  { rewrite (Hscan "vm-work-private"
               "Pool driver Pool has get_volume() not implemented"
               [template_root; work_root; work_private]); reflexivity. }
  assert (Habsent : @VolumesCollection__getitem__ lvm_driver {| _pool := pool_lvm |}
                      (OStr "vm-absent") = Raise (KeyError (OStr "vm-absent"))).
  { rewrite (Hscan "vm-absent"
               "Pool driver Pool has get_volume() not implemented"
               [template_root; work_root; work_private]); reflexivity. }
  split_and!.
  - exact Hfound.
  - rewrite (Hvol work_private); [exact Hfound | reflexivity].
  - exact Habsent.
  - apply Hin. eauto.
  - by eapply Hout.
  - apply Hother. reflexivity.
Defined.

(** C4, counterexample: on a pool whose [get_volume] answers [None] for a
    vid it does not know, the lookup of such a vid succeeds, returning
    [None], and the vid is not contained; a vid the pool knows is found and
    contained. *)
Lemma VolumesCollection_lookup_returns_None :
  @VolumesCollection__getitem__ table_driver {| _pool := pool_lvm |}
    (OStr "vm-absent") = Ok None
  ∧ @VolumesCollection__contains__ table_driver {| _pool := pool_lvm |}
      (OStr "vm-absent") = Ok false
  ∧ @VolumesCollection__getitem__ table_driver {| _pool := pool_lvm |}
      (OStr "vm-work-private") = Ok (Some work_private)
  ∧ @VolumesCollection__contains__ table_driver {| _pool := pool_lvm |}
      (OStr "vm-work-private") = Ok true.
Proof. split_and!; reflexivity. Qed.

(** ** Frontend slots *)

Lemma string_leb_trans (a b c : string) :
  String.leb a b = true → String.leb b c = true → String.leb a c = true.
Proof.
  unfold String.leb. revert b c.
  induction a as [|x a IH]; intros [|y b] [|z c]; simpl; try done.
  unfold Ascii.compare.
  destruct (N.compare_spec (Ascii.N_of_ascii x) (Ascii.N_of_ascii y)),
           (N.compare_spec (Ascii.N_of_ascii y) (Ascii.N_of_ascii z)),
           (N.compare_spec (Ascii.N_of_ascii x) (Ascii.N_of_ascii z));
    try done; try lia.
  apply IH.
Qed.

#[global] Instance str_le_trans : Transitive str_le.
Proof. intros a b c. apply string_leb_trans. Qed.

#[global] Instance str_le_total : Total str_le.
Proof. intros a b. apply String.leb_total. Qed.

#[global] Instance str_le_antisym : AntiSymm (=) str_le.
Proof. intros a b. apply String.leb_antisym. Qed.

Lemma sorted_elem_of (l : list string) (x : string) : x ∈ sorted l ↔ x ∈ l.
Proof. unfold sorted. by rewrite merge_sort_Permutation. Qed.

Lemma sorted_head_least (l rest : list string) (x t : string) :
  sorted l = x :: rest → t ∈ l → str_le x t.
Proof.
  intros Hs Ht. apply sorted_elem_of in Ht.
  pose proof (StronglySorted_merge_sort str_le l) as Hss.
  fold (sorted l) in Hss. rewrite Hs in Hss, Ht.
  apply elem_of_cons in Ht as [->|Ht].
  - destruct (total str_le x x); done.
  - apply StronglySorted_inv in Hss as [_ Hall].
    by eapply Forall_forall in Hall.
Qed.

Lemma AVAILABLE_FRONTENDS_elem_of (s : string) :
  s ∈ Storage_AVAILABLE_FRONTENDS
  ↔ ∃ c, c ∈ String.list_ascii_of_string ascii_lowercase
         ∧ s = "xvd" +:+ String c EmptyString.
Proof.
  unfold Storage_AVAILABLE_FRONTENDS.
  rewrite elem_of_list_to_set, list_elem_of_fmap.
  split; intros (c & H1 & H2); exists c; done.
Qed.

(** C5. [unused_frontend] returns a slot exactly when that slot is the
    least, in the order of [sorted], of the slots of [xvda..xvdz] that are
    not in use; so the slot it returns is never in use.  It raises
    [IndexError] exactly when every one of the 26 slots is in use.  Two
    descriptions that list the same devices give the same answer. *)
Theorem Storage_unused_frontend_least (used : gset string) :
  (∀ s, Storage_unused_frontend used = Ok s
        ↔ s ∈ Storage_AVAILABLE_FRONTENDS ∧ (s ∉ used)
          ∧ (∀ t, t ∈ Storage_AVAILABLE_FRONTENDS → t ∉ used →
                  String.leb s t = true))
  ∧ (Storage_unused_frontend used = Raise IndexError
     ↔ Storage_AVAILABLE_FRONTENDS ⊆ used)
  ∧ (∀ s, s ∈ Storage_AVAILABLE_FRONTENDS
          ↔ ∃ c, c ∈ String.list_ascii_of_string ascii_lowercase
                 ∧ s = "xvd" +:+ String c EmptyString)
  ∧ size Storage_AVAILABLE_FRONTENDS = 26
  ∧ (∀ targets targets',
       (∀ dev, Some dev ∈ targets ↔ Some dev ∈ targets') →
       Storage_unused_frontend (Storage_used_frontends targets)
       = Storage_unused_frontend (Storage_used_frontends targets')).
Proof.
  assert (Hmem : ∀ t, t ∈ elements (Storage_AVAILABLE_FRONTENDS ∖ used)
                      ↔ t ∈ Storage_AVAILABLE_FRONTENDS ∧ t ∉ used).
  { intros t. by rewrite elem_of_elements, elem_of_difference. }
  split_and!.
  - intros s. unfold Storage_unused_frontend.
    destruct (sorted (elements (Storage_AVAILABLE_FRONTENDS ∖ used)))
      as [|x rest] eqn:Hs.
    + split; [done|]. intros (Hs1 & Hs2 & _).
      assert (s ∈ sorted (elements (Storage_AVAILABLE_FRONTENDS ∖ used))) as Hin
        by (apply sorted_elem_of, Hmem; done).
      rewrite Hs in Hin. by apply elem_of_nil in Hin.
    + assert (Hx : x ∈ Storage_AVAILABLE_FRONTENDS ∧ x ∉ used).
      { apply Hmem, sorted_elem_of. rewrite Hs. apply elem_of_cons; auto. }
      assert (Hleast : ∀ t, t ∈ Storage_AVAILABLE_FRONTENDS → t ∉ used →
                            str_le x t).
      { intros t Ht1 Ht2. eapply sorted_head_least; [exact Hs|].
        by apply Hmem. }
      split.
      * intros [= <-]. destruct Hx. split_and!; try done.
      * intros (Hs1 & Hs2 & Hs3). f_equal.
        apply (anti_symm str_le); [by apply Hleast | by apply Hs3; tauto].
  - unfold Storage_unused_frontend.
    destruct (sorted (elements (Storage_AVAILABLE_FRONTENDS ∖ used)))
      as [|x rest] eqn:Hs.
    + split; [|done]. intros _ t Ht.
      destruct (decide (t ∈ used)) as [|Hn]; [done|].
      assert (t ∈ sorted (elements (Storage_AVAILABLE_FRONTENDS ∖ used))) as Hin
        by (apply sorted_elem_of, Hmem; done).
      rewrite Hs in Hin. by apply elem_of_nil in Hin.
    + split; [done|]. intros Hsub.
      assert (Hx : x ∈ Storage_AVAILABLE_FRONTENDS ∧ x ∉ used).
      { apply Hmem, sorted_elem_of. rewrite Hs. apply elem_of_cons; auto. }
      destruct Hx as [Hx1 Hx2]. by apply Hsub in Hx1.
  - apply AVAILABLE_FRONTENDS_elem_of.
  - by vm_compute.
  - intros targets targets' Hsame. f_equal.
    apply set_eq. intros dev. unfold Storage_used_frontends.
    rewrite !elem_of_list_to_set, !list_elem_of_omap.
    split; intros ([d|] & Hd & [= ->]); exists (Some dev);
      (split; [by apply Hsame | done]).
Qed.

(** ** Locating the pool that contains a directory *)

Lemma common_prefix_eq_iff (a b : list string) :
  common_prefix a b = a ↔ a `prefix_of` b.
Proof.
  revert b. induction a as [|x a IH]; intros [|y b]; simpl.
  - split; [intros _; apply prefix_nil | done].
  - split; [intros _; apply prefix_nil | done].
  - split; [done | intros Hp; by apply prefix_nil_not in Hp].
  - destruct (String.eqb_spec x y) as [->|Hne].
    + split.
      * intros [= Hc]. by apply prefix_cons, IH.
      * intros Hp. apply prefix_cons_inv_2, IH in Hp. by rewrite Hp.
    + split; [done|]. intros Hp. by apply prefix_cons_inv_1 in Hp.
Qed.

(** [first_match], one element of the list at a time. *)
Lemma first_match_nil {A} (P : A → Prop) : first_match P [] None.
Proof. intros y Hy. by apply elem_of_nil in Hy. Qed.

Lemma first_match_here {A} (P : A → Prop) (x : A) (l : list A) :
  P x → first_match P (x :: l) (Some x).
Proof.
  intros Hx. exists [], l. split_and!; [done | done |].
  intros y Hy. by apply elem_of_nil in Hy.
Qed.

Lemma first_match_skip {A} (P : A → Prop) (x : A) (l : list A)
    (result : option A) :
  ¬ P x → first_match P l result → first_match P (x :: l) result.
Proof.
  intros Hx. destruct result as [z|]; simpl.
  - intros (l1 & l2 & -> & Hz & Hbefore). exists (x :: l1), l2.
    split_and!; [done | done |].
    intros y [->|Hy]%elem_of_cons; [done | by apply Hbefore].
  - intros Hall y [->|Hy]%elem_of_cons; [done | by apply Hall].
Qed.

Lemma first_match_Some {A} (P : A → Prop) (l : list A) (x : A) :
  first_match P l (Some x) → x ∈ l ∧ P x.
Proof.
  intros (l1 & l2 & -> & Hx & _). split; [|done].
  apply elem_of_app. right. apply elem_of_cons. auto.
Qed.

Section LocatorProperties.
Context `{OsEnv}.

(** The first loop never raises and returns the first pool whose real
    directory is a prefix of the candidate's real path. *)
Lemma search_dir_pools_spec (pools : list Pool.t) (real : list string) :
  ∃ result,
    search_dir_pools pools real = Ok result
    ∧ first_match (contains_dir real) pools result.
Proof.
  induction pools as [|pool rest (result & Hres & Hfirst)]; simpl.
  - exists None. split; [done | apply first_match_nil].
  - destruct (Pool.dir_path pool) as [d|] eqn:Hd.
    + case_bool_decide as Hcp; rewrite common_prefix_eq_iff in Hcp.
      * exists (Some pool). split; [done|].
        apply first_match_here. by exists d.
      * exists result. split; [done|].
        apply first_match_skip; [|done].
        intros (d' & Hd' & Hpre). congruence.
    + exists result. split; [done|].
      apply first_match_skip; [|done].
      intros (d' & Hd' & _). congruence.
Qed.

Lemma DirectoryThinPool_init_lookup cache real :
  DirectoryThinPool__init cache real !! real
  = Some (resolved_thin_pool cache real).
Proof.
  unfold DirectoryThinPool__init, resolved_thin_pool.
  destruct (cache !! real) as [r|] eqn:Hc; [done|].
  destruct (dm_thin_pool real) as [[vg tp]|]; by rewrite lookup_insert_eq.
Qed.

(** [DirectoryThinPool.thin_pool] never raises. *)
Lemma DirectoryThinPool_thin_pool_result cache real :
  (DirectoryThinPool_thin_pool cache real).2
  = Ok (resolved_thin_pool cache real).
Proof.
  unfold DirectoryThinPool_thin_pool. simpl.
  by rewrite DirectoryThinPool_init_lookup.
Qed.

(** The probe runs once: a second call answers from the cache. *)
Lemma resolved_thin_pool_cached cache real :
  resolved_thin_pool (DirectoryThinPool__init cache real) real
  = resolved_thin_pool cache real.
Proof.
  unfold resolved_thin_pool at 1.
  by rewrite DirectoryThinPool_init_lookup.
Qed.

(** The second loop never raises and returns the first pool whose volume
    group and thin pool are the resolved ones. *)
Lemma search_thin_pools_spec (pools : list Pool.t) (real : list string) cache :
  ∃ result,
    (search_thin_pools pools real cache).2 = Ok result
    ∧ first_match (on_thin_pool (resolved_thin_pool cache real)) pools result.
Proof.
  revert cache. induction pools as [|pool rest IH]; intros cache; simpl.
  - exists None. split; [done | apply first_match_nil].
  - destruct (Pool.thin_pool pool) as [tp|] eqn:Htp;
      [destruct (Pool.volume_group pool) as [vg|] eqn:Hvg|].
    + unfold DirectoryThinPool_thin_pool.
      rewrite DirectoryThinPool_init_lookup.
      case_bool_decide as Hfound.
      * exists (Some pool). split; [done|].
        apply first_match_here. by exists vg, tp.
      * destruct (IH (DirectoryThinPool__init cache real))
          as (result & Hres & Hfirst).
        rewrite resolved_thin_pool_cached in Hfirst.
        exists result. split; [done|].
        apply first_match_skip; [|done].
        intros (vg' & tp' & Hvg' & Htp' & Hr). congruence.
    + destruct (IH cache) as (result & Hres & Hfirst).
      exists result. split; [done|].
      apply first_match_skip; [|done].
      intros (vg' & tp' & Hvg' & _). congruence.
    + destruct (IH cache) as (result & Hres & Hfirst).
      exists result. split; [done|].
      apply first_match_skip; [|done].
      intros (vg' & tp' & _ & Htp' & _). congruence.
Qed.

(** C8. [search_pool_containing_dir] never raises.  A pool it returns is
    one of the given pools, and either exposes a directory whose real path
    is a prefix of the candidate's real path, or no pool with a directory
    matches and its volume group and thin pool are the ones resolved for
    the candidate; in both cases it is the first such pool of the list.
    When some pool with a directory matches, such a pool is returned,
    whatever the thin pools are; the result is [None] exactly when no pool
    matches in either way. *)
Theorem search_pool_containing_dir_spec (pools : list Pool.t)
    (dir_path : string)
    (cache : gmap (list string) (option string * option string)) :
  ∃ result,
    (search_pool_containing_dir pools dir_path cache).2 = Ok result
    ∧ (∀ pool, result = Some pool →
         pool ∈ pools
         ∧ (first_match (contains_dir (os_path_realpath dir_path)) pools
              (Some pool)
            ∨ ((∀ q, q ∈ pools → ¬ contains_dir (os_path_realpath dir_path) q)
               ∧ first_match
                   (on_thin_pool
                      (resolved_thin_pool cache (os_path_realpath dir_path)))
                   pools (Some pool))))
    ∧ ((∃ q, q ∈ pools ∧ contains_dir (os_path_realpath dir_path) q) →
       ∃ pool, result = Some pool
               ∧ contains_dir (os_path_realpath dir_path) pool)
    ∧ (result = None ↔
       (∀ q, q ∈ pools → ¬ contains_dir (os_path_realpath dir_path) q)
       ∧ (∀ q, q ∈ pools →
               ¬ on_thin_pool
                   (resolved_thin_pool cache (os_path_realpath dir_path)) q)).
Proof.
  unfold search_pool_containing_dir.
  destruct (search_dir_pools_spec pools (os_path_realpath dir_path))
    as (r1 & Hr1 & Hfirst1).
  rewrite Hr1. destruct r1 as [p1|].
  - destruct (first_match_Some _ _ _ Hfirst1) as [Hin Hdir].
    exists (Some p1). split_and!; [done | | |].
    + intros ? [= <-]. split; [done|]. by left.
    + intros _. eauto.
    + split; [done|]. intros [Hno _]. exfalso. by eapply Hno.
  - destruct (search_thin_pools_spec pools (os_path_realpath dir_path) cache)
      as (r2 & Hr2 & Hfirst2).
    exists r2. split_and!; [done | | |].
    + intros p ->. destruct (first_match_Some _ _ _ Hfirst2) as [Hin _].
      split; [done|]. by right.
    + intros (q & Hq & Hdir). exfalso. by eapply Hfirst1.
    + split; [by intros ->|]. intros [_ Hno].
      destruct r2 as [p|]; [|done].
      destruct (first_match_Some _ _ _ Hfirst2) as [Hin Hthin].
      exfalso. by eapply Hno.
Qed.
End LocatorProperties.

(** C8, on the example of the specification: with a filesystem pool at
    [/data/pool1] and a thin pool, the directory [/data/pool1/sub/dir] is
    found in the filesystem pool, in either order of the pools. *)
Lemma search_pool_containing_dir_example :
  (@search_pool_containing_dir example_host [pool_data1; pool_lvm]
     "/data/pool1/sub/dir" ∅).2 = Ok (Some pool_data1)
  ∧ (@search_pool_containing_dir example_host [pool_lvm; pool_data1]
       "/data/pool1/sub/dir" ∅).2 = Ok (Some pool_data1)
  ∧ (@search_pool_containing_dir example_host [pool_data1; pool_lvm]
       "/var/lib/qubes/appvms" ∅).2 = Ok (Some pool_lvm)
  ∧ (@search_pool_containing_dir example_host [pool_data1; pool_lvm]
       "/home/user" ∅).2 = Ok None.
Proof. by vm_compute. Qed.

(** ** Removing the volumes of a VM *)

Lemma later_refl (w : World) : later w w.
Proof. by unfold later. Qed.

Lemma later_trans (w1 w2 w3 : World) : later w1 w2 → later w2 w3 → later w1 w3.
Proof.
  intros (Hv1 & Hf1 & Ht1 & Hb1) (Hv2 & Hf2 & Ht2 & Hb2).
  split_and!; [congruence | congruence | by etrans | by etrans].
Qed.

Lemma later_add_event (ev : event) (w : World) : later w (add_event ev w).
Proof. split_and!; try done. by apply prefix_app_r. Qed.

Lemma later_trace (w w' : World) (ev : event) :
  later w w' → ev ∈ trace w → ev ∈ trace w'.
Proof. intros (_ & _ & [k ->] & _) Hev. apply elem_of_app; auto. Qed.

Lemma later_backing (w w' : World) (key : string * string) :
  later w w' → key ∉ backing w → key ∉ backing w'.
Proof. intros (_ & _ & _ & Hb) Hk Hk'. by apply Hk, Hb. Qed.

Lemma add_event_trace (ev : event) (w : World) : ev ∈ trace (add_event ev w).
Proof. simpl. apply elem_of_app. right. by apply list_elem_of_singleton. Qed.

Create HintDb world.
#[global] Hint Resolve later_refl later_add_event add_event_trace : world.

(** Chains the [later] steps at hand. *)
Ltac later_chain :=
  repeat (eapply later_trans; [eassumption|]); eauto with world.

Section RemoveProperties.
Context `{VolumeDriver}.

(** What running the body of [remove] does. *)
Lemma remove_body_unfold (v : Volume.t) (w : World) :
  remove_body v w
  = match remove_outcome v with
    | None =>
        (mkWorld (vm w) (fs w) (backing w ∖ {[volume_key v]})
           (trace w ++ [EvRemove v]), Ok tt)
    | Some e => (add_event (EvRemove v) w, Raise e)
    end.
Proof. unfold remove_body, bind, emit, modify. by destruct (remove_outcome v). Qed.

Lemma remove_body_spec (v : Volume.t) (w : World) :
  later w (remove_body v w).1
  ∧ EvRemove v ∈ trace (remove_body v w).1
  ∧ (remove_body v w).2
    = match remove_outcome v with None => Ok tt | Some e => Raise e end
  ∧ (remove_outcome v = None → volume_key v ∉ backing (remove_body v w).1).
Proof.
  rewrite remove_body_unfold. destruct (remove_outcome v) as [e|]; simpl.
  - split_and!; [apply later_add_event | apply add_event_trace | done | done].
  - split_and!; [|apply (add_event_trace _ w) | done |].
    + split_and!; [done | done | by apply prefix_app_r |].
      by intros key [Hkey _]%elem_of_difference.
    + intros _ [_ Hkey]%elem_of_difference.
      by apply Hkey, elem_of_singleton.
Qed.

(** One turn of the loop of [Storage.remove]. *)
Lemma Storage_remove_loop_cons (vol : Volume.t) (rest : list Volume.t)
    (results : list (retval unit)) (w : World) :
  Storage_remove_loop (vol :: rest) results w
  = if remove_is_coroutine vol
    then Storage_remove_loop rest (results ++ [Coroutine (remove_body vol)])
           (add_event (EvLogInfo ("Removing volume " +:+ Volume.name vol
                                  +:+ ": " +:+ Volume.vid vol)) w)
    else
      match remove_body vol
              (add_event (EvLogInfo ("Removing volume " +:+ Volume.name vol
                                     +:+ ": " +:+ Volume.vid vol)) w) with
      | (w2, Ok _) => Storage_remove_loop rest (results ++ [Plain tt]) w2
      | (w2, Raise e) =>
          if is_OSError e
          then Storage_remove_loop rest results
                 (add_event
                    (EvLogException "Failed to remove volume %s"
                       [LogStr (Volume.name vol); LogExn e]) w2)
          else (w2, Raise e)
      end.
Proof.
  cbn [Storage_remove_loop].
  unfold try_except, log_info, log_exception, emit, modify, Volume_remove.
  destruct (remove_is_coroutine vol); unfold bind, ret; [reflexivity|].
  destruct (remove_body vol _) as [w2 [[]|e]]; [reflexivity|].
  destruct (is_OSError e); reflexivity.
Qed.

Lemma coroutines_snoc (results : list (retval unit)) (r : retval unit) :
  coroutines (results ++ [r])
  = coroutines results
    ++ match r with Coroutine body => [body] | Plain _ => [] end.
Proof. unfold coroutines. rewrite omap_app. by destruct r. Qed.

(** The loop, when [remove] fails with nothing but I/O errors: it runs to
    its end, has run the plain removals, and hands on the coroutines. *)
Lemma Storage_remove_loop_spec (vols : list Volume.t)
    (results : list (retval unit)) (w : World) :
  (∀ v, v ∈ vols → remove_fails_with_OSError v) →
  ∃ w' results',
    Storage_remove_loop vols results w = (w', Ok results')
    ∧ later w w'
    ∧ coroutines results'
      = coroutines results
        ++ (remove_body <$> filter (λ v, remove_is_coroutine v = true) vols)
    ∧ (∀ v, v ∈ vols → remove_is_coroutine v = false →
         EvRemove v ∈ trace w'
         ∧ (remove_outcome v = None → volume_key v ∉ backing w')
         ∧ (∀ e, remove_outcome v = Some e →
              EvLogException "Failed to remove volume %s"
                [LogStr (Volume.name v); LogExn e]
              ∈ trace w')).
Proof.
  revert results w. induction vols as [|vol rest IH]; intros results w Hio.
  - exists w, results. split_and!; [done | apply later_refl | |].
    + by rewrite filter_nil, fmap_nil, app_nil_r.
    + intros v Hv. by apply elem_of_nil in Hv.
  - assert (Hrest : ∀ v, v ∈ rest → remove_fails_with_OSError v)
      by (intros v Hv; apply Hio, elem_of_cons; auto).
    rewrite Storage_remove_loop_cons.
    set (w1 := add_event _ w).
    assert (Hw1 : later w w1) by apply later_add_event.
    destruct (remove_is_coroutine vol) eqn:Hco.
    + destruct (IH (results ++ [Coroutine (remove_body vol)]) w1 Hrest)
        as (w' & results' & Hrun & Hlater & Hcoros & Hplain).
      exists w', results'. split_and!; [done | later_chain | |].
      * rewrite Hcoros, coroutines_snoc, filter_cons_True by done.
        by rewrite fmap_cons, <- app_assoc.
      * intros v [->|Hv]%elem_of_cons Hv'; [congruence | by apply Hplain].
    + destruct (remove_body_spec vol w1) as (Hl2 & Hev & Hres & Hgone).
      destruct (remove_body vol w1) as [w2 r]. simpl in *.
      destruct (remove_outcome vol) as [e|] eqn:Hout; subst r.
      * rewrite (Hio vol (proj2 (elem_of_cons _ _ _) (or_introl eq_refl)) e Hout).
        set (w3 := add_event _ w2).
        destruct (IH results w3 Hrest)
          as (w' & results' & Hrun & Hlater & Hcoros & Hplain).
        assert (Hw3 : later w2 w3) by apply later_add_event.
        exists w', results'.
        split_and!; [done | later_chain | |].
        -- by rewrite Hcoros, filter_cons_False by congruence.
        -- intros v [->|Hv]%elem_of_cons Hv'; [|by apply Hplain].
           split_and!; [| congruence |].
           ++ eapply later_trace; [|exact Hev]. later_chain.
           ++ intros e' He'. rewrite Hout in He'. injection He' as <-.
              eapply later_trace; [exact Hlater|].
              apply add_event_trace.
      * destruct (IH (results ++ [Plain tt]) w2 Hrest)
          as (w' & results' & Hrun & Hlater & Hcoros & Hplain).
        exists w', results'.
        split_and!; [done | later_chain | |].
        -- rewrite Hcoros, coroutines_snoc, filter_cons_False by congruence.
           by rewrite app_nil_r.
        -- intros v [->|Hv]%elem_of_cons Hv'; [|by apply Hplain].
           split_and!; [| |by rewrite Hout].
           ++ by eapply later_trace.
           ++ intros _. eapply later_backing; [exact Hlater | by apply Hgone].
Qed.

(** Awaiting the removal coroutines: all of them run, and the failures
    come back in the order of the volumes. *)
Lemma run_all_remove_spec (vols : list Volume.t) (w : World) :
  ∃ w',
    run_all (remove_body <$> vols) w = (w', Ok (omap remove_outcome vols))
    ∧ later w w'
    ∧ (∀ v, v ∈ vols →
         EvRemove v ∈ trace w'
         ∧ (remove_outcome v = None → volume_key v ∉ backing w')).
Proof.
  revert w. induction vols as [|vol rest IH]; intros w.
  - exists w. split_and!; [done | apply later_refl |].
    intros v Hv. by apply elem_of_nil in Hv.
  - destruct (remove_body_spec vol w) as (Hl1 & Hev & Hres & Hgone).
    rewrite fmap_cons. simpl.
    destruct (remove_body vol w) as [w1 r]. simpl in *.
    destruct (IH w1) as (w' & Hrun & Hlater & Hall).
    exists w'. split_and!.
    + rewrite Hrun. destruct (remove_outcome vol); by subst r.
    + later_chain.
    + intros v [->|Hv]%elem_of_cons; [|by apply Hall].
      split; [by eapply later_trace|].
      intros Hnone. eapply later_backing; [exact Hlater | by apply Hgone].
Qed.

(** [Storage.remove] when the removal of a volume fails with nothing but
    [IOError] or [OSError]: it returns without an exception; the removal of
    every volume of the VM has run, whatever happened to its siblings; and a
    volume whose removal succeeded is gone from backing storage.  For a
    failure [log.exception] is called: with the name of the volume and its
    exception when [remove] is a plain method, and once, with the exception
    of one of the failed removals, when [remove] is a coroutine function. *)
Theorem Storage_remove_best_effort (w : World) :
  (∀ v, v ∈ dict_values (VM.volumes (vm w)) → remove_fails_with_OSError v) →
  ∃ w',
    Storage_remove w = (w', Ok tt)
    ∧ (∀ v, v ∈ dict_values (VM.volumes (vm w)) →
         EvRemove v ∈ trace w'
         ∧ (remove_outcome v = None → volume_key v ∉ backing w')
         ∧ (∀ e, remove_outcome v = Some e →
              if remove_is_coroutine v
              then ∃ v' e',
                     v' ∈ dict_values (VM.volumes (vm w))
                     ∧ remove_is_coroutine v' = true
                     ∧ remove_outcome v' = Some e'
                     ∧ EvLogException "Failed to remove some volume"
                         [LogExn e']
                       ∈ trace w'
              else EvLogException "Failed to remove volume %s"
                     [LogStr (Volume.name v); LogExn e]
                   ∈ trace w')).
Proof.
  intros Hio. unfold Storage_remove, bind at 1, get_world, bind at 1.
  set (vols := dict_values (VM.volumes (vm w))) in *.
  destruct (Storage_remove_loop_spec vols [] w Hio)
    as (w1 & results & Hloop & Hl1 & Hcoros & Hplain).
  rewrite Hloop.
  unfold try_except, void_coros_maybe, bind. rewrite Hcoros. simpl.
  destruct (run_all_remove_spec
              (filter (λ v, remove_is_coroutine v = true) vols) w1)
    as (w2 & Hrun & Hl2 & Hcoro).
  rewrite Hrun.
  assert (Hcommon : ∀ w3, later w2 w3 →
    (∀ v e, v ∈ vols → remove_is_coroutine v = true →
            remove_outcome v = Some e →
            ∃ v' e',
              v' ∈ vols ∧ remove_is_coroutine v' = true
              ∧ remove_outcome v' = Some e'
              ∧ EvLogException "Failed to remove some volume" [LogExn e']
                ∈ trace w3) →
    ∀ v, v ∈ vols →
      EvRemove v ∈ trace w3
      ∧ (remove_outcome v = None → volume_key v ∉ backing w3)
      ∧ (∀ e, remove_outcome v = Some e →
           if remove_is_coroutine v
           then ∃ v' e',
                  v' ∈ vols ∧ remove_is_coroutine v' = true
                  ∧ remove_outcome v' = Some e'
                  ∧ EvLogException "Failed to remove some volume" [LogExn e']
                    ∈ trace w3
           else EvLogException "Failed to remove volume %s"
                  [LogStr (Volume.name v); LogExn e]
                ∈ trace w3)).
  { intros w3 Hl3 Hlog v Hv. destruct (remove_is_coroutine v) eqn:Hco.
    - destruct (Hcoro v) as [Hev Hgone].
      { by apply list_elem_of_filter. }
      split_and!.
      + by eapply later_trace.
      + intros Hnone. eapply later_backing; [exact Hl3 | by apply Hgone].
      + intros e He. by apply (Hlog v e).
    - destruct (Hplain v Hv Hco) as (Hev & Hgone & Hlogged).
      assert (later w1 w3) by later_chain.
      split_and!.
      + by eapply later_trace.
      + intros Hnone. eapply later_backing; [eassumption | by apply Hgone].
      + intros e He. eapply later_trace; [eassumption | by apply Hlogged]. }
  destruct (omap remove_outcome (filter (λ v, remove_is_coroutine v = true) vols))
    as [|e es] eqn:Hes.
  - exists w2. split; [done|]. apply Hcommon; [apply later_refl|].
    intros v e Hv Hco Hout. exfalso.
    assert (e ∈ omap remove_outcome
                  (filter (λ v, remove_is_coroutine v = true) vols)) as Hin.
    { apply list_elem_of_omap. exists v.
      split; [by apply list_elem_of_filter | done]. }
    rewrite Hes in Hin. by apply elem_of_nil in Hin.
  - assert (e ∈ omap remove_outcome
                  (filter (λ v, remove_is_coroutine v = true) vols)) as Hin
      by (rewrite Hes; apply elem_of_cons; auto).
    apply list_elem_of_omap in Hin
      as (v0 & [Hco0 Hv0]%list_elem_of_filter & Hout0).
    unfold raise. rewrite (Hio v0 Hv0 e Hout0).
    unfold log_exception, emit, modify.
    eexists. split; [reflexivity|].
    apply Hcommon; [apply later_add_event|].
    intros v e1 _ _ _. exists v0, e.
    split_and!; [done | done | done | apply add_event_trace].
Qed.
End RemoveProperties.

(** [root] fails with an I/O error, [private] is removed and the call
    returns. *)
Lemma Storage_remove_best_effort_witness :
  ∃ w',
    @Storage_remove io_error_driver work_world = (w', Ok tt)
    ∧ EvRemove work_root ∈ trace w'
    ∧ EvRemove work_private ∈ trace w'
    ∧ (volume_key work_private ∉ backing w')
    ∧ EvLogException "Failed to remove volume %s"
        [LogStr "root"; LogExn (OSError "Input/output error")]
      ∈ trace w'.
Proof.
  destruct (@Storage_remove_best_effort io_error_driver work_world)
    as (w' & Hrun & Hall).
  { intros v Hv e. unfold dict_values in Hv. simpl in Hv.
    apply elem_of_cons in Hv as [->|Hv];
      [|apply list_elem_of_singleton in Hv as ->].
    - by intros [= <-].
    - simpl. discriminate. }
  exists w'.
  destruct (Hall work_root) as (Hr1 & _ & Hr3).
  { unfold dict_values. simpl. apply elem_of_cons; auto. }
  destruct (Hall work_private) as (Hp1 & Hp2 & _).
  { unfold dict_values. simpl. apply elem_of_cons. right.
    by apply list_elem_of_singleton. }
  split_and!; [done | done | done | by apply Hp2 |].
  by apply (Hr3 (OSError "Input/output error")).
Defined.

(** C2, on four runs of [Storage.remove] on the VM [work].

    In the first, [remove] of [root] is a plain method that raises
    [StoragePoolException]: the exception leaves [Storage.remove], and the
    sibling [private] is not removed: its removal never runs and it is still
    in backing storage.

    In the second, [remove] is the coroutine function of the base class:
    its [NotImplementedError] leaves [Storage.remove].

    In the third, [remove] of [root] is a plain method that raises
    [OSError]: the exception is caught, [private] is removed and the call
    returns; but [log.exception] is handed two arguments after a message
    with one conversion, which the logging library cannot format.

    In the fourth, [remove] is a coroutine function and that of [root]
    raises [OSError] when it is awaited: the call returns, and its last act
    is to hand [log.exception] one argument after a message with no
    conversion. *)
Theorem Storage_remove_defects :
  (@Storage_remove busy_root_driver work_world).2
  = Raise (StoragePoolException "volume is in use")
  ∧ trace (@Storage_remove busy_root_driver work_world).1
    = [EvLogInfo "Removing volume root: vm-work-root"; EvRemove work_root]
  ∧ volume_key work_private
    ∈ backing (@Storage_remove busy_root_driver work_world).1
  ∧ (@Storage_remove BaseVolume work_world).2
    = Raise (Volume_not_implemented "remove")
  ∧ (@Storage_remove io_error_driver work_world).2 = Ok tt
  ∧ trace (@Storage_remove io_error_driver work_world).1
    = [EvLogInfo "Removing volume root: vm-work-root";
       EvRemove work_root;
       EvLogException "Failed to remove volume %s"
         [LogStr "root"; LogExn (OSError "Input/output error")];
       EvLogInfo "Removing volume private: vm-work-private";
       EvRemove work_private]
  ∧ surplus_arguments
      (EvLogException "Failed to remove volume %s"
         [LogStr "root"; LogExn (OSError "Input/output error")])
    = true
  ∧ (@Storage_remove io_error_async_driver work_world).2 = Ok tt
  ∧ last (trace (@Storage_remove io_error_async_driver work_world).1)
    = Some (EvLogException "Failed to remove some volume"
              [LogExn (OSError "Input/output error")])
  ∧ (volume_key work_private
     ∉ backing (@Storage_remove io_error_async_driver work_world).1)
  ∧ surplus_arguments
      (EvLogException "Failed to remove some volume"
         [LogExn (OSError "Input/output error")])
    = true.
Proof.
  split_and!; by vm_compute.
Qed.

(** ** Rolling back a failed clone *)

Lemma filter_all {A} (P : A → Prop) `{!∀ x, Decision (P x)} (l : list A) :
  (∀ x, x ∈ l → P x) → filter P l = l.
Proof.
  induction l as [|x l IH]; intros Hall; [done|].
  rewrite filter_cons_True by (apply Hall, elem_of_cons; auto).
  rewrite IH; [done|]. intros y Hy. apply Hall, elem_of_cons; auto.
Qed.

Section RollbackProperties.
Context `{PoolDriver} `{VolumeDriver} `{App}.

(** One turn of the loop of [VmCreationManager.__exit__]. *)
Lemma exit_loop_cons (vol : Volume.t) (rest : list Volume.t) (w : World) :
  for_each (vol :: rest)
    (λ volume, try_except (Volume_remove volume ;; ret tt) is_Exception
                 (λ _, ret tt)) w
  = if remove_is_coroutine vol
    then for_each rest
           (λ volume, try_except (Volume_remove volume ;; ret tt) is_Exception
                        (λ _, ret tt)) w
    else
      match remove_body vol w with
      | (w1, Ok _) =>
          for_each rest
            (λ volume, try_except (Volume_remove volume ;; ret tt)
                         is_Exception (λ _, ret tt)) w1
      | (w1, Raise e) =>
          if is_Exception e
          then for_each rest
                 (λ volume, try_except (Volume_remove volume ;; ret tt)
                              is_Exception (λ _, ret tt)) w1
          else (w1, Raise e)
      end.
Proof.
  cbn [for_each]. unfold try_except, Volume_remove.
  destruct (remove_is_coroutine vol); unfold bind, ret; [reflexivity|].
  destruct (remove_body vol w) as [w1 [[]|e]]; [reflexivity|].
  destruct (is_Exception e); reflexivity.
Qed.

(** The loop of [__exit__] runs the removal of every volume whose [remove]
    is a plain method and swallows its failure; a volume whose [remove] is
    a coroutine function is left alone, its coroutine object being
    dropped. *)
Lemma exit_loop_spec (vols : list Volume.t) (w : World) :
  (∀ v e, v ∈ vols → remove_is_coroutine v = false →
          remove_outcome v = Some e → is_Exception e = true) →
  ∃ w',
    for_each vols
      (λ volume, try_except (Volume_remove volume ;; ret tt) is_Exception
                   (λ _, ret tt)) w
    = (w', Ok tt)
    ∧ later w w'
    ∧ trace w' = trace w
                 ++ (EvRemove <$> filter (λ v, remove_is_coroutine v = false) vols)
    ∧ (∀ v, v ∈ vols → remove_is_coroutine v = false →
            remove_outcome v = None → volume_key v ∉ backing w')
    ∧ ((∀ v, v ∈ vols → remove_is_coroutine v = true) → w' = w).
Proof.
  revert w. induction vols as [|vol rest IH]; intros w Hexc.
  - exists w. split_and!; [done | apply later_refl | | | done].
    + by rewrite filter_nil, fmap_nil, app_nil_r.
    + intros v Hv. by apply elem_of_nil in Hv.
  - assert (Hrest : ∀ v e, v ∈ rest → remove_is_coroutine v = false →
                           remove_outcome v = Some e → is_Exception e = true)
      by (intros v e Hv; apply Hexc, elem_of_cons; auto).
    rewrite exit_loop_cons. destruct (remove_is_coroutine vol) eqn:Hco.
    + destruct (IH w Hrest) as (w' & Hrun & Hlater & Htrace & Hgone & Hsame).
      exists w'. split_and!; [done | done | | |].
      * by rewrite filter_cons_False by congruence.
      * intros v [->|Hv]%elem_of_cons Hv'; [congruence | by apply Hgone].
      * intros Hall. apply Hsame. intros v Hv. apply Hall, elem_of_cons; auto.
    + destruct (remove_body_spec vol w) as (Hl1 & _ & Hres & Hgone1).
      pose proof (remove_body_unfold vol w) as Hunf.
      destruct (remove_body vol w) as [w1 r]. simpl in *.
      assert (Htr1 : trace w1 = trace w ++ [EvRemove vol])
        by (destruct (remove_outcome vol); by injection Hunf as -> _).
      destruct (IH w1 Hrest) as (w' & Hrun & Hlater & Htrace & Hgone & _).
      assert (Hnext :
        (match r with
         | Ok _ =>
             for_each rest
               (λ volume, try_except (Volume_remove volume ;; ret tt)
                            is_Exception (λ _, ret tt)) w1
         | Raise e =>
             if is_Exception e
             then for_each rest
                    (λ volume, try_except (Volume_remove volume ;; ret tt)
                                 is_Exception (λ _, ret tt)) w1
             else (w1, Raise e)
         end) = (w', Ok tt)).
      { destruct (remove_outcome vol) as [e|] eqn:Hout; subst r; [|done].
        by rewrite (Hexc vol e (proj2 (elem_of_cons _ _ _) (or_introl eq_refl))
                      Hco Hout). }
      exists w'. split_and!; [done | later_chain | | |].
      * rewrite Htrace, Htr1, filter_cons_True by done.
        by rewrite fmap_cons, <- app_assoc.
      * intros v [->|Hv]%elem_of_cons Hv' Hnone; [|by apply Hgone].
        eapply later_backing; [exact Hlater | by apply Hgone1].
      * intros Hall. rewrite (Hall vol) in Hco; [done | apply elem_of_cons; auto].
Qed.

(** [os.rmdir] removes an existing empty directory and raises [OSError]
    on anything else, leaving the filesystem as it is. *)
Lemma os_rmdir_spec (path : string) (w : World) :
  os_rmdir path w
  = match fs w !! path with
    | Some [] =>
        (mkWorld (vm w) (delete path (fs w)) (backing w)
           (trace w ++ [EvRmdir path]), Ok tt)
    | Some (_ :: _) =>
        (add_event (EvRmdir path) w, Raise (OSError "Directory not empty"))
    | None =>
        (add_event (EvRmdir path) w, Raise (OSError "No such file or directory"))
    end.
Proof.
  unfold os_rmdir, bind, emit, modify, get_world. simpl.
  by destruct (fs w !! path) as [[|entry entries]|].
Qed.

(** The rollback scope.  When the body fails with [e], every registered
    volume has a plain [remove] that fails with nothing outside
    [Exception], and the directory of the VM exists and is empty, then the
    removal of every registered volume runs, the directory is deleted, and
    [e] is the exception that leaves the [with] statement. *)
Lemma VmCreationManager_rollback {A} (body : M A) (w w1 : World) (e : exn) :
  body w = (w1, Raise e) →
  (∀ v, v ∈ dict_values (VM.volumes (vm w1)) → remove_is_coroutine v = false) →
  (∀ v e', v ∈ dict_values (VM.volumes (vm w1)) →
           remove_outcome v = Some e' → is_Exception e' = true) →
  fs w1 !! VM.dir_path (vm w1) = Some [] →
  ∃ w2,
    with_ VmCreationManager__exit__ body w = (w2, Raise e)
    ∧ vm w2 = vm w1
    ∧ fs w2 = delete (VM.dir_path (vm w1)) (fs w1)
    ∧ trace w2 = trace w1
                 ++ (EvRemove <$> dict_values (VM.volumes (vm w1)))
                 ++ [EvRmdir (VM.dir_path (vm w1))]
    ∧ backing w2 ⊆ backing w1
    ∧ (∀ v, v ∈ dict_values (VM.volumes (vm w1)) →
            remove_outcome v = None → volume_key v ∉ backing w2).
Proof.
  intros Hbody Hplain Hexc Hdir.
  unfold with_. rewrite Hbody.
  unfold VmCreationManager__exit__, bind at 1, get_world, bind at 1.
  destruct (exit_loop_spec (dict_values (VM.volumes (vm w1))) w1)
    as (w' & Hrun & (Hvm & Hfs & _ & Hback) & Htrace & Hgone & _).
  { intros v e' Hv _. by apply Hexc. }
  rewrite Hrun, os_rmdir_spec, Hfs, Hdir.
  eexists. split; [reflexivity|]. simpl.
  split_and!; [done | done | | done |].
  - rewrite Htrace, <- app_assoc. by rewrite filter_all.
  - intros v Hv Hnone. apply Hgone; [done | by apply Hplain | done].
Qed.

(** [Storage.clone] under the same conditions.  [w1] is the world in which
    the fan-out of [clone_volume] has settled with the failure [e]: the
    volumes registered there are removed, the directory of the VM is
    deleted, and [e] is what the caller gets. *)
Theorem Storage_clone_rollback (src_vm : VM.t) (w w1 : World) (e : exn) :
  void_coros_maybe
    (Storage_clone_tasks src_vm (dict_keys (VM.volume_config (vm w))))
    (set_volumes (λ _, []) w).1
  = (w1, Raise e) →
  (∀ v, v ∈ dict_values (VM.volumes (vm w1)) → remove_is_coroutine v = false) →
  (∀ v e', v ∈ dict_values (VM.volumes (vm w1)) →
           remove_outcome v = Some e' → is_Exception e' = true) →
  fs w1 !! VM.dir_path (vm w1) = Some [] →
  ∃ w2,
    Storage_clone src_vm w = (w2, Raise e)
    ∧ fs w2 !! VM.dir_path (vm w1) = None
    ∧ (∀ v, v ∈ dict_values (VM.volumes (vm w1)) →
            EvRemove v ∈ trace w2
            ∧ (remove_outcome v = None → volume_key v ∉ backing w2)).
Proof.
  intros Hbody Hplain Hexc Hdir.
  destruct (VmCreationManager_rollback _ _ _ _ Hbody Hplain Hexc Hdir)
    as (w2 & Hrun & Hvm & Hfs & Htrace & _ & Hgone).
  exists w2. split_and!.
  - unfold Storage_clone, bind at 1. simpl.
    unfold bind at 1, get_world. exact Hrun.
  - rewrite Hfs. apply lookup_delete_eq.
  - intros v Hv. split; [|by apply Hgone].
    rewrite Htrace. apply elem_of_app. right. apply elem_of_app. left.
    by apply list_elem_of_fmap_2.
Qed.
End RollbackProperties.

(** The example of the specification, with plain methods and an empty
    directory: [import_volume] fails for [private] after [root] was created
    and registered; [root] is removed, the directory is deleted and the
    failure of [import_volume] is what the caller gets. *)
Lemma Storage_clone_rollback_witness :
  ∃ w2,
    @Storage_clone lvm_driver failing_import_driver example_app work_vm
      (clone_world [])
    = (w2, Raise (StoragePoolException "import failed"))
    ∧ fs w2 !! "/var/lib/qubes/appvms/work-clone" = None
    ∧ EvRemove clone_root ∈ trace w2
    ∧ (volume_key clone_root ∉ backing w2).
Proof.
  destruct (@Storage_clone_rollback lvm_driver failing_import_driver
              example_app work_vm (clone_world [])
              (@void_coros_maybe
                 (@Storage_clone_tasks lvm_driver failing_import_driver
                    example_app work_vm
                    (dict_keys (VM.volume_config (vm (clone_world [])))))
                 (set_volumes (λ _, []) (clone_world [])).1).1
              (StoragePoolException "import failed"))
    as (w2 & Hrun & Hfs & Hall).
  - by vm_compute.
  - intros v _. reflexivity.
  - intros v e' _. discriminate.
  - by vm_compute.
  - exists w2. destruct (Hall clone_root) as [Hev Hgone].
    + vm_compute. apply elem_of_cons; auto.
    + split_and!; [done | exact Hfs | done | by apply Hgone].
Defined.

(** C1, on two runs of [Storage.clone] in which [import_volume] fails for
    [private] after [root] was created and registered.

    In the first, [remove] is a plain method and the directory of the VM
    holds a file: [root] is removed, but [os.rmdir] fails, the directory
    stays, and the caller gets the [OSError] of [os.rmdir] in place of the
    failure of [import_volume].

    In the second, [remove] is a coroutine function, as the base class
    declares it, and the directory is empty: the caller gets the failure of
    [import_volume] and the directory is deleted, but the registered [root]
    is never removed: [__exit__] drops the coroutine object, no removal
    runs, and [root] is still in backing storage. *)
Theorem Storage_clone_rollback_defects :
  (@Storage_clone lvm_driver failing_import_driver example_app work_vm
     (clone_world ["firewall.xml"])).2
  = Raise (OSError "Directory not empty")
  ∧ fs (@Storage_clone lvm_driver failing_import_driver example_app work_vm
          (clone_world ["firewall.xml"])).1
      !! "/var/lib/qubes/appvms/work-clone"
    = Some ["firewall.xml"]
  ∧ (@Storage_clone lvm_driver failing_import_async_driver example_app work_vm
       (clone_world [])).2
    = Raise (StoragePoolException "import failed")
  ∧ VM.volumes
      (vm (@Storage_clone lvm_driver failing_import_async_driver example_app
             work_vm (clone_world [])).1)
    = [("root", clone_root)]
  ∧ trace (@Storage_clone lvm_driver failing_import_async_driver example_app
             work_vm (clone_world [])).1
    = [EvLogInfo "Importing volume root from vm work";
       EvCreate clone_root;
       EvImportVolume clone_root work_root;
       EvLogInfo "Importing volume private from vm work";
       EvCreate clone_private;
       EvImportVolume clone_private work_private;
       EvRmdir "/var/lib/qubes/appvms/work-clone"]
  ∧ volume_key clone_root
    ∈ backing (@Storage_clone lvm_driver failing_import_async_driver
                 example_app work_vm (clone_world [])).1.
Proof.
  split_and!; by vm_compute.
Qed.

(** ** Dictionaries in insertion order *)

Lemma dict_get_setitem_eq {V} (d : list (string * V)) (key : string) (value : V) :
  dict_get (dict_setitem d key value) key = Some value.
Proof.
  induction d as [|[k v] d IH]; simpl.
  - by rewrite String.eqb_refl.
  - destruct (String.eqb k key) eqn:Hk; simpl; by rewrite Hk.
Qed.

Lemma dict_get_setitem_ne {V} (d : list (string * V)) (key key' : string)
    (value : V) :
  key ≠ key' → dict_get (dict_setitem d key value) key' = dict_get d key'.
Proof.
  intros Hne. induction d as [|[k v] d IH]; simpl.
  - by rewrite (proj2 (String.eqb_neq key key')).
  - destruct (String.eqb_spec k key) as [->|Hk]; simpl.
    + by rewrite (proj2 (String.eqb_neq key key')).
    + by rewrite IH.
Qed.

(** ** Cloning the volumes of a VM *)

Section CloneProperties.
Context `{PoolDriver} `{VolumeDriver} `{App}.

(** What a successful [clone_volume] does to the world. *)
Lemma Storage_clone_volume_ok (src_vm : VM.t) (name : string)
    (dst src : Volume.t) (w : World) :
  clone_volume_succeeds src_vm (vm w) name dst src →
  Storage_clone_volume src_vm name w
  = (mkWorld
       (VM.mk (VM.name (vm w)) (VM.dir_path (vm w)) (VM.volume_config (vm w))
          (dict_setitem (VM.volumes (vm w)) name dst))
       (fs w) ({[volume_key dst]} ∪ backing w)
       (trace w ++ clone_volume_events src_vm dst src),
     Ok dst).
Proof.
  intros (config & pool_ref & dst_pool & Hcfg & Hpool & Hget & Hinit & Hsrc
          & Hcreate & Himport).
  destruct w as [[vname vdir vcfg vols] wfs wback wtrace]. simpl in *.
  unfold Storage_clone_volume, bind, get_world, lift, dict_getitem. simpl.
  rewrite Hcfg, Hpool, Hget, Hinit, Hsrc.
  unfold log_info, emit, modify, Volume_create, Volume_import_volume, ret,
    coro_maybe, create_body, import_volume_body, bind, emit, modify,
    set_backing, set_volumes, modify. simpl.
  rewrite Hcreate. simpl. rewrite Himport. simpl.
  rewrite dict_get_setitem_eq. unfold clone_volume_events.
  by rewrite <- !app_assoc.
Qed.

Lemma clone_volume_succeeds_volumes (src_vm self_vm self_vm' : VM.t)
    (name : string) (dst src : Volume.t) :
  VM.name self_vm' = VM.name self_vm →
  VM.dir_path self_vm' = VM.dir_path self_vm →
  VM.volume_config self_vm' = VM.volume_config self_vm →
  clone_volume_succeeds src_vm self_vm name dst src →
  clone_volume_succeeds src_vm self_vm' name dst src.
Proof.
  intros Hn Hd Hc. unfold clone_volume_succeeds. by rewrite Hn, Hd, Hc.
Qed.

Lemma dict_get_foldl_setitem {V} (f : string → V) (names : list string)
    (d : list (string * V)) (key : string) :
  dict_get (foldl (λ vols n, dict_setitem vols n (f n)) d names) key
  = if bool_decide (key ∈ names) then Some (f key) else dict_get d key.
Proof.
  revert d. induction names as [|n names IH]; intros d; simpl; [done|].
  rewrite IH. destruct (decide (key ∈ names)) as [Hin|Hout].
  - rewrite !bool_decide_eq_true_2; [done | apply elem_of_cons; auto | done].
  - rewrite (bool_decide_eq_false_2 (key ∈ names)) by done.
    destruct (decide (key = n)) as [->|Hne].
    + rewrite bool_decide_eq_true_2 by (apply elem_of_cons; auto).
      apply dict_get_setitem_eq.
    + rewrite bool_decide_eq_false_2
        by (intros [?|?]%elem_of_cons; done).
      by apply dict_get_setitem_ne.
Qed.

(** The tasks of [clone_volume] for names that all succeed, run one after
    the other. *)
Lemma clone_tasks_ok (src_vm : VM.t) (dst_of src_of : string → Volume.t)
    (names : list string) (w : World) :
  (∀ name, name ∈ names →
     clone_volume_succeeds src_vm (vm w) name (dst_of name) (src_of name)) →
  run_all (coroutines (Storage_clone_tasks src_vm names)) w
  = (mkWorld
       (VM.mk (VM.name (vm w)) (VM.dir_path (vm w)) (VM.volume_config (vm w))
          (foldl (λ vols n, dict_setitem vols n (dst_of n))
             (VM.volumes (vm w)) names))
       (fs w)
       (list_to_set (volume_key ∘ dst_of <$> names) ∪ backing w)
       (trace w
        ++ (names ≫= λ n, clone_volume_events src_vm (dst_of n) (src_of n))),
     Ok []).
Proof.
  revert w. induction names as [|n names IH]; intros w Hok.
  - destruct w as [[vname vdir vcfg vols] wfs wback wtrace]. simpl.
    unfold ret. by rewrite app_nil_r, (left_id_L ∅ (∪)).
  - change (coroutines (Storage_clone_tasks src_vm (n :: names)))
      with ((Storage_clone_volume src_vm n ;; ret tt)
            :: coroutines (Storage_clone_tasks src_vm names)).
    cbn [run_all]. unfold bind at 1.
    rewrite (Storage_clone_volume_ok src_vm n (dst_of n) (src_of n))
      by (apply Hok, elem_of_cons; auto).
    unfold ret at 1. rewrite IH.
    + simpl. do 2 f_equal.
      * by rewrite (assoc_L (∪)), (comm_L (∪) _ {[volume_key (dst_of n)]}).
      * by rewrite <- app_assoc.
    + intros name Hname. eapply clone_volume_succeeds_volumes;
        [| | | apply Hok, elem_of_cons; right; exact Hname]; done.
Qed.

Lemma sublist_bind_elem {A B} (f : A → list B) (l : list A) (x : A) :
  x ∈ l → f x `sublist_of` l ≫= f.
Proof.
  intros (l1 & l2 & ->)%list_elem_of_split.
  rewrite bind_app, bind_cons.
  apply sublist_inserts_l, sublist_inserts_r. reflexivity.
Qed.

(** The clone with the tasks run one after the other in the order
    [order]. *)
Lemma clone_in_order (src_vm : VM.t) (dst_of src_of : string → Volume.t)
    (order : list string) (w : World) :
  order ≡ₚ dict_keys (VM.volume_config (vm w)) →
  (∀ name, name ∈ dict_keys (VM.volume_config (vm w)) →
     clone_volume_succeeds src_vm (vm w) name (dst_of name) (src_of name)) →
  ∃ w',
    with_ VmCreationManager__exit__
      (void_coros_maybe (Storage_clone_tasks src_vm order))
      (set_volumes (λ _, []) w).1
    = (w', Ok tt)
    ∧ cloned src_vm dst_of src_of w w'.
Proof.
  intros Hperm Hok.
  unfold with_, void_coros_maybe, bind. simpl.
  rewrite (clone_tasks_ok src_vm dst_of src_of).
  2:{ intros name Hname. simpl.
      eapply clone_volume_succeeds_volumes; [| | | apply Hok]; try done.
      by rewrite <- Hperm. }
  simpl. unfold ret. eexists. split; [reflexivity|].
  unfold cloned. simpl. split_and!; try done.
  - intros name. rewrite dict_get_foldl_setitem. simpl.
    destruct (decide (name ∈ order)) as [Hin|Hout].
    + rewrite !bool_decide_eq_true_2; [done | by rewrite <- Hperm | done].
    + rewrite !bool_decide_eq_false_2; [done | by rewrite <- Hperm | done].
  - f_equal. apply list_to_set_perm_L. by rewrite Hperm.
  - eexists. split; [reflexivity|]. split.
    + by rewrite Hperm.
    + intros n Hn.
      apply (sublist_bind_elem
               (λ n, clone_volume_events src_vm (dst_of n) (src_of n)) order n).
      by rewrite Hperm.
Qed.

(** When every step succeeds for every configured volume, [Storage.clone]
    returns normally.  Afterwards the VM has, under each configured name,
    the volume built from its own configuration, and nothing under any
    other name, whatever was registered before; the new volumes are in
    backing storage beside the old ones; and the calls made are, for each
    configured volume, the log entry, [create()] and [import_volume()] of
    its destination, in this order: nothing was removed.  The same holds
    when the fan-out runs the tasks one after the other in any other
    order. *)
Theorem Storage_clone_registers (src_vm : VM.t)
    (dst_of src_of : string → Volume.t) (w : World) :
  (∀ name, name ∈ dict_keys (VM.volume_config (vm w)) →
     clone_volume_succeeds src_vm (vm w) name (dst_of name) (src_of name)) →
  (∃ w', Storage_clone src_vm w = (w', Ok tt)
         ∧ cloned src_vm dst_of src_of w w')
  ∧ (∀ order, order ≡ₚ dict_keys (VM.volume_config (vm w)) →
       ∃ w',
         with_ VmCreationManager__exit__
           (void_coros_maybe (Storage_clone_tasks src_vm order))
           (set_volumes (λ _, []) w).1
         = (w', Ok tt)
         ∧ cloned src_vm dst_of src_of w w').
Proof.
  intros Hok. split.
  - by apply (clone_in_order src_vm dst_of src_of).
  - intros order Hperm. by apply clone_in_order.
Qed.
End CloneProperties.

(** The clone of [work] into [work-clone] with a driver that never fails. *)
Lemma Storage_clone_registers_witness :
  ∃ w',
    @Storage_clone lvm_driver healthy_driver example_app work_vm (clone_world [])
    = (w', Ok tt)
    ∧ dict_get (VM.volumes (vm w')) "root" = Some clone_root
    ∧ dict_get (VM.volumes (vm w')) "private" = Some clone_private
    ∧ dict_get (VM.volumes (vm w')) "kernel" = None
    ∧ volume_key clone_private ∈ backing w'.
Proof.
  destruct (@Storage_clone_registers lvm_driver healthy_driver example_app
              work_vm clone_dst clone_src (clone_world []))
    as [(w' & Hrun & _ & _ & _ & Hvols & Hback & _) _].
  - intros name Hname. simpl in Hname.
    apply elem_of_cons in Hname as [->|Hname];
      [|apply list_elem_of_singleton in Hname as ->].
    + exists (work_config "root" clone_root), (OStr "vm-pool"), pool_lvm.
      split_and!; first [reflexivity | by vm_compute].
    + exists (work_config "private" clone_private), (OStr "vm-pool"), pool_lvm.
      split_and!; first [reflexivity | by vm_compute].
  - exists w'. split_and!; [done | | | |].
    + by rewrite Hvols.
    + by rewrite Hvols.
    + by rewrite Hvols.
    + rewrite Hback. apply elem_of_union. left. by vm_compute.
Defined.

Section CloneVolumeProperties.
Context `{PoolDriver} `{VolumeDriver} `{App}.

(** [clone_volume] when every step succeeds: the volume that the pool of
    the VM's own configuration builds is created, then imports the source
    VM's volume of the same name, then is registered under the name, and is
    what the call returns.  A volume registered under the name before is
    replaced in place; the other names, the configuration and the volumes
    in backing storage are as they were. *)
Theorem Storage_clone_volume_registers (src_vm : VM.t) (name : string)
    (config : gmap string object) (pool_ref : object) (dst_pool : Pool.t)
    (dst src : Volume.t) (w : World) :
  dict_get (VM.volume_config (vm w)) name = Some config →
  config !! "pool" = Some pool_ref →
  get_pool pool_ref = Ok dst_pool →
  init_volume dst_pool (vm w) config = Ok dst →
  dict_get (VM.volumes src_vm) name = Some src →
  create_outcome dst = None →
  import_volume_outcome dst src = None →
  ∃ w',
    Storage_clone_volume src_vm name w = (w', Ok dst)
    ∧ VM.name (vm w') = VM.name (vm w)
    ∧ VM.dir_path (vm w') = VM.dir_path (vm w)
    ∧ VM.volume_config (vm w') = VM.volume_config (vm w)
    ∧ VM.volumes (vm w') = dict_setitem (VM.volumes (vm w)) name dst
    ∧ dict_get (VM.volumes (vm w')) name = Some dst
    ∧ (∀ n, n ≠ name →
            dict_get (VM.volumes (vm w')) n = dict_get (VM.volumes (vm w)) n)
    ∧ backing w' = {[volume_key dst]} ∪ backing w
    ∧ trace w' = trace w ++ clone_volume_events src_vm dst src.
Proof.
  intros Hcfg Hpool Hget Hinit Hsrc Hcreate Himport.
  unfold Storage_clone_volume, bind, get_world, lift, dict_getitem.
  rewrite Hcfg, Hpool, Hget, Hinit, Hsrc.
  unfold log_info, emit, modify, Volume_create, Volume_import_volume, ret,
    coro_maybe, create_body, import_volume_body, bind, emit, modify,
    set_backing, set_volumes, modify. simpl.
  rewrite Hcreate. simpl. rewrite Himport. simpl.
  rewrite dict_get_setitem_eq.
  eexists. split; [reflexivity|]. simpl.
  split_and!; try done.
  - apply dict_get_setitem_eq.
  - intros n Hn. by apply dict_get_setitem_ne.
  - unfold clone_volume_events. by rewrite <- !app_assoc.
Qed.

(** [clone_volume] registers the destination volume only after
    [import_volume] has succeeded.  When the volume was created and its
    import fails, the failure of [import_volume] is raised, the volumes of
    the VM are as before, and the volume that was created is in backing
    storage. *)
Theorem Storage_clone_volume_import_fails (src_vm : VM.t) (name : string)
    (config : gmap string object) (pool_ref : object) (dst_pool : Pool.t)
    (dst src : Volume.t) (e : exn) (w : World) :
  dict_get (VM.volume_config (vm w)) name = Some config →
  config !! "pool" = Some pool_ref →
  get_pool pool_ref = Ok dst_pool →
  init_volume dst_pool (vm w) config = Ok dst →
  dict_get (VM.volumes src_vm) name = Some src →
  create_outcome dst = None →
  import_volume_outcome dst src = Some e →
  ∃ w',
    Storage_clone_volume src_vm name w = (w', Raise e)
    ∧ vm w' = vm w
    ∧ fs w' = fs w
    ∧ backing w' = {[volume_key dst]} ∪ backing w
    ∧ trace w' = trace w ++ clone_volume_events src_vm dst src.
Proof.
  intros Hcfg Hpool Hget Hinit Hsrc Hcreate Himport.
  unfold Storage_clone_volume, bind, get_world, lift, dict_getitem.
  rewrite Hcfg, Hpool, Hget, Hinit, Hsrc.
  unfold log_info, emit, modify, Volume_create, Volume_import_volume, ret,
    coro_maybe, create_body, import_volume_body, bind, emit, modify,
    set_backing, modify, raise. simpl.
  rewrite Hcreate. simpl. rewrite Himport.
  eexists. split; [reflexivity|]. simpl.
  split_and!; try done. unfold clone_volume_events.
  by rewrite <- !app_assoc.
Qed.

(** *** Calls on the registered volumes alone *)

Lemma touches_only_refl (vols : list Volume.t) (P : event → Prop) (w : World) :
  touches_only vols P w w.
Proof.
  split_and!; [done | done |]. exists []. by rewrite app_nil_r.
Qed.

Lemma touches_only_trans (vols : list Volume.t) (P : event → Prop)
    (w1 w2 w3 : World) :
  touches_only vols P w1 w2 → touches_only vols P w2 w3 →
  touches_only vols P w1 w3.
Proof.
  intros (Hvm1 & Hkeep1 & new1 & Htr1 & HP1) (Hvm2 & Hkeep2 & new2 & Htr2 & HP2).
  split_and!; [congruence | |].
  - intros key Hkey Hne. apply Hkeep2; [|done]. by apply Hkeep1.
  - exists (new1 ++ new2). split; [by rewrite Htr2, Htr1, app_assoc|].
    by apply Forall_app.
Qed.

Lemma touches_only_add_event (vols : list Volume.t) (P : event → Prop)
    (ev : event) (w : World) :
  P ev → touches_only vols P w (add_event ev w).
Proof.
  intros HP. split_and!; [done | done |]. exists [ev].
  split; [done | by apply Forall_singleton].
Qed.

(** Running the body of [remove] on one of [vols]. *)
Lemma remove_body_touches (vols : list Volume.t) (P : event → Prop)
    (v : Volume.t) (w : World) :
  v ∈ vols → P (EvRemove v) → touches_only vols P w (remove_body v w).1.
Proof.
  intros Hv HP. rewrite remove_body_unfold.
  destruct (remove_outcome v); simpl; [by apply touches_only_add_event|].
  split_and!; [done | |].
  - simpl. intros key Hkey Hne. apply elem_of_difference. split; [done|].
    intros Heq%elem_of_singleton. by apply (Hne v).
  - exists [EvRemove v]. split; [done | by apply Forall_singleton].
Qed.

(** The loop of [__exit__], for any driver and whatever the removals
    raise. *)
Lemma exit_loop_touches (all vols : list Volume.t) (P : event → Prop)
    (w : World) :
  (∀ v, v ∈ vols → v ∈ all) →
  (∀ v, v ∈ vols → remove_is_coroutine v = false → P (EvRemove v)) →
  touches_only all P w
    (for_each vols
       (λ volume, try_except (Volume_remove volume ;; ret tt) is_Exception
                    (λ _, ret tt)) w).1.
Proof.
  revert w. induction vols as [|vol rest IH]; intros w Hsub HP.
  { apply touches_only_refl. }
  assert (Hrest : touches_only all P w
                    (for_each rest
                       (λ volume, try_except (Volume_remove volume ;; ret tt)
                                    is_Exception (λ _, ret tt)) w).1).
  { apply IH; intros v Hv; [apply Hsub | apply HP]; apply elem_of_cons; auto. }
  rewrite exit_loop_cons.
  destruct (remove_is_coroutine vol) eqn:Hco; [done|].
  assert (Hstep : touches_only all P w (remove_body vol w).1).
  { apply remove_body_touches; [apply Hsub | apply HP];
      try done; apply elem_of_cons; auto. }
  destruct (remove_body vol w) as [w1 r]. simpl in Hstep.
  assert (Hnext : touches_only all P w
                    (for_each rest
                       (λ volume, try_except (Volume_remove volume ;; ret tt)
                                    is_Exception (λ _, ret tt)) w1).1).
  { eapply touches_only_trans; [exact Hstep|].
    apply IH; intros v Hv; [apply Hsub | apply HP]; apply elem_of_cons; auto. }
  destruct r as [[]|e]; [done|]. by destruct (is_Exception e).
Qed.

Lemma os_rmdir_touches (vols : list Volume.t) (P : event → Prop)
    (path : string) (w : World) :
  P (EvRmdir path) → touches_only vols P w (os_rmdir path w).1.
Proof.
  intros HP. rewrite os_rmdir_spec.
  destruct (fs w !! path) as [[|entry entries]|]; simpl;
    (split_and!; [done | done |]); exists [EvRmdir path];
    (split; [done | by apply Forall_singleton]).
Qed.

Lemma VmCreationManager_exit_unfold (e : exn) (w : World) :
  VmCreationManager__exit__ (Some e) w
  = match for_each (dict_values (VM.volumes (vm w)))
            (λ volume, try_except (Volume_remove volume ;; ret tt)
                         is_Exception (λ _, ret tt)) w with
    | (w1, Ok _) => os_rmdir (VM.dir_path (vm w)) w1
    | (w1, Raise e1) => (w1, Raise e1)
    end.
Proof. reflexivity. Qed.

Lemma VmCreationManager_exit_touches (exc : option exn) (w : World) :
  touches_only (dict_values (VM.volumes (vm w)))
    (rollback_call (dict_values (VM.volumes (vm w))) (VM.dir_path (vm w)))
    w (VmCreationManager__exit__ exc w).1.
Proof.
  destruct exc as [e|]; [|apply touches_only_refl].
  rewrite VmCreationManager_exit_unfold.
  pose proof (exit_loop_touches (dict_values (VM.volumes (vm w)))
                (dict_values (VM.volumes (vm w)))
                (rollback_call (dict_values (VM.volumes (vm w)))
                   (VM.dir_path (vm w)))
                w (λ v Hv, Hv) (λ v Hv Hco, conj Hv Hco)) as Hloop.
  destruct (for_each _ _ w) as [w1 [[]|e1]]; simpl in *; [|done].
  eapply touches_only_trans; [exact Hloop|].
  by apply os_rmdir_touches.
Qed.

(** [VmCreationManager.__exit__], for any driver, any outcome of the
    removals and any state of the directory.  The VM is as it was:
    [vm.volumes] still lists the volumes after they were removed.  A volume
    in backing storage that is not registered stays there.  The calls made
    are [remove()] on registered volumes whose [remove] is a plain method
    and [os.rmdir] on the directory of the VM, and no other.  Without an
    exception nothing is done. *)
Theorem VmCreationManager_exit_keeps (exc : option exn) (w : World) :
  let w' := (VmCreationManager__exit__ exc w).1 in
  vm w' = vm w
  ∧ (∀ key, key ∈ backing w →
            (∀ v, v ∈ dict_values (VM.volumes (vm w)) → volume_key v ≠ key) →
            key ∈ backing w')
  ∧ (∃ new,
       trace w' = trace w ++ new
       ∧ Forall (rollback_call (dict_values (VM.volumes (vm w)))
                   (VM.dir_path (vm w))) new)
  ∧ (exc = None → VmCreationManager__exit__ exc w = (w, Ok tt)).
Proof.
  intros w'. subst w'.
  destruct (VmCreationManager_exit_touches exc w) as (Hvm & Hkeep & Hnew).
  split_and!; [done | done | done |]. by intros ->.
Qed.

Lemma Storage_clone_unfold (src_vm : VM.t) (w : World) :
  Storage_clone src_vm w
  = with_ VmCreationManager__exit__
      (void_coros_maybe
         (Storage_clone_tasks src_vm (dict_keys (VM.volume_config (vm w)))))
      (set_volumes (λ _, []) w).1.
Proof. reflexivity. Qed.

(** [Storage.clone] after a failed fan-out: a volume that is in backing
    storage when the fan-out has settled, and is not registered then,
    is still there after the rollback. *)
Theorem Storage_clone_leaves_unregistered (src_vm : VM.t) (w w1 : World)
    (e : exn) (key : string * string) :
  void_coros_maybe
    (Storage_clone_tasks src_vm (dict_keys (VM.volume_config (vm w))))
    (set_volumes (λ _, []) w).1
  = (w1, Raise e) →
  key ∈ backing w1 →
  (∀ v, v ∈ dict_values (VM.volumes (vm w1)) → volume_key v ≠ key) →
  key ∈ backing (Storage_clone src_vm w).1.
Proof.
  intros Hbody Hkey Hne.
  rewrite Storage_clone_unfold. unfold with_. rewrite Hbody.
  destruct (VmCreationManager_exit_touches (Some e) w1) as (_ & Hkeep & _).
  specialize (Hkeep key Hkey Hne).
  by destruct (VmCreationManager__exit__ (Some e) w1) as [w2 [[]|e2]].
Qed.
End CloneVolumeProperties.

(** In the clone of [work] whose import of [private] fails, [private] was
    created, is not registered, and outlives the rollback. *)
Lemma Storage_clone_leaves_unregistered_witness :
  volume_key clone_private
  ∈ backing (@Storage_clone lvm_driver failing_import_driver example_app
               work_vm (clone_world [])).1.
Proof.
  apply (@Storage_clone_leaves_unregistered lvm_driver failing_import_driver
           example_app work_vm (clone_world [])
           (@void_coros_maybe
              (@Storage_clone_tasks lvm_driver failing_import_driver
                 example_app work_vm
                 (dict_keys (VM.volume_config (vm (clone_world [])))))
              (set_volumes (λ _, []) (clone_world [])).1).1
           (StoragePoolException "import failed")).
  - by vm_compute.
  - by vm_compute.
  - intros v Hv. vm_compute in Hv.
    apply list_elem_of_singleton in Hv as ->. by vm_compute.
Defined.

(** The clone of [root] of [work] into [work-clone], which has a volume
    registered as [root] already: it is replaced. *)
Lemma Storage_clone_volume_registers_witness :
  ∃ w',
    @Storage_clone_volume lvm_driver healthy_driver example_app work_vm "root"
      (mkWorld
         (VM.mk "work-clone" "/var/lib/qubes/appvms/work-clone"
            (VM.volume_config clone_vm)
            [("root", template_root); ("private", clone_private)])
         (fs (clone_world [])) (backing (clone_world [])) [])
    = (w', Ok clone_root)
    ∧ VM.volumes (vm w') = [("root", clone_root); ("private", clone_private)]
    ∧ volume_key clone_root ∈ backing w'
    ∧ trace w' = [EvLogInfo "Importing volume root from vm work";
                  EvCreate clone_root;
                  EvImportVolume clone_root work_root].
Proof.
  destruct (@Storage_clone_volume_registers lvm_driver healthy_driver
              example_app work_vm "root"
              (work_config "root" clone_root) (OStr "vm-pool") pool_lvm
              clone_root work_root
              (mkWorld
                 (VM.mk "work-clone" "/var/lib/qubes/appvms/work-clone"
                    (VM.volume_config clone_vm)
                    [("root", template_root); ("private", clone_private)])
                 (fs (clone_world [])) (backing (clone_world [])) []))
    as (w' & Hrun & _ & _ & _ & Hvols & _ & _ & Hback & Htrace);
    try reflexivity.
  exists w'. split_and!; [done | by rewrite Hvols | | by rewrite Htrace].
  rewrite Hback. apply elem_of_union. left. by apply elem_of_singleton.
Defined.

(** The import of [private] fails in the clone of [work]. *)
Lemma Storage_clone_volume_import_fails_witness :
  ∃ w',
    @Storage_clone_volume lvm_driver failing_import_driver example_app work_vm
      "private" (clone_world [])
    = (w', Raise (StoragePoolException "import failed"))
    ∧ vm w' = vm (clone_world [])
    ∧ volume_key clone_private ∈ backing w'.
Proof.
  destruct (@Storage_clone_volume_import_fails lvm_driver failing_import_driver
              example_app work_vm "private"
              (work_config "private" clone_private) (OStr "vm-pool") pool_lvm
              clone_private work_private
              (StoragePoolException "import failed") (clone_world []))
    as (w' & Hrun & Hvm & _ & Hback & _); try reflexivity.
  exists w'. split_and!; [done | done |].
  rewrite Hback. apply elem_of_union. left. by apply elem_of_singleton.
Defined.

(** ** What [Storage.remove] leaves alone *)

Section RemoveKeeps.
Context `{VolumeDriver}.

Lemma run_all_removals_touch (vols : list Volume.t) (tasks : list (M unit))
    (w : World) :
  removals_of vols tasks →
  touches_only vols (removal_call vols) w (run_all tasks w).1.
Proof.
  intros Htasks. revert w.
  induction Htasks as [|task tasks (v & Hv & ->) _ IH]; intros w.
  { apply touches_only_refl. }
  cbn [run_all].
  pose proof (remove_body_touches vols (removal_call vols) v w Hv Hv) as Hstep.
  destruct (remove_body v w) as [w1 r]. simpl in Hstep.
  assert (Hnext : touches_only vols (removal_call vols) w (run_all tasks w1).1)
    by (eapply touches_only_trans; [exact Hstep | apply IH]).
  destruct r as [[]|e]; [done|].
  by destruct (run_all tasks w1) as [w2 [es|e2]].
Qed.

Lemma Storage_remove_loop_touches (all vols : list Volume.t)
    (results : list (retval unit)) (w : World) :
  (∀ v, v ∈ vols → v ∈ all) →
  removals_of all (coroutines results) →
  touches_only all (removal_call all) w (Storage_remove_loop vols results w).1
  ∧ (∀ results', (Storage_remove_loop vols results w).2 = Ok results' →
                 removals_of all (coroutines results')).
Proof.
  revert results w. induction vols as [|vol rest IH]; intros results w Hsub Hres.
  { split; [apply touches_only_refl | by intros results' [= <-]]. }
  assert (Hrest : ∀ v, v ∈ rest → v ∈ all)
    by (intros v Hv; apply Hsub, elem_of_cons; auto).
  assert (Hvol : vol ∈ all) by (apply Hsub, elem_of_cons; auto).
  rewrite Storage_remove_loop_cons.
  set (w0 := add_event _ w).
  assert (Hw0 : touches_only all (removal_call all) w w0)
    by by apply touches_only_add_event.
  assert (Hstep : ∀ w2 results2,
    touches_only all (removal_call all) w w2 →
    removals_of all (coroutines results2) →
    touches_only all (removal_call all) w
      (Storage_remove_loop rest results2 w2).1
    ∧ (∀ results', (Storage_remove_loop rest results2 w2).2 = Ok results' →
                   removals_of all (coroutines results'))).
  { intros w2 results2 Hw2 Hres2.
    destruct (IH results2 w2 Hrest Hres2) as [Htouch Hout].
    split; [by eapply touches_only_trans | done]. }
  destruct (remove_is_coroutine vol).
  { apply Hstep; [done|]. rewrite coroutines_snoc.
    apply Forall_app. split; [done|]. apply Forall_singleton. eauto. }
  pose proof (remove_body_touches all (removal_call all) vol w0 Hvol Hvol)
    as Hbody.
  destruct (remove_body vol w0) as [w1 r]. simpl in Hbody.
  assert (Hw1 : touches_only all (removal_call all) w w1)
    by by eapply touches_only_trans.
  destruct r as [[]|e]; [|destruct (is_OSError e)].
  - apply Hstep; [done|]. rewrite coroutines_snoc. by rewrite app_nil_r.
  - apply Hstep; [|done]. eapply touches_only_trans; [exact Hw1|].
    by apply touches_only_add_event.
  - by split.
Qed.

Lemma Storage_remove_unfold (w : World) :
  Storage_remove w
  = match Storage_remove_loop (dict_values (VM.volumes (vm w))) [] w with
    | (w1, Ok results) =>
        try_except (void_coros_maybe results) is_OSError
          (λ e, log_exception "Failed to remove some volume" [LogExn e]) w1
    | (w1, Raise e) => (w1, Raise e)
    end.
Proof. reflexivity. Qed.

(** [Storage.remove], for any driver and whatever the removals raise.  The
    VM is as it was: the volumes stay registered in [vm.volumes].  No volume
    leaves backing storage unless it is registered.  The calls made are
    [remove()] on registered volumes and calls of the logger, and no other:
    the directory of the VM is not deleted. *)
Theorem Storage_remove_keeps (w : World) :
  let w' := (Storage_remove w).1 in
  vm w' = vm w
  ∧ (∀ key, key ∈ backing w →
            (∀ v, v ∈ dict_values (VM.volumes (vm w)) → volume_key v ≠ key) →
            key ∈ backing w')
  ∧ ∃ new,
      trace w' = trace w ++ new
      ∧ Forall (removal_call (dict_values (VM.volumes (vm w)))) new.
Proof.
  intros w'. subst w'. change (touches_only (dict_values (VM.volumes (vm w)))
                                 (removal_call (dict_values (VM.volumes (vm w))))
                                 w (Storage_remove w).1).
  rewrite Storage_remove_unfold.
  pose proof (Storage_remove_loop_touches (dict_values (VM.volumes (vm w)))
                (dict_values (VM.volumes (vm w))) [] w (λ v Hv, Hv)
                (Forall_nil_2 _)) as [Hloop Hres].
  destruct (Storage_remove_loop (dict_values (VM.volumes (vm w))) [] w)
    as [w1 [results|e]]; [|done].
  simpl in *. specialize (Hres results eq_refl).
  unfold try_except, void_coros_maybe, bind.
  pose proof (run_all_removals_touch (dict_values (VM.volumes (vm w)))
                (coroutines results) w1 Hres) as Hrun.
  destruct (run_all (coroutines results) w1) as [w2 [es|e]]; simpl in *.
  - destruct es as [|e es]; simpl; [by eapply touches_only_trans|].
    destruct (is_OSError e); simpl; [|by eapply touches_only_trans].
    eapply touches_only_trans; [exact Hloop|].
    eapply touches_only_trans; [exact Hrun|].
    by apply touches_only_add_event.
  - destruct (is_OSError e); simpl; [|by eapply touches_only_trans].
    eapply touches_only_trans; [exact Hloop|].
    eapply touches_only_trans; [exact Hrun|].
    by apply touches_only_add_event.
Qed.
End RemoveKeeps.

(** ** What the serialized form of a volume holds *)

(** [str] is injective on [int]: the decimal form parses back. *)
Lemma py_str_int_inj (x y : Z) : py_str (OInt x) = py_str (OInt y) → x = y.
Proof.
  simpl. intros Heq. apply DecimalZ.to_int_inj.
  assert (Hparse : ∀ z, NilZero.int_of_string (NilZero.string_of_int (Z.to_int z))
                        = Some (Z.to_int z)).
  { intros z. apply NilZero.isi; destruct z; simpl; try discriminate;
      intros [= Hnil]; by apply DecimalPos.Unsigned.to_uint_nonnil in Hnil. }
  pose proof (Hparse x) as Hx. rewrite Heq, Hparse in Hx. by injection Hx.
Qed.

Lemma Volume_config_lookup (v : Volume.t) (key : string) :
  Volume_config v !! key
  = if String.eqb key "source"
    then (λ src, OStr (Volume.vid src)) <$> Volume.source v
    else if String.eqb key "size"
    then (if bool_decide (Volume_size v ≠ 0%Z)
          then Some (OInt (Volume_size v)) else None)
    else if String.eqb key "name" then Some (OStr (Volume.name v))
    else if String.eqb key "pool" then Some (OStr (Pool.name (Volume.pool v)))
    else if String.eqb key "vid" then Some (OStr (Volume.vid v))
    else if String.eqb key "revisions_to_keep"
    then Some (OInt (Volume.revisions_to_keep v))
    else if String.eqb key "rw" then Some (OBool (Volume.rw v))
    else if String.eqb key "save_on_stop"
    then Some (OBool (Volume.save_on_stop v))
    else if String.eqb key "snap_on_start"
    then Some (OBool (Volume.snap_on_start v))
    else None.
Proof.
  unfold Volume_config.
  destruct (String.eqb_spec key "source") as [->|Hsource].
  { destruct (Volume.source v); [by rewrite lookup_insert_eq|].
    case_bool_decide; by rewrite ?lookup_insert_ne. }
  assert (Hskip : ∀ m : gmap string object,
            match Volume.source v with
            | Some src => <["source" := OStr (py_str (OVolume src))]> m
            | None => m
            end !! key = m !! key).
  { intros m. destruct (Volume.source v); [by rewrite lookup_insert_ne|done]. }
  rewrite Hskip.
  destruct (String.eqb_spec key "size") as [->|Hsize].
  { case_bool_decide; [by rewrite lookup_insert_eq | done]. }
  assert (Hskip' : ∀ m : gmap string object,
            (if bool_decide (Volume_size v ≠ 0%Z)
             then <["size" := OInt (Volume_size v)]> m else m) !! key
            = m !! key).
  { intros m. case_bool_decide; [by rewrite lookup_insert_ne|done]. }
  rewrite Hskip'. simpl.
  destruct (String.eqb_spec key "name") as [->|?]; [done|].
  destruct (String.eqb_spec key "pool") as [->|?]; [done|].
  destruct (String.eqb_spec key "vid") as [->|?]; [done|].
  destruct (String.eqb_spec key "revisions_to_keep") as [->|?]; [done|].
  destruct (String.eqb_spec key "rw") as [->|?]; [done|].
  destruct (String.eqb_spec key "save_on_stop") as [->|?]; [done|].
  destruct (String.eqb_spec key "snap_on_start") as [->|?]; [done|].
  by rewrite !lookup_insert_ne.
Qed.

Lemma Volume_xml_get (v : Volume.t) (key : string) :
  Volume__xml__ v !! key
  = if String.eqb key "source" then Volume.vid <$> Volume.source v
    else if String.eqb key "size"
    then (if bool_decide (Volume_size v ≠ 0%Z)
          then Some (py_str (OInt (Volume_size v))) else None)
    else if String.eqb key "name" then Some (Volume.name v)
    else if String.eqb key "pool" then Some (Pool.name (Volume.pool v))
    else if String.eqb key "vid" then Some (Volume.vid v)
    else if String.eqb key "revisions_to_keep"
    then Some (py_str (OInt (Volume.revisions_to_keep v)))
    else if String.eqb key "rw"
    then (if Volume.rw v then Some "True" else None)
    else if String.eqb key "save_on_stop"
    then (if Volume.save_on_stop v then Some "True" else None)
    else if String.eqb key "snap_on_start"
    then (if Volume.snap_on_start v then Some "True" else None)
    else None.
Proof.
  unfold Volume__xml__.
  rewrite sanitize_config_lookup, Volume_config_lookup.
  repeat (destruct (String.eqb key _); [|]);
    try by (try case_bool_decide; try destruct (Volume.source v)).
Qed.

(** The serialized form of a volume, key by key: the name, the pool's
    name, the vid and [revisions_to_keep] are always written; each flag is
    written, as ["True"], only when it is set; the size is written only
    when it is not zero; the source is written, as its vid, only when
    there is one; and no other key is written. *)
Theorem Volume_xml_lookup (v : Volume.t) (key : string) :
  Volume__xml__ v !! key
  = if String.eqb key "source" then Volume.vid <$> Volume.source v
    else if String.eqb key "size"
    then (if bool_decide (Volume_size v ≠ 0%Z)
          then Some (py_str (OInt (Volume_size v))) else None)
    else if String.eqb key "name" then Some (Volume.name v)
    else if String.eqb key "pool" then Some (Pool.name (Volume.pool v))
    else if String.eqb key "vid" then Some (Volume.vid v)
    else if String.eqb key "revisions_to_keep"
    then Some (py_str (OInt (Volume.revisions_to_keep v)))
    else if String.eqb key "rw"
    then (if Volume.rw v then Some "True" else None)
    else if String.eqb key "save_on_stop"
    then (if Volume.save_on_stop v then Some "True" else None)
    else if String.eqb key "snap_on_start"
    then (if Volume.snap_on_start v then Some "True" else None)
    else None.
Proof. apply Volume_xml_get. Qed.

(** Two volumes with the same serialized form have the same name, vid,
    [revisions_to_keep], flags and size, pools of the same name and
    sources of the same vid: nothing but the identity of the pool and of
    the source objects is lost in writing a volume out.  In particular
    they compare equal. *)
Theorem Volume_xml_inj (v w : Volume.t) :
  Volume__xml__ v = Volume__xml__ w →
  Volume.name v = Volume.name w
  ∧ Pool.name (Volume.pool v) = Pool.name (Volume.pool w)
  ∧ Volume.vid v = Volume.vid w
  ∧ Volume.revisions_to_keep v = Volume.revisions_to_keep w
  ∧ Volume.rw v = Volume.rw w
  ∧ Volume.save_on_stop v = Volume.save_on_stop w
  ∧ Volume.snap_on_start v = Volume.snap_on_start w
  ∧ Volume_size v = Volume_size w
  ∧ Volume.vid <$> Volume.source v = Volume.vid <$> Volume.source w
  ∧ py_eq (OVolume v) (OVolume w) = true.
Proof.
  intros Heq.
  assert (Hkey : ∀ key, Volume__xml__ v !! key = Volume__xml__ w !! key)
    by (intros key; by rewrite Heq).
  pose proof (Hkey "name") as Hname.
  pose proof (Hkey "pool") as Hpool.
  pose proof (Hkey "vid") as Hvid.
  pose proof (Hkey "revisions_to_keep") as Hkeep.
  pose proof (Hkey "rw") as Hrw.
  pose proof (Hkey "save_on_stop") as Hsave.
  pose proof (Hkey "snap_on_start") as Hsnap.
  pose proof (Hkey "size") as Hsize.
  pose proof (Hkey "source") as Hsource.
  rewrite !Volume_xml_get in Hname, Hpool, Hvid, Hkeep, Hrw, Hsave, Hsnap,
    Hsize, Hsource.
  simpl in *.
  injection Hname as Hname. injection Hpool as Hpool. injection Hvid as Hvid.
  injection Hkeep as Hkeep. apply (py_str_int_inj _ _) in Hkeep.
  assert (Hsz : Volume_size v = Volume_size w).
  { repeat case_bool_decide; try done.
    - injection Hsize as Hsize. by apply py_str_int_inj.
    - destruct (decide (Volume_size v = 0%Z)), (decide (Volume_size w = 0%Z));
        try done; congruence. }
  split_and!; try done.
  - by destruct (Volume.rw v), (Volume.rw w).
  - by destruct (Volume.save_on_stop v), (Volume.save_on_stop w).
  - by destruct (Volume.snap_on_start v), (Volume.snap_on_start w).
  - rewrite Volume_eq_unfold, andb_true_iff, String.eqb_eq. split; [|done].
    by apply Pool_eq_name.
Qed.

Lemma Volume_xml_inj_witness :
  Volume__xml__ template_root = Volume__xml__ template_root_moved
  ∧ template_root ≠ template_root_moved
  ∧ py_eq (OVolume template_root) (OVolume template_root_moved) = true.
Proof.
  assert (Heq : Volume__xml__ template_root = Volume__xml__ template_root_moved)
    by (by vm_compute).
  split_and!; [done | discriminate |].
  by pose proof (Volume_xml_inj _ _ Heq) as (_&_&_&_&_&_&_&_&_&?).
Defined.

(** ** The libvirt description: attach and detach *)

Lemma element_Forall_ind (P : element → Prop) :
  (∀ tag attrib children, Forall P children → P (Element tag attrib children)) →
  ∀ e, P e.
Proof.
  intros H. fix IH 1. intros [tag attrib children]. apply H.
  induction children as [|c cs IHcs]; constructor; [apply IH | apply IHcs].
Qed.

Lemma xpath_from_unfold (steps ancestors : list string) (e : element) :
  xpath_from steps ancestors e
  = (if bool_decide (steps `prefix_of` element_tag e :: ancestors)
     then [e] else [])
    ++ (element_children e ≫= xpath_from steps (element_tag e :: ancestors)).
Proof.
  by destruct e.
Qed.

Lemma xpath_from_self (steps ancestors : list string) (e : element) :
  steps `prefix_of` element_tag e :: ancestors →
  e ∈ xpath_from steps ancestors e.
Proof.
  intros Hp. rewrite xpath_from_unfold, bool_decide_eq_true_2 by done.
  apply elem_of_cons; auto.
Qed.

(** A child of a selected element is selected by the path one step
    longer. *)
Lemma xpath_from_child (steps ancestors : list string) (tag : string)
    (e d s : element) :
  d ∈ xpath_from steps ancestors e →
  s ∈ xpath_child tag d →
  s ∈ xpath_from (tag :: steps) ancestors e.
Proof.
  revert ancestors. induction e as [t a cs IH] using element_Forall_ind.
  intros ancestors Hd Hs.
  rewrite xpath_from_unfold in Hd. rewrite xpath_from_unfold. simpl in *.
  apply elem_of_app in Hd as [Hd|Hd]; apply elem_of_app; right.
  - case_bool_decide as Hp; [|by apply elem_of_nil in Hd].
    apply list_elem_of_singleton in Hd as ->.
    apply list_elem_of_filter in Hs as [Htag Hs]. simpl in Hs.
    apply list_elem_of_bind. exists s. split; [|done].
    apply xpath_from_self. rewrite Htag. by apply prefix_cons.
  - apply list_elem_of_bind in Hd as (c & Hd & Hc).
    apply list_elem_of_bind. exists c. split; [|done].
    rewrite Forall_forall in IH. by apply IH.
Qed.

(** Every selected element ends the chain of tags asked for. *)
Lemma xpath_from_tag (steps ancestors : list string) (tag : string)
    (e s : element) :
  s ∈ xpath_from (tag :: steps) ancestors e → element_tag s = tag.
Proof.
  revert ancestors. induction e as [t a cs IH] using element_Forall_ind.
  intros ancestors Hs. rewrite xpath_from_unfold in Hs. simpl in Hs.
  apply elem_of_app in Hs as [Hs|Hs].
  - case_bool_decide as Hp; [|by apply elem_of_nil in Hs].
    apply list_elem_of_singleton in Hs as ->. simpl.
    by apply prefix_cons_inv_1 in Hp.
  - apply list_elem_of_bind in Hs as (c & Hs & Hc).
    rewrite Forall_forall in IH. by eapply IH.
Qed.

Lemma unused_frontend_Ok (used : gset string) (s : string) :
  Storage_unused_frontend used = Ok s ↔ least_unused used s.
Proof.
  assert (Hmem : ∀ t, t ∈ elements (Storage_AVAILABLE_FRONTENDS ∖ used)
                      ↔ t ∈ Storage_AVAILABLE_FRONTENDS ∧ t ∉ used).
  { intros t. by rewrite elem_of_elements, elem_of_difference. }
  unfold Storage_unused_frontend, least_unused.
  destruct (sorted (elements (Storage_AVAILABLE_FRONTENDS ∖ used)))
    as [|x rest] eqn:Hs.
  - split; [done|]. intros (Hs1 & Hs2 & _).
    assert (s ∈ sorted (elements (Storage_AVAILABLE_FRONTENDS ∖ used))) as Hin
      by (apply sorted_elem_of, Hmem; done).
    rewrite Hs in Hin. by apply elem_of_nil in Hin.
  - assert (Hx : x ∈ Storage_AVAILABLE_FRONTENDS ∧ x ∉ used).
    { apply Hmem, sorted_elem_of. rewrite Hs. apply elem_of_cons; auto. }
    assert (Hleast : ∀ t, t ∈ Storage_AVAILABLE_FRONTENDS → t ∉ used →
                          str_le x t).
    { intros t Ht1 Ht2. eapply sorted_head_least; [exact Hs|].
      by apply Hmem. }
    split.
    + intros [= <-]. destruct Hx. split_and!; try done.
    + intros (Hs1 & Hs2 & Hs3). f_equal.
      apply (anti_symm str_le); [by apply Hleast | by apply Hs3; tauto].
Qed.

Lemma unused_frontend_Raise (used : gset string) (e : exn) :
  Storage_unused_frontend used = Raise e
  ↔ e = IndexError ∧ Storage_AVAILABLE_FRONTENDS ⊆ used.
Proof.
  unfold Storage_unused_frontend.
  destruct (sorted (elements (Storage_AVAILABLE_FRONTENDS ∖ used)))
    as [|x rest] eqn:Hs.
  - split; [intros [= <-]; split; [done|] | by intros [-> _]].
    intros t Ht. destruct (decide (t ∈ used)) as [|Hn]; [done|].
    assert (t ∈ sorted (elements (Storage_AVAILABLE_FRONTENDS ∖ used))) as Hin.
    { apply sorted_elem_of, elem_of_elements, elem_of_difference. done. }
    rewrite Hs in Hin. by apply elem_of_nil in Hin.
  - split; [done|]. intros [_ Hsub].
    assert (Hx : x ∈ elements (Storage_AVAILABLE_FRONTENDS ∖ used)).
    { apply sorted_elem_of. rewrite Hs. apply elem_of_cons; auto. }
    apply elem_of_elements, elem_of_difference in Hx as [Hx1 Hx2].
    by apply Hsub in Hx1.
Qed.

Lemma attach_disk_source (volume : Volume.t) (domain : option string)
    (rw : bool) (frontend : string) :
  xpath_child "source" (attach_disk volume domain rw frontend)
  = [Element "source" [("dev", dev_of volume)] []].
Proof. by destruct domain, rw. Qed.

Lemma attach_disk_target (volume : Volume.t) (domain : option string)
    (rw : bool) (frontend : string) :
  xpath_child "target" (attach_disk volume domain rw frontend)
  = [Element "target" [("dev", frontend)] []].
Proof. by destruct domain, rw. Qed.

Lemma is_already_attached_true (XMLDesc : element) (volume : Volume.t) :
  Storage__is_already_attached XMLDesc volume = true
  ↔ ∃ source, source ∈ xpath ("source" :: disk_path) XMLDesc
              ∧ source_of volume source.
Proof.
  unfold Storage__is_already_attached. rewrite existsb_exists.
  split; intros (s & Hs & Hdev); exists s.
  - apply list_elem_of_In in Hs. by apply bool_decide_eq_true in Hdev.
  - split; [by apply list_elem_of_In | by apply bool_decide_eq_true].
Qed.

Lemma Storage_attach_submitted (is_running : bool) (XMLDesc : element)
    (volume : Volume.t) (domain : option string) (rw : bool) (disk : element) :
  attachDevice disk ∈ (Storage_attach is_running XMLDesc volume domain rw).1 →
  is_running = true
  ∧ Storage__is_already_attached XMLDesc volume = false
  ∧ ∃ frontend,
      least_unused (Storage_used_frontends (disk_targets XMLDesc)) frontend
      ∧ disk = attach_disk volume domain rw frontend.
Proof.
  unfold Storage_attach. destruct is_running; simpl; [|by intros ?%elem_of_nil].
  destruct (Storage__is_already_attached XMLDesc volume); simpl.
  { intros [? | ?%elem_of_nil]%elem_of_cons; done. }
  destruct (Storage_unused_frontend _) as [frontend|e] eqn:Hfree.
  - intros [[= ->] | ?%elem_of_nil]%elem_of_cons; [|done].
    split_and!; try done. exists frontend. by apply unused_frontend_Ok in Hfree.
  - destruct e; by intros ?%elem_of_nil.
Qed.

(** [attach] asserts that the domain runs.  On a running domain it submits
    nothing for a volume that is already attached; otherwise it submits one
    disk, whose target is the least slot of [xvda..xvdz] that no target of
    the description uses, or raises [StoragePoolException] when there is no
    such slot.  It never detaches, makes at most one call, and makes none
    when it raises. *)
Theorem Storage_attach_spec (is_running : bool) (XMLDesc : element)
    (volume : Volume.t) (domain : option string) (rw : bool) :
  let used := Storage_used_frontends (disk_targets XMLDesc) in
  let attached := Storage__is_already_attached XMLDesc volume in
  let out := Storage_attach is_running XMLDesc volume domain rw in
  (out.2 = Raise AssertionError ↔ is_running = false)
  ∧ (∀ msg, out.2 = Raise (StoragePoolException msg)
            ↔ msg = "No unused frontend found" ∧ is_running = true
              ∧ attached = false ∧ Storage_AVAILABLE_FRONTENDS ⊆ used)
  ∧ (out.2 = Ok tt
     ↔ is_running = true
       ∧ (attached = true ∨ ¬ Storage_AVAILABLE_FRONTENDS ⊆ used))
  ∧ (∀ disk, attachDevice disk ∈ out.1
             ↔ is_running = true ∧ attached = false
               ∧ ∃ frontend, least_unused used frontend
                             ∧ disk = attach_disk volume domain rw frontend)
  ∧ (∀ disk, detachDevice disk ∉ out.1)
  ∧ length out.1 ≤ 1
  ∧ (out.2 ≠ Ok tt → out.1 = []).
Proof.
  intros used attached out. subst out. unfold Storage_attach.
  fold used. fold attached.
  destruct is_running; simpl.
  2:{ split_and!.
      - done.
      - intros msg. split; [done | by intros (_ & ? & _)].
      - split; [done | by intros [? _]].
      - intros disk. split; [by intros ?%elem_of_nil | by intros [? _]].
      - intros disk ?%elem_of_nil. done.
      - lia.
      - done. }
  destruct attached eqn:Hatt; simpl.
  { split_and!.
    - done.
    - intros msg. split; [done | by intros (_ & _ & ? & _)].
    - split; [auto | done].
    - intros disk. split; [|by intros (_ & ? & _)].
      intros [? | ?%elem_of_nil]%elem_of_cons; done.
    - intros disk [? | ?%elem_of_nil]%elem_of_cons; done.
    - lia.
    - done. }
  destruct (Storage_unused_frontend used) as [frontend|e] eqn:Hfree.
  - apply unused_frontend_Ok in Hfree.
    assert (Hnot : ¬ Storage_AVAILABLE_FRONTENDS ⊆ used).
    { intros Hsub. destruct Hfree as (H1 & H2 & _). by apply Hsub in H1. }
    simpl. split_and!.
    + done.
    + intros msg. split; [done | by intros (_ & _ & _ & ?)].
    + split; [auto | done].
    + intros disk. split.
      * intros [[= ->] | ?%elem_of_nil]%elem_of_cons; [|done].
        split_and!; try done. by exists frontend.
      * intros (_ & _ & f & Hf & ->).
        assert (f = frontend) as ->.
        { apply unused_frontend_Ok in Hf, Hfree. congruence. }
        apply elem_of_cons; auto.
    + intros disk [? | ?%elem_of_nil]%elem_of_cons; done.
    + lia.
    + done.
  - apply unused_frontend_Raise in Hfree as [-> Hsub]. simpl.
    split_and!.
    + done.
    + intros msg. split; [by intros [= <-] | by intros [-> _]].
    + split; [done | intros [_ [? | ?]]; done].
    + intros disk. split; [by intros ?%elem_of_nil|].
      intros (_ & _ & f & (H1 & H2 & _) & _). by apply Hsub in H1.
    + intros disk ?%elem_of_nil. done.
    + lia.
    + done.
Qed.

Lemma detach_loop_spec (disks : list element) (volume : Volume.t) :
  (∀ calls, detach_loop disks volume = (calls, Ok tt)
            ↔ ∃ before disk after source,
                disks = before ++ disk :: after
                ∧ calls = [detachDevice disk]
                ∧ first_source disk = Some source ∧ source_of volume source
                ∧ Forall (other_disk volume) before)
  ∧ (∀ calls, detach_loop disks volume = (calls, Raise IndexError)
              ↔ calls = []
                ∧ ∃ before disk after,
                    disks = before ++ disk :: after
                    ∧ first_source disk = None
                    ∧ Forall (other_disk volume) before)
  ∧ (∀ calls msg,
       detach_loop disks volume = (calls, Raise (StoragePoolException msg))
       ↔ calls = []
         ∧ msg = "Volume " +:+ Volume__repr__ volume +:+ " is not attached"
         ∧ Forall (other_disk volume) disks)
  ∧ (∀ e, (detach_loop disks volume).2 = Raise e →
          e = IndexError ∨ ∃ msg, e = StoragePoolException msg).
Proof.
  induction disks as [|disk rest (IHok & IHidx & IHspe & IHexn)].
  { simpl. split_and!.
    - intros calls. split; [done|].
      intros ([|??] & ? & ? & ? & ? & _); done.
    - intros calls. split; [done|].
      intros (_ & [|??] & ? & ? & ? & _); done.
    - intros calls msg. split.
      + intros [= <- <-]. by split_and!.
      + by intros (-> & -> & _).
    - intros e [= <-]. right. by eexists. }
  simpl. unfold first_source in *.
  destruct (xpath_child "source" disk) as [|source others] eqn:Hsrc.
  { split_and!.
    - intros calls. split; [done|].
      intros ([|d before] & d' & after & s & Heq & _ & Hfirst & _ & Hbefore).
      + injection Heq as <- _. unfold first_source in Hfirst.
        by rewrite Hsrc in Hfirst.
      + injection Heq as <- _. apply Forall_cons in Hbefore as [(s' & Hs' & _) _].
        unfold first_source in Hs'. by rewrite Hsrc in Hs'.
    - intros calls. split.
      + intros [= <-]. split; [done|]. exists [], disk, rest.
        split_and!; try done. unfold first_source. by rewrite Hsrc.
      + intros (-> & _). done.
    - intros calls msg. split; [done|].
      intros (_ & _ & [(s' & Hs' & _) _]%Forall_cons).
      unfold first_source in Hs'. by rewrite Hsrc in Hs'.
    - intros e [= <-]. by left. }
  case_bool_decide as Hdev.
  { split_and!.
    - intros calls. split.
      + intros [= <-]. exists [], disk, rest, source.
        split_and!; try done. unfold first_source. by rewrite Hsrc.
      + intros ([|d before] & d' & after & s & Heq & -> & Hfirst & _ & Hbefore).
        * by injection Heq as <- _.
        * injection Heq as <- _.
          apply Forall_cons in Hbefore as [(s' & Hs' & Hn) _].
          unfold first_source in Hs'. rewrite Hsrc in Hs'.
          injection Hs' as <-. done.
    - intros calls. split; [done|].
      intros (_ & [|d before] & d' & after & Heq & Hfirst & Hbefore).
      + injection Heq as <- _. unfold first_source in Hfirst.
        by rewrite Hsrc in Hfirst.
      + injection Heq as <- _.
        apply Forall_cons in Hbefore as [(s' & Hs' & Hn) _].
        unfold first_source in Hs'. rewrite Hsrc in Hs'.
        injection Hs' as <-. done.
    - intros calls msg. split; [done|].
      intros (_ & _ & [(s' & Hs' & Hn) _]%Forall_cons).
      unfold first_source in Hs'. rewrite Hsrc in Hs'.
      injection Hs' as <-. done.
    - done. }
  assert (Hother : other_disk volume disk).
  { exists source. unfold first_source. by rewrite Hsrc. }
  split_and!.
  - intros calls. rewrite IHok. split.
    + intros (before & d & after & s & -> & -> & Hfirst & Hs & Hbefore).
      exists (disk :: before), d, after, s. split_and!; try done.
      by constructor.
    + intros ([|d0 before] & d & after & s & Heq & -> & Hfirst & Hs & Hbefore).
      * injection Heq as <- _. unfold first_source in Hfirst.
        rewrite Hsrc in Hfirst. injection Hfirst as <-. done.
      * injection Heq as <- ->. apply Forall_cons in Hbefore as [_ Hbefore].
        by exists before, d, after, s.
  - intros calls. rewrite IHidx. split.
    + intros (-> & before & d & after & -> & Hfirst & Hbefore).
      split; [done|]. exists (disk :: before), d, after. split_and!; try done.
      by constructor.
    + intros (-> & [|d0 before] & d & after & Heq & Hfirst & Hbefore).
      * injection Heq as <- _. unfold first_source in Hfirst.
        by rewrite Hsrc in Hfirst.
      * injection Heq as <- ->. apply Forall_cons in Hbefore as [_ Hbefore].
        split; [done|]. by exists before, d, after.
  - intros calls msg. rewrite IHspe. split.
    + intros (-> & -> & Hall). split_and!; try done. by constructor.
    + intros (-> & -> & [_ Hall]%Forall_cons). done.
  - done.
Qed.

(** [detach] submits the first disk of the description whose first source
    names the volume, provided every disk before it has a source.  A disk
    without any source that comes first makes it raise [IndexError]; it
    reports that the volume is not attached exactly when every disk has a
    first source and none names the volume.  When it submits a disk, the
    volume counts as attached; it never attaches, and makes no call when it
    raises. *)
Theorem Storage_detach_spec (XMLDesc : element) (volume : Volume.t) :
  let disks := xpath disk_path XMLDesc in
  let out := Storage_detach XMLDesc volume in
  (∀ calls, out = (calls, Ok tt)
            ↔ ∃ before disk after source,
                disks = before ++ disk :: after
                ∧ calls = [detachDevice disk]
                ∧ first_source disk = Some source ∧ source_of volume source
                ∧ Forall (other_disk volume) before)
  ∧ (out = ([], Raise IndexError)
     ↔ ∃ before disk after,
         disks = before ++ disk :: after
         ∧ first_source disk = None
         ∧ Forall (other_disk volume) before)
  ∧ (out = ([], Raise (StoragePoolException
                         ("Volume " +:+ Volume__repr__ volume
                          +:+ " is not attached")))
     ↔ Forall (other_disk volume) disks)
  ∧ (∀ e, out.2 = Raise e →
          out.1 = []
          ∧ (e = IndexError
             ∨ e = StoragePoolException
                     ("Volume " +:+ Volume__repr__ volume
                      +:+ " is not attached")))
  ∧ (out.2 = Ok tt → Storage__is_already_attached XMLDesc volume = true)
  ∧ (∀ disk, attachDevice disk ∉ out.1).
Proof.
  intros disks out. subst out. unfold Storage_detach. fold disks.
  destruct (detach_loop disks volume) as [calls r] eqn:Hout.
  destruct (detach_loop_spec disks volume) as (Hok & Hidx & Hspe & Hexn).
  rewrite Hout in Hexn. simpl in Hexn. simpl.
  split_and!.
  - intros calls'. rewrite <- Hok, Hout. done.
  - rewrite <- Hout, Hidx. split; [by intros [_ ?] | done].
  - rewrite <- Hout, Hspe. split; [by intros (_ & _ & ?) | done].
  - intros e ->. destruct (Hexn e eq_refl) as [-> | [msg ->]].
    + apply Hidx in Hout as [-> _]. auto.
    + apply Hspe in Hout as (-> & -> & _). auto.
  - intros ->.
    apply Hok in Hout as (before & disk & after & s & Hd & _ & Hfirst & Hs & _).
    apply is_already_attached_true. exists s. split; [|done].
    apply (xpath_from_child _ _ _ _ disk).
    + fold (xpath disk_path XMLDesc). fold disks. rewrite Hd.
      apply elem_of_app. right. apply elem_of_cons. auto.
    + unfold first_source in Hfirst.
      destruct (xpath_child "source" disk) as [|s' ?] eqn:Hsrc; [done|].
      injection Hfirst as ->. apply elem_of_cons. auto.
  - intros disk Hin. destruct r as [[]|e].
    + apply Hok in Hout as (? & ? & ? & ? & _ & -> & _).
      apply elem_of_cons in Hin as [? | ?%elem_of_nil]; done.
    + destruct (Hexn e eq_refl) as [-> | [msg ->]].
      * apply Hidx in Hout as [-> _]. by apply elem_of_nil in Hin.
      * apply Hspe in Hout as (-> & _). by apply elem_of_nil in Hin.
Qed.

(** Once the disk [attach] built is among the disks of the description,
    the volume counts as attached and its slot as used: attaching the
    volume again submits nothing, no other volume is given the same slot,
    and [detach] does not report the volume as not attached. *)
Theorem Storage_attach_then (XMLDesc : element) (volume : Volume.t)
    (domain : option string) (rw : bool) (frontend : string) :
  attach_disk volume domain rw frontend ∈ xpath disk_path XMLDesc →
  Storage__is_already_attached XMLDesc volume = true
  ∧ frontend ∈ Storage_used_frontends (disk_targets XMLDesc)
  ∧ (∀ domain' rw',
       Storage_attach true XMLDesc volume domain' rw'
       = ([log_info_call (Volume__repr__ volume +:+ " already attached")],
          Ok tt))
  ∧ (∀ is_running volume' domain' rw' disk,
       attachDevice disk
         ∈ (Storage_attach is_running XMLDesc volume' domain' rw').1 →
       xpath_child "target" disk ≠ [Element "target" [("dev", frontend)] []])
  ∧ ∀ msg, (Storage_detach XMLDesc volume).2 ≠ Raise (StoragePoolException msg).
Proof.
  intros Hdisk.
  assert (Hatt : Storage__is_already_attached XMLDesc volume = true).
  { apply is_already_attached_true.
    exists (Element "source" [("dev", dev_of volume)] []). split; [|done].
    apply (xpath_from_child _ _ _ _ _ _ Hdisk).
    rewrite attach_disk_source. apply elem_of_cons. auto. }
  assert (Hused : frontend ∈ Storage_used_frontends (disk_targets XMLDesc)).
  { unfold Storage_used_frontends, disk_targets.
    apply elem_of_list_to_set, list_elem_of_omap. exists (Some frontend).
    split; [|done].
    apply (list_elem_of_fmap_2' _ _ (Element "target" [("dev", frontend)] []));
      [|done].
    apply (xpath_from_child _ _ _ _ _ _ Hdisk).
    rewrite attach_disk_target. apply elem_of_cons. auto. }
  split_and!.
  - done.
  - done.
  - intros domain' rw'. unfold Storage_attach. by rewrite Hatt.
  - intros is_running volume' domain' rw' disk Hin Htarget.
    apply Storage_attach_submitted in Hin as (_ & _ & f & (_ & Hf & _) & ->).
    rewrite attach_disk_target in Htarget. by injection Htarget as ->.
  - intros msg Hr. unfold Storage_detach in Hr.
    destruct (detach_loop (xpath disk_path XMLDesc) volume) as [calls r] eqn:Hout.
    simpl in Hr. subst r.
    apply detach_loop_spec in Hout as (_ & _ & Hall).
    rewrite Forall_forall in Hall.
    destruct (Hall _ Hdisk) as (s & Hs & Hn). apply Hn.
    unfold first_source in Hs. rewrite attach_disk_source in Hs.
    by injection Hs as <-.
Qed.

Lemma Storage_attach_then_witness :
  attach_disk work_private None true "xvdb" ∈ xpath disk_path work_XMLDesc_attached
  ∧ Storage__is_already_attached work_XMLDesc_attached work_private = true
  ∧ Storage_detach work_XMLDesc_attached work_private = ([], Raise IndexError).
Proof.
  assert (Hdisk : attach_disk work_private None true "xvdb"
                    ∈ xpath disk_path work_XMLDesc_attached).
  { vm_compute. do 2 apply list_elem_of_further. apply list_elem_of_here. }
  split_and!; [done | | by vm_compute].
  by pose proof (Storage_attach_then _ _ _ _ _ Hdisk) as (? & _).
Defined.

(** ** The source volume of a snapshot *)

Lemma with_source_lookup (source : Volume.t) (cfg : gmap string object)
    (key : string) :
  with_source source cfg !! key
  = if String.eqb key "size" then Some (OInt (Volume_size source))
    else if String.eqb key "pool" then Some (OPool (Volume.pool source))
    else if String.eqb key "source" then Some (OVolume source)
    else cfg !! key.
Proof.
  unfold with_source.
  destruct (String.eqb_spec key "size") as [->|?];
    [by rewrite lookup_insert_eq | rewrite lookup_insert_ne by done].
  destruct (String.eqb_spec key "pool") as [->|?];
    [by rewrite lookup_insert_eq | rewrite lookup_insert_ne by done].
  destruct (String.eqb_spec key "source") as [->|?];
    [by rewrite lookup_insert_eq | by rewrite lookup_insert_ne].
Qed.

Lemma with_source_twice (s s' : Volume.t) (cfg : gmap string object) :
  with_source s (with_source s' cfg) = with_source s cfg.
Proof.
  apply map_eq. intros key. rewrite !with_source_lookup.
  by repeat destruct (String.eqb key _).
Qed.

Lemma update_source_passes (before rest : list VM.t) (name : string)
    (cfg : gmap string object) :
  Forall (passes_on name) before →
  _update_volume_config_source (before ++ rest) name cfg
  = _update_volume_config_source rest name (through name before cfg).
Proof.
  intros Hbefore. revert cfg.
  induction Hbefore as [|t before (v & s & Hv & Hs) _ IH]; intros cfg; [done|].
  simpl. unfold dict_getitem. rewrite Hv, Hs.
  fold (with_source v cfg). by rewrite IH.
Qed.

Lemma through_last (before : list VM.t) (name : string)
    (cfg : gmap string object) (template : VM.t) (volume : Volume.t) :
  dict_get (VM.volumes template) name = Some volume →
  through name (before ++ [template]) cfg = with_source volume cfg.
Proof.
  intros Hv. revert cfg. induction before as [|t before IH]; intros cfg; simpl.
  - by rewrite Hv.
  - rewrite IH. destruct (dict_get (VM.volumes t) name); [|done].
    apply with_source_twice.
Qed.

Lemma through_lookup (before : list VM.t) (name : string)
    (cfg : gmap string object) (key : string) :
  key ≠ "source" → key ≠ "pool" → key ≠ "size" →
  through name before cfg !! key = cfg !! key.
Proof.
  intros H1 H2 H3. revert cfg.
  induction before as [|t before IH]; intros cfg; simpl; [done|].
  rewrite IH. destruct (dict_get (VM.volumes t) name); [|done].
  rewrite with_source_lookup.
  by rewrite (proj2 (String.eqb_neq _ _) H1), (proj2 (String.eqb_neq _ _) H2),
    (proj2 (String.eqb_neq _ _) H3).
Qed.

(** The loop stops at the first template whose volume of that name has no
    source of its own, or at the last template of the chain: the volume
    found there becomes the source, and its pool and size the pool and the
    size.  No other key is touched.  A snapshot volume built in that pool
    from that source passes the checks of [Volume.__init__]. *)
Theorem update_volume_config_source_resolves (before after : list VM.t)
    (template : VM.t) (name : string) (source : Volume.t)
    (volume_config : gmap string object) :
  Forall (passes_on name) before →
  dict_get (VM.volumes template) name = Some source →
  Volume.source source = None ∨ after = [] →
  let out := _update_volume_config_source (before ++ template :: after) name
               volume_config in
  out = (with_source source volume_config, Ok tt)
  ∧ out.1 !! "source" = Some (OVolume source)
  ∧ out.1 !! "pool" = Some (OPool (Volume.pool source))
  ∧ out.1 !! "size" = Some (OInt (Volume_size source))
  ∧ (∀ key, key ≠ "source" → key ≠ "pool" → key ≠ "size" →
            out.1 !! key = volume_config !! key)
  ∧ (∀ pool src,
       out.1 !! "pool" = Some (OPool pool) →
       out.1 !! "source" = Some (OVolume src) →
       ∀ name' vid revisions_to_keep rw save_on_stop size,
         Volume__init__ name' pool vid revisions_to_keep rw save_on_stop size
           true (Some src)
         = Ok (Volume.mk name' pool vid revisions_to_keep rw save_on_stop size
                 true (Some src))).
Proof.
  intros Hbefore Hsource Hstop out.
  assert (Hout : out = (with_source source volume_config, Ok tt)).
  { subst out. rewrite update_source_passes by done. simpl.
    unfold dict_getitem. rewrite Hsource.
    fold (with_source source (through name before volume_config)).
    assert (Hcfg : with_source source (through name before volume_config)
                   = with_source source volume_config).
    { rewrite <- (through_last before name volume_config template source Hsource).
      rewrite <- (through_last [] name (through name before volume_config)
                    template source Hsource).
      unfold through. simpl. by rewrite foldl_app. }
    rewrite Hcfg.
    destruct Hstop as [-> | ->]; [done|]. by destruct (Volume.source source). }
  rewrite Hout. simpl. rewrite !with_source_lookup. simpl.
  split_and!; try done.
  - intros key H1 H2 H3. rewrite with_source_lookup.
    by rewrite (proj2 (String.eqb_neq _ _) H1), (proj2 (String.eqb_neq _ _) H2),
      (proj2 (String.eqb_neq _ _) H3).
  - intros pool src [= <-] [= <-] *. unfold Volume__init__. simpl.
    assert (Pool_eq (Volume.pool source) (Volume.pool source) = true) as ->; [|done].
    unfold Pool_eq. simpl. by rewrite String.eqb_refl.
Qed.

(** A template of the chain without a volume of that name makes the lookup
    raise [KeyError].  The dictionary keeps what the templates before it
    have written: the volume of the template just before, or nothing when
    the first template is the one without the volume. *)
Theorem update_volume_config_source_KeyError (before after : list VM.t)
    (template : VM.t) (name : string) (volume_config : gmap string object) :
  Forall (passes_on name) before →
  dict_get (VM.volumes template) name = None →
  let out := _update_volume_config_source (before ++ template :: after) name
               volume_config in
  out.2 = Raise (KeyError (OStr name))
  ∧ (before = [] → out.1 = volume_config)
  ∧ (∀ previous volume,
       last before = Some previous →
       dict_get (VM.volumes previous) name = Some volume →
       out.1 = with_source volume volume_config).
Proof.
  intros Hbefore Hnone out. subst out.
  rewrite update_source_passes by done. simpl.
  unfold dict_getitem. rewrite Hnone. simpl.
  split_and!; [done | by intros -> |].
  intros previous volume Hlast Hvolume.
  apply last_Some in Hlast as [before' ->]. by apply through_last.
Qed.

(** Whatever the chain: the call returns or raises [KeyError] for the name;
    it writes no key but [source], [pool] and [size]; and what it leaves in
    the dictionary is what it was given, or what one volume of that name of
    a template of the chain puts there. *)
Theorem update_volume_config_source_keeps (templates : list VM.t)
    (name : string) (volume_config : gmap string object) :
  let out := _update_volume_config_source templates name volume_config in
  (out.2 = Ok tt ∨ out.2 = Raise (KeyError (OStr name)))
  ∧ (∀ key, key ≠ "source" → key ≠ "pool" → key ≠ "size" →
            out.1 !! key = volume_config !! key)
  ∧ (out.1 = volume_config
     ∨ ∃ template volume,
         template ∈ templates
         ∧ dict_get (VM.volumes template) name = Some volume
         ∧ out.1 = with_source volume volume_config)
  ∧ (templates = [] → out = (volume_config, Ok tt)).
Proof.
  simpl. revert volume_config.
  induction templates as [|t rest IH]; intros cfg; simpl.
  { split_and!; auto. }
  unfold dict_getitem.
  destruct (dict_get (VM.volumes t) name) as [v|] eqn:Hv; simpl.
  2:{ split_and!; auto. done. }
  fold (with_source v cfg).
  destruct (Volume.source v) as [s|]; simpl.
  - destruct (IH (with_source v cfg)) as (Hr & Hkeys & Hcfg & _).
    split_and!; [done | | | done].
    + intros key H1 H2 H3. rewrite Hkeys, with_source_lookup by done.
      by rewrite (proj2 (String.eqb_neq _ _) H1),
        (proj2 (String.eqb_neq _ _) H2), (proj2 (String.eqb_neq _ _) H3).
    + right. destruct Hcfg as [-> | (t' & v' & Ht' & Hv' & ->)].
      * exists t, v. split_and!; [apply elem_of_cons; auto | done | done].
      * exists t', v'. rewrite with_source_twice.
        split_and!; [apply elem_of_cons; auto | done | done].
  - split_and!; [auto | | | done].
    + intros key H1 H2 H3. rewrite with_source_lookup.
      by rewrite (proj2 (String.eqb_neq _ _) H1),
        (proj2 (String.eqb_neq _ _) H2), (proj2 (String.eqb_neq _ _) H3).
    + right. exists t, v. split_and!; [apply elem_of_cons; auto | done | done].
Qed.

Lemma update_volume_config_source_resolves_witness :
  _update_volume_config_source [work_vm; fedora_vm] "root" disp_root_config
  = (with_source template_root disp_root_config, Ok tt).
Proof.
  apply (update_volume_config_source_resolves [work_vm] [] fedora_vm "root"
           template_root disp_root_config).
  - apply Forall_singleton. by exists work_root, template_root.
  - done.
  - by left.
Defined.

Lemma update_volume_config_source_KeyError_witness :
  _update_volume_config_source [work_vm; bare_vm] "root" disp_root_config
  = (with_source work_root disp_root_config, Raise (KeyError (OStr "root"))).
Proof.
  pose proof (update_volume_config_source_KeyError [work_vm] [] bare_vm "root"
                disp_root_config) as Hthm.
  destruct Hthm as (Hraise & _ & Hcfg).
  - apply Forall_singleton. by exists work_root, template_root.
  - done.
  - specialize (Hcfg work_vm work_root eq_refl eq_refl).
    destruct (_update_volume_config_source _ _ _) as [cfg r].
    simpl in *. by subst.
Defined.

(** ** Strings *)

Lemma str_app_nil_r (s : string) : s +:+ "" = s.
Proof. induction s as [|c s IH]; [done|]. by rewrite <- IH at 2. Qed.

Lemma str_app_assoc (a b c : string) : (a +:+ b) +:+ c = a +:+ (b +:+ c).
Proof.
  induction a as [|d a IH]; [done|].
  change (String d ((a +:+ b) +:+ c) = String d (a +:+ (b +:+ c))).
  by rewrite IH.
Qed.

Lemma str_app_String (c : Ascii.ascii) (s t : string) :
  String c s +:+ t = String c (s +:+ t).
Proof. done. Qed.

Lemma prefix_char (c d : Ascii.ascii) (rest : string) :
  String.prefix (String c "") (String d rest) = bool_decide (c = d).
Proof.
  simpl. destruct (Ascii.ascii_dec c d); case_bool_decide; try done.
  by destruct rest.
Qed.

Lemma str_in_char_cons (c d : Ascii.ascii) (s : string) :
  str_in (String c "") (String d s)
  = bool_decide (c = d) || str_in (String c "") s.
Proof.
  change (str_in (String c "") (String d s))
    with (String.prefix (String c "") (String d s) || str_in (String c "") s).
  by rewrite prefix_char.
Qed.

Lemma str_in_char_app (c : Ascii.ascii) (a b : string) :
  str_in (String c "") (a +:+ b)
  = str_in (String c "") a || str_in (String c "") b.
Proof.
  induction a as [|d a IH]; [done|].
  rewrite str_app_String, !str_in_char_cons, IH. by rewrite orb_assoc.
Qed.

Lemma str_rev_app (a b : string) : str_rev (a +:+ b) = str_rev b +:+ str_rev a.
Proof.
  induction a as [|d a IH]; simpl.
  - by rewrite str_app_nil_r.
  - by rewrite IH, str_app_assoc.
Qed.

Lemma str_rev_involutive (s : string) : str_rev (str_rev s) = s.
Proof.
  induction s as [|c s IH]; [done|]. simpl. by rewrite str_rev_app, IH.
Qed.

Lemma str_in_char_rev (c : Ascii.ascii) (s : string) :
  str_in (String c "") (str_rev s) = str_in (String c "") s.
Proof.
  induction s as [|d s IH]; [done|].
  change (str_rev (String d s)) with (str_rev s +:+ String d "").
  rewrite str_in_char_app, IH, !str_in_char_cons.
  change (str_in (String c "") "") with false.
  by rewrite orb_false_r, orb_comm.
Qed.

(** *** [split] at a character *)

Lemma str_split_char_cons (c d : Ascii.ascii) (m : option nat) (rest : string) :
  str_split (String c "") m (String d rest)
  = if bool_decide (c = d) && negb (bool_decide (m = Some 0))
    then "" :: str_split (String c "") (Nat.pred <$> m) rest
    else match str_split (String c "") m rest with
         | piece :: pieces => String d piece :: pieces
         | [] => [String d ""]
         end.
Proof.
  unfold str_split.
  change (str_split_from (String c "") 0 m (String d rest))
    with (if String.prefix (String c "") (String d rest)
             && negb (bool_decide (m = Some 0))
          then "" :: str_split_from (String c "") 0 (Nat.pred <$> m) rest
          else match str_split_from (String c "") 0 m rest with
               | piece :: pieces => String d piece :: pieces
               | [] => [String d ""]
               end).
  by rewrite prefix_char.
Qed.

Lemma str_split_from_zero (sep s : string) :
  str_split_from sep 0 (Some 0) s = [s].
Proof.
  induction s as [|c s IH]; [done|]. simpl.
  rewrite IH. by rewrite andb_false_r.
Qed.

Lemma str_split_char_none (c : Ascii.ascii) (m : option nat) (a : string) :
  str_in (String c "") a = false →
  str_split (String c "") m a = [a].
Proof.
  induction a as [|d a IH]; [done|].
  rewrite str_in_char_cons. intros [Hd Ha]%orb_false_iff.
  rewrite str_split_char_cons, Hd, IH by done. done.
Qed.

Lemma str_split_char_app (c : Ascii.ascii) (m : option nat) (a rest : string) :
  str_in (String c "") a = false →
  m ≠ Some 0 →
  str_split (String c "") m (a +:+ String c rest)
  = a :: str_split (String c "") (Nat.pred <$> m) rest.
Proof.
  intros Ha Hm. induction a as [|d a IH].
  - change ("" +:+ String c rest) with (String c rest).
    rewrite str_split_char_cons.
    by rewrite bool_decide_eq_true_2, (bool_decide_eq_false_2 _ Hm).
  - rewrite str_in_char_cons in Ha. apply orb_false_iff in Ha as [Hd Ha].
    rewrite str_app_String, str_split_char_cons, Hd, IH by done. done.
Qed.

(** *** [replace] of hyphens *)

Lemma str_replace_char_cons (c : Ascii.ascii) (new : string) (d : Ascii.ascii)
    (s : string) :
  str_replace (String c "") new (String d s)
  = if bool_decide (c = d) then new +:+ str_replace (String c "") new s
    else String d (str_replace (String c "") new s).
Proof.
  unfold str_replace.
  change (str_replace_from (String c "") new 0 (String d s))
    with (if String.prefix (String c "") (String d s)
          then new +:+ str_replace_from (String c "") new 0 s
          else String d (str_replace_from (String c "") new 0 s)).
  by rewrite prefix_char.
Qed.

Lemma str_replace_pair_hit (c : Ascii.ascii) (new s : string) :
  str_replace (String c (String c "")) new (String c (String c s))
  = new +:+ str_replace (String c (String c "")) new s.
Proof.
  unfold str_replace. simpl.
  destruct (Ascii.ascii_dec c c) as [_|Hne]; [by destruct s | by destruct Hne].
Qed.

Lemma str_replace_pair_miss (c d : Ascii.ascii) (new s : string) :
  String.prefix (String c (String c "")) (String d s) = false →
  str_replace (String c (String c "")) new (String d s)
  = String d (str_replace (String c (String c "")) new s).
Proof.
  intros Hp. unfold str_replace.
  change (str_replace_from (String c (String c "")) new 0 (String d s))
    with (if String.prefix (String c (String c "")) (String d s)
          then new +:+ str_replace_from (String c (String c "")) new 1 s
          else String d (str_replace_from (String c (String c "")) new 0 s)).
  by rewrite Hp.
Qed.

(** Undoing the doubling: every doubled occurrence of [c] becomes [new]. *)
Lemma str_replace_doubled (c : Ascii.ascii) (new s t : string) :
  str_replace (String c (String c "")) new
    (str_replace (String c "") (String c (String c "")) s +:+ t)
  = str_replace (String c "") new s
    +:+ str_replace (String c (String c "")) new t.
Proof.
  induction s as [|d s IH]; [done|].
  rewrite !str_replace_char_cons. destruct (decide (c = d)) as [<-|Hd].
  - rewrite !bool_decide_eq_true_2 by done. rewrite str_app_assoc.
    change (String c (String c "")
            +:+ (str_replace (String c "") (String c (String c "")) s +:+ t))
      with (String c (String c
              (str_replace (String c "") (String c (String c "")) s +:+ t))).
    by rewrite str_replace_pair_hit, IH, str_app_assoc.
  - rewrite !bool_decide_eq_false_2 by done.
    rewrite !str_app_String, str_replace_pair_miss, IH; [done|].
    simpl. by destruct (Ascii.ascii_dec c d).
Qed.

Lemma str_replace_char_back (c e : Ascii.ascii) (s : string) :
  str_in (String e "") s = false →
  str_replace (String e "") (String c "")
    (str_replace (String c "") (String e "") s) = s.
Proof.
  induction s as [|d s IH]; [done|].
  rewrite str_in_char_cons. intros [Hd Hs]%orb_false_iff.
  rewrite str_replace_char_cons. destruct (decide (c = d)) as [<-|Hc].
  - rewrite bool_decide_eq_true_2 by done.
    change (String e "" +:+ ?x) with (String e x).
    rewrite str_replace_char_cons, bool_decide_eq_true_2 by done.
    by rewrite IH.
  - rewrite bool_decide_eq_false_2 by done.
    rewrite str_replace_char_cons, Hd. by rewrite IH.
Qed.

Lemma str_replace_char_gone (c e : Ascii.ascii) (s : string) :
  c ≠ e →
  str_in (String c "") (str_replace (String c "") (String e "") s) = false.
Proof.
  intros Hne. induction s as [|d s IH]; [done|].
  rewrite str_replace_char_cons. destruct (decide (c = d)) as [<-|Hc].
  - rewrite bool_decide_eq_true_2 by done.
    change (String e "" +:+ ?x) with (String e x).
    by rewrite str_in_char_cons, IH, bool_decide_eq_false_2.
  - rewrite bool_decide_eq_false_2 by done.
    by rewrite str_in_char_cons, IH, bool_decide_eq_false_2.
Qed.

(** *** [rstrip] and [endswith] *)

Lemma str_endswith_app (a b : string) : str_endswith (a +:+ b) b = true.
Proof.
  induction a as [|d a IH].
  - destruct b; simpl; by rewrite ?String.eqb_refl, ?Ascii.eqb_refl.
  - rewrite str_app_String. simpl. rewrite IH. apply orb_true_r.
Qed.

Lemma str_rstrip_app_keep (chars a b : string) :
  str_rstrip chars b ≠ "" →
  str_rstrip chars (a +:+ b) = a +:+ str_rstrip chars b.
Proof.
  intros Hb. induction a as [|d a IH]; [done|].
  rewrite !str_app_String. simpl. rewrite IH.
  destruct (a +:+ str_rstrip chars b) eqn:Hab; [|done].
  by destruct a.
Qed.

Lemma str_rstrip_app_drop (chars a b : string) :
  str_rstrip chars b = "" →
  str_rstrip chars (a +:+ b) = str_rstrip chars a.
Proof.
  intros Hb. induction a as [|d a IH]; [done|].
  rewrite str_app_String. simpl. by rewrite IH.
Qed.

(** ** The probe of the thin pool *)

Lemma str_split_sep_app (c : Ascii.ascii) (m : option nat) (a rest : string) :
  str_in (String c "") a = false →
  m ≠ Some 0 →
  str_split (String c "") m (a +:+ String c "" +:+ rest)
  = a :: str_split (String c "") (Nat.pred <$> m) rest.
Proof. apply str_split_char_app. Qed.

Lemma fs_minor_mod (st_dev : Z) : fs_minor st_dev = (st_dev mod 256)%Z.
Proof.
  unfold fs_minor. change 255%Z with (Z.ones 8). by rewrite Z.land_ones.
Qed.

Lemma fs_major_mod (st_dev : Z) : fs_major st_dev = ((st_dev / 256) mod 256)%Z.
Proof.
  unfold fs_major. rewrite Z.shiftr_land.
  change (Z.shiftr 65280 8) with (Z.ones 8).
  rewrite Z.land_ones, Z.shiftr_div_pow2 by done. done.
Qed.

(** The query to [dmsetup] is made with the bits 8 to 15 of [st_dev] as the
    major number and the bits 0 to 7 as the minor number: both are below
    256, and two devices are asked about in the same words exactly when
    their [st_dev] agree in the low 16 bits. *)
Theorem dmsetup_argv_low_bits (uid st_dev : Z) :
  fs_major st_dev = ((st_dev / 256) mod 256)%Z
  ∧ fs_minor st_dev = (st_dev mod 256)%Z
  ∧ (0 ≤ fs_major st_dev < 256)%Z
  ∧ (0 ≤ fs_minor st_dev < 256)%Z
  ∧ (∀ st_dev',
       dmsetup_argv uid st_dev = dmsetup_argv uid st_dev'
       ↔ (st_dev mod 65536 = st_dev' mod 65536)%Z).
Proof.
  assert (Hlow : ∀ x : Z,
            (x mod 65536 = x mod 256 + 256 * ((x / 256) mod 256))%Z).
  { intros x. by rewrite <- (Z.rem_mul_r x 256 256). }
  split; [apply fs_major_mod|]. split; [apply fs_minor_mod|].
  split; [rewrite fs_major_mod; by apply Z.mod_pos_bound|].
  split; [rewrite fs_minor_mod; by apply Z.mod_pos_bound|].
  intros st_dev'. unfold dmsetup_argv.
  rewrite !fs_major_mod, !fs_minor_mod, !Hlow. split.
  - intros Heq. apply app_inv_head in Heq.
    injection Heq as Hmajor Hminor.
    apply py_str_int_inj in Hmajor, Hminor. by rewrite Hmajor, Hminor.
  - intros Heq.
    pose proof (Z.mod_pos_bound st_dev 256 eq_refl).
    pose proof (Z.mod_pos_bound st_dev' 256 eq_refl).
    pose proof (Z.mod_pos_bound (st_dev / 256) 256 eq_refl).
    pose proof (Z.mod_pos_bound (st_dev' / 256) 256 eq_refl).
    assert ((st_dev mod 256 = st_dev' mod 256)%Z) as -> by lia.
    assert (((st_dev / 256) mod 256 = (st_dev' / 256) mod 256)%Z) as ->
      by lia.
    done.
Qed.

Lemma prefix_cons_cons (c d : Ascii.ascii) (p s : string) :
  String.prefix (String c p) (String d s)
  = bool_decide (c = d) && String.prefix p s.
Proof.
  change (String.prefix (String c p) (String d s))
    with (match Ascii.ascii_dec c d with
          | left _ => String.prefix p s
          | right _ => false
          end).
  destruct (Ascii.ascii_dec c d); by case_bool_decide.
Qed.

Lemma str_replace_after_hyphen (tp : string) :
  tp ≠ "" →
  String.prefix "-" tp = false →
  str_replace "--" "=" ("-" +:+ str_replace "-" "--" tp +:+ "-tpool")
  = "-" +:+ str_replace "-" "=" tp +:+ "-tpool".
Proof.
  destruct tp as [|d tp]; [done|]. intros _ Hp.
  rewrite prefix_char in Hp. apply bool_decide_eq_false in Hp.
  rewrite !str_replace_char_cons, !bool_decide_eq_false_2 by done.
  rewrite !str_app_String.
  change ("" +:+ ?x) with x.
  rewrite str_replace_pair_miss.
  2:{ rewrite !prefix_cons_cons, (bool_decide_eq_false_2 _ Hp).
      by destruct (bool_decide _). }
  rewrite str_replace_pair_miss.
  2:{ by rewrite !prefix_cons_cons, (bool_decide_eq_false_2 _ Hp). }
  by rewrite str_replace_doubled.
Qed.

Lemma str_rsplit_tpool (a b : string) :
  str_in "-" b = false →
  str_rsplit "-" (Some 2) (a +:+ "-" +:+ b +:+ "-tpool") = [a; b; "tpool"].
Proof.
  intros Hb. unfold str_rsplit.
  rewrite !str_rev_app.
  change (str_rev "-tpool") with ("loopt" +:+ "-").
  change (str_rev "-") with "-".
  rewrite !str_app_assoc.
  rewrite str_split_sep_app by done. simpl.
  rewrite str_split_sep_app by (by rewrite ?str_in_char_rev).
  simpl. unfold str_split. rewrite str_split_from_zero. simpl.
  by rewrite !str_rev_involutive.
Qed.

Lemma thin_pool_of_dm_tpool_name (vg tp trailing : string) :
  str_in "=" vg = false →
  str_in "=" tp = false →
  tp ≠ "" →
  String.prefix "-" tp = false →
  str_rstrip LF trailing = "" →
  thin_pool_of_name (dm_tpool_name vg tp +:+ trailing) = Ok (Some (vg, tp)).
Proof.
  intros Hvg Htp Hne Hp Htrail. unfold thin_pool_of_name, dm_tpool_name.
  rewrite str_rstrip_app_drop by done.
  assert (Hname : str_replace "-" "--" vg +:+ "-" +:+ str_replace "-" "--" tp
                  +:+ "-tpool"
                  = (str_replace "-" "--" vg +:+ "-" +:+ str_replace "-" "--" tp)
                    +:+ "-tpool")
    by (by rewrite !str_app_assoc).
  assert (Hstrip : str_rstrip LF
                     (str_replace "-" "--" vg +:+ "-"
                      +:+ str_replace "-" "--" tp +:+ "-tpool")
                   = str_replace "-" "--" vg +:+ "-"
                     +:+ str_replace "-" "--" tp +:+ "-tpool").
  { rewrite Hname at 1. rewrite str_rstrip_app_keep by done.
    change (str_rstrip LF "-tpool") with "-tpool". by rewrite <- Hname. }
  rewrite Hstrip. rewrite Hname at 1. rewrite str_endswith_app.
  rewrite str_replace_doubled, str_replace_after_hyphen by done.
  rewrite str_rsplit_tpool by (by apply str_replace_char_gone).
  by rewrite !str_replace_char_back.
Qed.

(** LVM's naming undone.  A device named after the volume group [vg] and
    the thin pool [tp], followed by line feeds, is read back as [(vg, tp)],
    whatever hyphens the two names hold, provided neither holds an equals
    sign and [tp] is not empty and does not start with a hyphen.  A name
    that does not end in [-tpool] gives nothing. *)
Theorem thin_pool_of_name_roundtrip (vg tp trailing : string) :
  str_in "=" vg = false →
  str_in "=" tp = false →
  tp ≠ "" →
  String.prefix "-" tp = false →
  str_rstrip LF trailing = "" →
  thin_pool_of_name (dm_tpool_name vg tp +:+ trailing) = Ok (Some (vg, tp))
  ∧ ∀ content,
      str_endswith (str_rstrip LF content) "-tpool" = false →
      thin_pool_of_name content = Ok None.
Proof.
  intros Hvg Htp Hne Hp Htrail. split.
  - by apply thin_pool_of_dm_tpool_name.
  - intros content Hend. unfold thin_pool_of_name. by rewrite Hend.
Qed.

Lemma thin_pool_of_name_roundtrip_witness :
  thin_pool_of_name (dm_tpool_name "qubes_dom0" "vm-pool" +:+ LF)
  = Ok (Some ("qubes_dom0", "vm-pool")).
Proof.
  by apply (thin_pool_of_name_roundtrip "qubes_dom0" "vm-pool" LF).
Defined.

(** The probe, step by step.  For a directory on the device [st_dev] whose
    table reads [start sectors type args]: a type other than [thin] gives
    nothing; for [thin] with the arguments [devnum id], the outcome is what
    the name under [/sys/dev/block/devnum] gives, and nothing when the file
    cannot be read.  When [os.stat] or [dmsetup] fails, nothing is found. *)
Theorem DirectoryThinPool_probe_table (h : Host) (dir_path : list string)
    (st_dev : Z) (start sectors target_type target_args : string) :
  os_stat_st_dev h dir_path = Ok st_dev →
  check_output h (dmsetup_argv (os_getuid h) st_dev)
  = Ok (dm_table_line start sectors target_type target_args) →
  str_in " " start = false →
  str_in " " sectors = false →
  str_in " " target_type = false →
  (target_type ≠ "thin" → host_dm_thin_pool h dir_path = None)
  ∧ (∀ devnum id,
       target_type = "thin" →
       target_args = devnum +:+ " " +:+ id →
       str_in " " devnum = false →
       str_in " " id = false →
       host_dm_thin_pool h dir_path
       = match read_file h ("/sys/dev/block/" +:+ devnum +:+ "/dm/name") with
         | Ok content =>
             match thin_pool_of_name content with
             | Ok found => found
             | Raise _ => None
             end
         | Raise _ => None
         end)
  ∧ (target_type = "thin" → str_in " " target_args = false →
     host_dm_thin_pool h dir_path = None).
Proof.
  intros Hstat Htable Hstart Hsectors Htype.
  assert (Hsplit : str_split " " (Some 3)
                     (dm_table_line start sectors target_type target_args)
                   = [start; sectors; target_type; target_args]).
  { unfold dm_table_line.
    rewrite !str_split_sep_app by done. simpl.
    unfold str_split. by rewrite str_split_from_zero. }
  unfold host_dm_thin_pool, DirectoryThinPool_probe.
  rewrite Hstat, Htable. unfold thin_pool_of_table. rewrite Hsplit.
  split_and!.
  - intros Hne. by rewrite (proj2 (String.eqb_neq _ _) Hne).
  - intros devnum id -> -> Hdevnum Hid. simpl.
    rewrite str_split_sep_app by done. simpl.
    rewrite str_split_char_none by done.
    by destruct (read_file h _).
  - intros -> Hargs. simpl. by rewrite str_split_char_none.
Qed.

Lemma DirectoryThinPool_probe_table_witness :
  host_dm_thin_pool lvm_host ["var"; "lib"; "qubes"; "appvms"; "work"]
  = Some ("qubes_dom0", "vm-pool").
Proof.
  destruct (DirectoryThinPool_probe_table lvm_host
              ["var"; "lib"; "qubes"; "appvms"; "work"] 64772
              "0" "41943040" "thin" ("253:3 1" +:+ LF))
    as (_ & Hthin & _); [done..|].
  by rewrite (Hthin "253:3" ("1" +:+ LF)).
Defined.

(** ** Resizing a volume *)

Lemma sanitized_service_error (stderr : string) :
  str_replace "%" "" (decode_ascii_ignore stderr) = str_filter kept_byte stderr.
Proof.
  induction stderr as [|c s IH]; [done|].
  change (str_filter kept_byte (String c s))
    with (if kept_byte c then String c (str_filter kept_byte s)
          else str_filter kept_byte s).
  change (decode_ascii_ignore (String c s))
    with (if (Ascii.N_of_ascii c <? 128)%N
          then String c (decode_ascii_ignore s) else decode_ascii_ignore s).
  unfold kept_byte at 1.
  destruct (Ascii.N_of_ascii c <? 128)%N; [|done].
  rewrite str_replace_char_cons, IH.
  destruct (Ascii.eqb_spec c (Ascii.ascii_of_nat 37)) as [->|Hne].
  - done.
  - rewrite bool_decide_eq_false_2; [done|]. by intros <-.
Qed.

Lemma str_filter_spec (keep : Ascii.ascii → bool) (s : string) (c : Ascii.ascii) :
  str_in (String c "") (str_filter keep s)
  = str_in (String c "") s && keep c.
Proof.
  induction s as [|d s IH]; [done|]. simpl str_filter.
  destruct (keep d) eqn:Hd; rewrite ?str_in_char_cons, IH.
  - destruct (decide (c = d)) as [->|Hne].
    + by rewrite bool_decide_eq_true_2, Hd.
    + by rewrite bool_decide_eq_false_2.
  - destruct (decide (c = d)) as [->|Hne].
    + by rewrite bool_decide_eq_true_2, Hd, andb_false_r.
    + by rewrite bool_decide_eq_false_2.
Qed.

(** [resize] looks the volume up, has the driver resize it, and then, on a
    running VM only, runs [qubes.ResizeDisk] in the VM with the name of the
    volume.  An unknown name raises [KeyError] before anything is called;
    a failure of the driver is raised before the service is run; the
    service runs after the driver's resize, which is not undone when the
    service fails. *)
Theorem Storage_resize_calls (env : ResizeEnv) (volume : volume_arg) (size : Z) :
  let out := Storage_resize env volume size in
  (resize_target env volume = None →
   ∃ name, volume = by_name name ∧ out = ([], Raise (KeyError (OStr name))))
  ∧ (∀ v, resize_target env volume = Some v →
       let service :=
         call_run_service "qubes.ResizeDisk" (Volume.name v) "root" in
       out.1 = call_resize v size
               :: (if bool_decide (resize_outcome env v size = None)
                      && resize_is_running env
                   then [service] else [])
       ∧ (out.2 = Ok tt
          ↔ resize_outcome env v size = None
            ∧ (resize_is_running env = false
               ∨ run_service_for_stdio env "qubes.ResizeDisk" (Volume.name v)
                   "root" = service_done))
       ∧ (∀ e, resize_outcome env v size = Some e → out.2 = Raise e)
       ∧ (∀ e, resize_outcome env v size = None →
               resize_is_running env = true →
               run_service_for_stdio env "qubes.ResizeDisk" (Volume.name v)
                 "root" = service_raises e →
               out.2 = Raise e)).
Proof.
  intros out. subst out. unfold Storage_resize, resize_target, dict_getitem.
  split.
  - destruct volume as [name|v]; [|done].
    destruct (dict_get (resize_volumes env) name); [done|]. intros _.
    by exists name.
  - intros v Hv.
    assert (Hlook : match volume with
                    | by_name name =>
                        match dict_get (resize_volumes env) name with
                        | Some v => Ok v
                        | None => Raise (KeyError (OStr name))
                        end
                    | by_volume volume => Ok volume
                    end = Ok v).
    { destruct volume as [name|v']; [by rewrite Hv | by injection Hv as ->]. }
    rewrite Hlook.
    destruct (resize_outcome env v size) as [e|] eqn:Hresize; simpl.
    { split_and!; [done | | by intros ? [= ->] | done].
      split; [done | by intros [? _]]. }
    destruct (resize_is_running env) eqn:Hrun; simpl.
    2:{ split_and!; [done | | done | done]. split; auto. }
    destruct (run_service_for_stdio env _ _ _) as [|stderr|e] eqn:Hservice;
      simpl.
    + split_and!; [done | | done | done]. split; auto.
    + split_and!; [done | | done | done].
      split; [done | by intros [_ [? | ?]]].
    + split_and!; [done | | done | by intros ? _ _ [= ->]].
      split; [done | by intros [_ [? | ?]]].
Qed.

(** When the service in the VM fails, [resize] raises
    [StoragePoolException]; of the service's [stderr] the message holds the
    ASCII bytes other than percent signs, in their order, after the volume's
    vid.  The driver's resize has been made by then. *)
Theorem Storage_resize_service_error (env : ResizeEnv) (volume : volume_arg)
    (size : Z) (v : Volume.t) (stderr : string) :
  resize_target env volume = Some v →
  resize_outcome env v size = None →
  resize_is_running env = true →
  run_service_for_stdio env "qubes.ResizeDisk" (Volume.name v) "root"
  = CalledProcessError stderr →
  Storage_resize env volume size
  = ([call_resize v size;
      call_run_service "qubes.ResizeDisk" (Volume.name v) "root"],
     Raise (StoragePoolException
              ("Online resize of volume " +:+ Volume.vid v
               +:+ " failed (you need to resize filesystem manually): "
               +:+ str_filter kept_byte stderr)))
  ∧ str_in "%" (str_filter kept_byte stderr) = false
  ∧ ∀ c, str_in (String c "") (str_filter kept_byte stderr) = true →
         str_in (String c "") stderr = true ∧ (Ascii.N_of_ascii c < 128)%N.
Proof.
  intros Hv Hresize Hrun Hservice. split_and!.
  - unfold Storage_resize, dict_getitem.
    assert (Hlook : match volume with
                    | by_name name =>
                        match dict_get (resize_volumes env) name with
                        | Some v => Ok v
                        | None => Raise (KeyError (OStr name))
                        end
                    | by_volume volume => Ok volume
                    end = Ok v).
    { unfold resize_target in Hv.
      destruct volume as [name|v']; [by rewrite Hv | by injection Hv as ->]. }
    rewrite Hlook, Hresize, Hrun, Hservice, sanitized_service_error.
    reflexivity.
  - by rewrite str_filter_spec, andb_false_r.
  - intros c. rewrite str_filter_spec. intros [Hin Hkept]%andb_true_iff.
    split; [done|]. unfold kept_byte in Hkept.
    apply andb_true_iff in Hkept as [Hlt _]. by apply N.ltb_lt.
Qed.

Lemma Storage_resize_service_error_witness :
  Storage_resize work_resize_env (by_name "private") 4294967296
  = ([call_resize work_private 4294967296;
      call_run_service "qubes.ResizeDisk" "private" "root"],
     Raise (StoragePoolException
              ("Online resize of volume vm-work-private failed (you need to "
               +:+ "resize filesystem manually): resize2fs: 100 read-only"))).
Proof.
  by destruct (Storage_resize_service_error work_resize_env
                 (by_name "private") 4294967296 work_private
                 "resize2fs: 100% read-only") as (-> & _).
Defined.

(** ** The collection of a pool that only lists its volumes *)

Section ListOnlyPool.
Context `{PoolDriver}.

Lemma find_vid_spec (vols : list Volume.t) (vid : string) :
  match find (λ vol, String.eqb (Volume.vid vol) vid) vols with
  | Some v => v ∈ vols ∧ Volume.vid v = vid
  | None => vid ∉ Volume.vid <$> vols
  end.
Proof.
  induction vols as [|v vols IH]; simpl.
  - by intros ?%elem_of_nil.
  - destruct (String.eqb_spec (Volume.vid v) vid) as [Hv|Hv].
    + split; [apply elem_of_cons; auto | done].
    + destruct (find _ vols) as [v'|].
      * destruct IH. split; [apply elem_of_cons; auto | done].
      * intros [? | ?]%elem_of_cons; [congruence | done].
Qed.

Lemma contains_vid_listed (self : VolumesCollection) (vols : list Volume.t)
    (vid : string) :
  (∀ item, ∃ msg,
     get_volume (_pool self) item = Raise (NotImplementedError msg)) →
  list_volumes (_pool self) = Ok vols →
  VolumesCollection__contains__ self (OStr vid)
  = Ok (bool_decide (vid ∈ Volume.vid <$> vols)).
Proof.
  intros Hget Hlist. destruct (Hget (OStr vid)) as [msg Hmsg].
  unfold VolumesCollection__contains__, VolumesCollection__getitem__.
  rewrite (getitem_vid_fallback self vid msg vols) by done.
  pose proof (find_vid_spec vols vid) as Hfind.
  destruct (find _ vols) as [v|].
  - destruct Hfind as [Hv <-]. simpl. rewrite bool_decide_eq_true_2; [done|].
    by apply list_elem_of_fmap_2.
  - simpl. by rewrite bool_decide_eq_false_2.
Qed.

(** A pool whose driver has no [get_volume] but lists its volumes:
    [keys()] are the vids of [values()], the listed volumes; a vid is
    contained exactly when it is among the keys; a volume is contained
    exactly when its pool equals the pool of the collection and its vid is
    among the keys; and every listed volume is found under its vid, as the
    first listed volume of that vid. *)
Theorem VolumesCollection_keys_contains (self : VolumesCollection)
    (vols : list Volume.t) :
  (∀ item, ∃ msg,
     get_volume (_pool self) item = Raise (NotImplementedError msg)) →
  list_volumes (_pool self) = Ok vols →
  VolumesCollection_keys self = Ok (Volume.vid <$> vols)
  ∧ VolumesCollection_values self = Ok vols
  ∧ (∀ vid,
       VolumesCollection__contains__ self (OStr vid)
       = Ok (bool_decide (vid ∈ Volume.vid <$> vols)))
  ∧ (∀ v,
       VolumesCollection__contains__ self (OVolume v)
       = Ok (Pool_eq (Volume.pool v) (_pool self)
             && bool_decide (Volume.vid v ∈ Volume.vid <$> vols)))
  ∧ (∀ v, v ∈ vols →
       ∃ v', VolumesCollection__getitem__ self (OStr (Volume.vid v))
             = Ok (Some v')
             ∧ Volume.vid v' = Volume.vid v
             ∧ v' ∈ vols
             ∧ find (λ vol, String.eqb (Volume.vid vol) (Volume.vid v)) vols
               = Some v').
Proof.
  intros Hget Hlist. split_and!.
  - unfold VolumesCollection_keys, VolumesCollection__iter__. by rewrite Hlist.
  - done.
  - intros vid. by apply contains_vid_listed.
  - intros v.
    pose proof (contains_vid_listed self vols (Volume.vid v) Hget Hlist) as Hvid.
    unfold VolumesCollection__contains__, VolumesCollection__getitem__ in *.
    destruct (Pool_eq (Volume.pool v) (_pool self)); [done|]. done.
  - intros v Hv. destruct (Hget (OStr (Volume.vid v))) as [msg Hmsg].
    unfold VolumesCollection__getitem__.
    rewrite (getitem_vid_fallback self (Volume.vid v) msg vols) by done.
    pose proof (find_vid_spec vols (Volume.vid v)) as Hfind.
    destruct (find _ vols) as [v'|].
    + destruct Hfind. by exists v'.
    + destruct Hfind. by apply list_elem_of_fmap_2.
Qed.
End ListOnlyPool.

Lemma VolumesCollection_keys_contains_witness :
  @VolumesCollection_keys lvm_driver {| _pool := pool_lvm |}
  = Ok ["vm-templates/fedora/root"; "vm-work-root"; "vm-work-private"]
  ∧ @VolumesCollection__contains__ lvm_driver {| _pool := pool_lvm |}
      (OVolume work_root) = Ok true
  ∧ @VolumesCollection__contains__ lvm_driver {| _pool := pool_varlibqubes |}
      (OVolume work_root) = Ok false.
Proof.
  destruct (@VolumesCollection_keys_contains lvm_driver
              {| _pool := pool_lvm |} [template_root; work_root; work_private])
    as (Hkeys & _ & _ & Hin & _).
  { intros item. by eexists. }
  { done. }
  destruct (@VolumesCollection_keys_contains lvm_driver
              {| _pool := pool_varlibqubes |}
              [template_root; work_root; work_private])
    as (_ & _ & _ & Hout & _).
  { intros item. by eexists. }
  { done. }
  split_and!; [exact Hkeys | by rewrite Hin | by rewrite Hout].
Defined.

(** ** Block devices and outdated volumes *)

Section VolumeAttributesProperties.
Context `{VolumeAttributes}.

(** [block_device] returns a device exactly when the name of the volume
    and its path are not empty; the device then carries the path, the name,
    the script, the [rw] flag, the domain and the type of the volume.  In
    every other case it raises [AssertionError]. *)
Theorem Volume_block_device_spec (self : Volume.t) :
  (∀ device,
     Volume_block_device self = Ok device
     ↔ Volume.name self ≠ ""
       ∧ ∃ path, Volume_path self = Some path ∧ path ≠ ""
                 ∧ device = BlockDevice.mk path (Volume.name self)
                              (Volume.rw self) (Volume_script self)
                              (Volume_domain self) (Volume_devtype self))
  ∧ (Volume_block_device self = Raise AssertionError
     ↔ Volume.name self = "" ∨ Volume_path self = None
       ∨ Volume_path self = Some "")
  ∧ (∀ e, Volume_block_device self = Raise e → e = AssertionError).
Proof.
  unfold Volume_block_device, BlockDevice__init__.
  destruct (decide (Volume.name self = "")) as [Hname|Hname].
  { rewrite bool_decide_eq_true_2 by done. split_and!.
    - intros device. split; [done | by intros [? _]].
    - split; auto.
    - by intros e [= <-]. }
  rewrite bool_decide_eq_false_2 by done.
  destruct (Volume_path self) as [path|].
  2:{ split_and!.
      - intros device. split; [done | by intros (_ & ? & ? & _)].
      - split; auto.
      - by intros e [= <-]. }
  destruct (decide (path = "")) as [->|Hpath].
  { rewrite bool_decide_eq_true_2 by done. split_and!.
    - intros device. split; [done|]. by intros (_ & ? & [= <-] & ? & _).
    - split; auto.
    - by intros e [= <-]. }
  rewrite bool_decide_eq_false_2 by done. split_and!.
  - intros device. split.
    + intros [= <-]. split; [done|]. by exists path.
    + by intros (_ & ? & [= <-] & _ & ->).
  - split; [done|]. intros [? | [? | [= ?]]]; done.
  - done.
Qed.

Lemma outdated_loop_spec (volumes outdated : list Volume.t) :
  (∀ found,
     outdated_loop volumes outdated = Ok found
     ↔ Forall (λ v, ∃ b, Volume_is_outdated v = Ok b) volumes
       ∧ found = outdated ++ filter (λ v, says_outdated v = true) volumes)
  ∧ (∀ e,
       outdated_loop volumes outdated = Raise e
       ↔ ∃ before v after,
           volumes = before ++ v :: after
           ∧ Forall (λ v, ∃ b, Volume_is_outdated v = Ok b) before
           ∧ Volume_is_outdated v = Raise e).
Proof.
  revert outdated.
  induction volumes as [|v volumes IH]; intros outdated; simpl.
  { split.
    - intros found. rewrite app_nil_r. split.
      + by intros [= <-].
      + by intros [_ ->].
    - intros e. split; [done|]. intros ([|??] & ? & ? & ? & _); done. }
  destruct (Volume_is_outdated v) as [[|]|e'] eqn:Hv.
  - destruct (IH (outdated ++ [v])) as [IHok IHraise]. split.
    + intros found. rewrite IHok, filter_cons_True, <- app_assoc by (unfold says_outdated; by rewrite Hv).
      split.
      * intros [Hall ->]. split; [|done]. constructor; [by eexists | done].
      * intros [[_ Hall]%Forall_cons ->]. done.
    + intros e. rewrite IHraise. split.
      * intros (before & v' & after & -> & Hall & Hv').
        exists (v :: before), v', after. split_and!; [done | | done].
        constructor; [by eexists | done].
      * intros ([|v0 before] & v' & after & Heq & Hall & Hv').
        -- injection Heq as <- _. congruence.
        -- injection Heq as <- ->. apply Forall_cons in Hall as [_ Hall].
           by exists before, v', after.
  - destruct (IH outdated) as [IHok IHraise]. split.
    + intros found. rewrite IHok, filter_cons_False by (unfold says_outdated; by rewrite Hv). split.
      * intros [Hall ->]. split; [|done]. constructor; [by eexists | done].
      * intros [[_ Hall]%Forall_cons ->]. done.
    + intros e. rewrite IHraise. split.
      * intros (before & v' & after & -> & Hall & Hv').
        exists (v :: before), v', after. split_and!; [done | | done].
        constructor; [by eexists | done].
      * intros ([|v0 before] & v' & after & Heq & Hall & Hv').
        -- injection Heq as <- _. congruence.
        -- injection Heq as <- ->. apply Forall_cons in Hall as [_ Hall].
           by exists before, v', after.
  - split.
    + intros found. split; [done|].
      intros [[[b Hb] _]%Forall_cons _]. congruence.
    + intros e. split.
      * intros [= <-]. exists [], v, volumes. split_and!; [done | constructor | done].
      * intros ([|v0 before] & v' & after & Heq & Hall & Hv').
        -- injection Heq as <- _. congruence.
        -- injection Heq as <- ->.
           apply Forall_cons in Hall as [[b Hb] _]. congruence.
Qed.

(** [outdated_volumes] of a halted VM is empty, and no volume is asked.
    Otherwise the volumes are asked in the order of [vm.volumes]: the
    answer is the list of those that say they are outdated, in that order,
    provided every volume answers; the first volume whose [is_outdated]
    raises decides the exception. *)
Theorem Storage_outdated_volumes_spec (is_halted : bool)
    (volumes : list (string * Volume.t)) :
  (is_halted = true → Storage_outdated_volumes is_halted volumes = Ok [])
  ∧ (is_halted = false →
     (∀ found,
        Storage_outdated_volumes is_halted volumes = Ok found
        ↔ Forall (λ v, ∃ b, Volume_is_outdated v = Ok b) (dict_values volumes)
          ∧ found = filter (λ v, says_outdated v = true)
                      (dict_values volumes))
     ∧ (∀ e,
          Storage_outdated_volumes is_halted volumes = Raise e
          ↔ ∃ before v after,
              dict_values volumes = before ++ v :: after
              ∧ Forall (λ v, ∃ b, Volume_is_outdated v = Ok b) before
              ∧ Volume_is_outdated v = Raise e)).
Proof.
  split; [by intros -> | intros ->].
  unfold Storage_outdated_volumes.
  destruct (outdated_loop_spec (dict_values volumes) []) as [Hok Hraise].
  split; [|done]. intros found. by rewrite Hok.
Qed.
End VolumeAttributesProperties.

(** The base class sets no path: its [block_device] cannot succeed. *)
Lemma BaseVolume_block_device (self : Volume.t) :
  @Volume_block_device BaseAttributes self = Raise AssertionError.
Proof.
  unfold Volume_block_device, BlockDevice__init__. simpl.
  by case_bool_decide.
Qed.

Example work_outdated_volumes :
  @Storage_outdated_volumes lvm_attributes false (VM.volumes work_vm)
  = Ok [work_root]
  ∧ @Storage_outdated_volumes BaseAttributes true (VM.volumes work_vm) = Ok []
  ∧ @Storage_outdated_volumes BaseAttributes false (VM.volumes work_vm)
    = Raise (Volume_not_implemented "is_outdated").
Proof. done. Qed.

(** ** Building the volumes of a VM *)

Lemma set_default_name_lookup (name : string) (cfg : gmap string object)
    (key : string) :
  set_default_name name cfg !! key
  = if String.eqb key "name"
    then Some (default (OStr name) (cfg !! "name"))
    else cfg !! key.
Proof.
  unfold set_default_name.
  destruct (String.eqb_spec key "name") as [->|Hkey].
  - destruct (cfg !! "name") eqn:Hname; [done|]. by rewrite lookup_insert_eq.
  - destruct (cfg !! "name"); [done|]. by rewrite lookup_insert_ne.
Qed.

Section InitVolumeProperties.
Context `{PoolDriver} `{App} `{AppDefaults}.
Variable new_Storage : Domain → Domain * result unit.

Lemma init_template_storage_spec (d : Domain) :
  let out := init_template_storage new_Storage d in
  dom_vm out.1 = dom_vm d
  ∧ dom_storage out.1 = dom_storage d
  ∧ (dom_template out.1 = dom_template d
     ∨ ∃ t, dom_template d = Some t ∧ dom_storage t = false
            ∧ ((out.2 = Ok tt
                ∧ dom_template out.1
                  = Some (mkDomain (dom_vm (new_Storage t).1) true
                            (dom_template (new_Storage t).1))
                ∧ (new_Storage t).2 = Ok tt)
               ∨ (∃ e, out.2 = Raise e ∧ (new_Storage t).2 = Raise e
                       ∧ dom_template out.1 = Some (new_Storage t).1)))
  ∧ (out.2 = Ok tt →
     ∀ t, dom_template out.1 = Some t → dom_storage t = true)
  ∧ (dom_template d = None → out = (d, Ok tt)).
Proof.
  unfold init_template_storage.
  destruct d as [vm storage [t|]]; simpl; [|by split_and!; auto].
  destruct (dom_storage t) eqn:Hstorage; simpl.
  { split_and!; auto. by intros _ ? [= <-]. }
  destruct (new_Storage t) as [t' [[]|e]] eqn:Hnew; simpl.
  - split_and!; try done.
    + right. exists t. split_and!; try done. left. by rewrite Hnew.
    + by intros _ ? [= <-].
  - split_and!; try done.
    right. exists t. split_and!; try done. right. exists e. by rewrite Hnew.
Qed.

Lemma update_source_lookup (templates : list VM.t) (name : string)
    (cfg : gmap string object) (key : string) :
  key ≠ "source" → key ≠ "pool" → key ≠ "size" →
  (_update_volume_config_source templates name cfg).1 !! key = cfg !! key.
Proof.
  intros K1 K2 K3. revert cfg.
  induction templates as [|t rest IH]; intros cfg; simpl; [done|].
  destruct (dict_getitem (VM.volumes t) name) as [v|]; [|done].
  destruct (Volume.source v); simpl.
  - rewrite IH. by rewrite !lookup_insert_ne.
  - by rewrite !lookup_insert_ne.
Qed.

Lemma init_volume_source_spec (d : Domain) (name : string)
    (cfg : gmap string object) :
  let out := init_volume_source new_Storage d name cfg in
  dom_vm out.1.1 = dom_vm d
  ∧ dom_storage out.1.1 = dom_storage d
  ∧ (∀ key, key ≠ "source" → key ≠ "pool" → key ≠ "size" →
            out.1.2 !! key = cfg !! key)
  ∧ (cfg !! "source" = None → out = (d, cfg, Ok tt))
  ∧ (is_Some (cfg !! "source") → out.2 = Ok tt →
     ∀ t, dom_template out.1.1 = Some t → dom_storage t = true)
  ∧ (dom_template out.1.1 = dom_template d
     ∨ ∃ t, dom_template d = Some t ∧ dom_storage t = false
            ∧ is_Some (cfg !! "source")
            ∧ ((∃ e, out.2 = Raise e ∧ (new_Storage t).2 = Raise e)
               ∨ ((new_Storage t).2 = Ok tt
                  ∧ dom_template out.1.1
                    = Some (mkDomain (dom_vm (new_Storage t).1) true
                              (dom_template (new_Storage t).1))))).
Proof.
  unfold init_volume_source.
  destruct (cfg !! "source") as [source|] eqn:Hsource; simpl.
  2:{ split_and!; auto. by intros [? ?]. }
  destruct (init_template_storage_spec d) as (Hvm & Hst & Htpl & Hready & _).
  destruct (init_template_storage new_Storage d) as [d1 [[]|e]] eqn:Hinit;
    simpl in *.
  2:{ split_and!; try done.
      destruct Htpl as [Htpl | (t & Ht & Hs & [(? & _) | (e' & He' & Hn & _)])];
        [by left | done |].
      right. exists t. split_and!; try done. left. exists e. split; [done|].
      congruence. }
  assert (Htpl' : dom_template d1 = dom_template d
                  ∨ ∃ t, dom_template d = Some t ∧ dom_storage t = false
                         ∧ is_Some (Some source)
                         ∧ ((new_Storage t).2 = Ok tt
                            ∧ dom_template d1
                              = Some (mkDomain (dom_vm (new_Storage t).1) true
                                        (dom_template (new_Storage t).1)))).
  { destruct Htpl as [Htpl | (t & Ht & Hs & [(_ & Hd1 & Hn) | (? & ? & _)])];
      [by left | | done].
    right. exists t. by split_and!. }
  assert (Hshape : ∀ (cfg1 : gmap string object) (r : result unit),
            (∀ key, key ≠ "source" → key ≠ "pool" → key ≠ "size" →
                    cfg1 !! key = cfg !! key) →
            dom_vm (d1, cfg1, r).1.1 = dom_vm d
            ∧ dom_storage (d1, cfg1, r).1.1 = dom_storage d
            ∧ (∀ key, key ≠ "source" → key ≠ "pool" → key ≠ "size" →
                      (d1, cfg1, r).1.2 !! key = cfg !! key)
            ∧ (Some source = None → (d1, cfg1, r) = (d, cfg, Ok tt))
            ∧ (is_Some (Some source) → (d1, cfg1, r).2 = Ok tt →
               ∀ t, dom_template (d1, cfg1, r).1.1 = Some t →
                    dom_storage t = true)
            ∧ (dom_template (d1, cfg1, r).1.1 = dom_template d
               ∨ ∃ t, dom_template d = Some t ∧ dom_storage t = false
                      ∧ is_Some (Some source)
                      ∧ ((∃ e, (d1, cfg1, r).2 = Raise e
                               ∧ (new_Storage t).2 = Raise e)
                         ∨ ((new_Storage t).2 = Ok tt
                            ∧ dom_template (d1, cfg1, r).1.1
                              = Some (mkDomain (dom_vm (new_Storage t).1) true
                                        (dom_template (new_Storage t).1)))))).
  { intros cfg1 r Hkeys. simpl. split_and!; try done.
    - intros _ _. by apply Hready.
    - destruct Htpl' as [? | (t & ? & ? & ? & ? & ?)]; [by left|].
      right. exists t. split_and!; try done. by right. }
  destruct source as [| | | | |].
  - destruct (_update_volume_config_source (template_chain d1) name cfg)
      as [cfg1 r] eqn:Hupd.
    apply Hshape. intros key K1 K2 K3.
    pose proof (update_source_lookup (template_chain d1) name cfg key K1 K2 K3)
      as Hl.
    by rewrite Hupd in Hl.
  - destruct (cfg !! "pool") as [pool_ref|]; [|by apply Hshape].
    destruct (get_pool pool_ref) as [pool|]; [|by apply Hshape].
    destruct (VolumesCollection__getitem__ _ _) as [found|]; [|by apply Hshape].
    apply Hshape. intros key K1 _ _. by rewrite lookup_insert_ne.
  - destruct (cfg !! "pool") as [pool_ref|]; [|by apply Hshape].
    destruct (get_pool pool_ref) as [pool|]; [|by apply Hshape].
    destruct (VolumesCollection__getitem__ _ _) as [found|]; [|by apply Hshape].
    apply Hshape. intros key K1 _ _. by rewrite lookup_insert_ne.
  - destruct (cfg !! "pool") as [pool_ref|]; [|by apply Hshape].
    destruct (get_pool pool_ref) as [pool|]; [|by apply Hshape].
    destruct (VolumesCollection__getitem__ _ _) as [found|]; [|by apply Hshape].
    apply Hshape. intros key K1 _ _. by rewrite lookup_insert_ne.
  - destruct (cfg !! "pool") as [pool_ref|]; [|by apply Hshape].
    destruct (get_pool pool_ref) as [pool|]; [|by apply Hshape].
    destruct (VolumesCollection__getitem__ _ _) as [found|]; [|by apply Hshape].
    apply Hshape. intros key K1 _ _. by rewrite lookup_insert_ne.
  - destruct (cfg !! "pool") as [pool_ref|]; [|by apply Hshape].
    destruct (get_pool pool_ref) as [pool|]; [|by apply Hshape].
    destruct (VolumesCollection__getitem__ _ _) as [found|]; [|by apply Hshape].
    apply Hshape. intros key K1 _ _. by rewrite lookup_insert_ne.
Qed.

Lemma init_volume_pool_spec (name : string) (cfg : gmap string object) :
  let out := init_volume_pool name cfg in
  (∀ key, key ≠ "pool" → key ≠ "internal" → out.1 !! key = cfg !! key)
  ∧ (∀ pool, out.2 = Ok pool →
       out.1 !! "internal" = None
       ∧ ∃ pool_ref,
           out.1 !! "pool" = Some pool_ref
           ∧ get_pool pool_ref = Ok pool
           ∧ (cfg !! "pool" = Some pool_ref
              ∨ (cfg !! "pool" = None ∧ default_pool name = Ok pool_ref)))
  ∧ (∀ pool_ref, cfg !! "pool" = Some pool_ref →
                 out.1 !! "pool" = Some pool_ref).
Proof.
  unfold init_volume_pool.
  destruct (cfg !! "pool") as [pool_ref|] eqn:Hpool.
  - rewrite Hpool. destruct (get_pool pool_ref) as [pool|e] eqn:Hget; simpl.
    + split_and!.
      * intros key _ Hkey. by rewrite lookup_delete_ne.
      * intros ? [= <-]. split; [by rewrite lookup_delete_eq|].
        exists pool_ref. rewrite lookup_delete_ne by done. auto.
      * intros ? [= <-]. by rewrite lookup_delete_ne.
    + split_and!; [done | done | by intros ? [= <-]].
  - destruct (default_pool name) as [pool_ref|e] eqn:Hdefault; simpl.
    2:{ by split_and!. }
    rewrite lookup_insert_eq.
    destruct (get_pool pool_ref) as [pool|e] eqn:Hget; simpl.
    + split_and!.
      * intros key Hkey Hkey'. by rewrite lookup_delete_ne, lookup_insert_ne.
      * intros ? [= <-]. split; [by rewrite lookup_delete_eq|].
        exists pool_ref.
        rewrite lookup_delete_ne, lookup_insert_eq by done. auto.
      * done.
    + split_and!; try done. intros key Hkey _. by rewrite lookup_insert_ne.
Qed.

Lemma write_back_spec (alias : option string) (cfg : gmap string object)
    (d : Domain) :
  VM.name (dom_vm (write_back alias cfg d)) = VM.name (dom_vm d)
  ∧ VM.dir_path (dom_vm (write_back alias cfg d)) = VM.dir_path (dom_vm d)
  ∧ VM.volumes (dom_vm (write_back alias cfg d)) = VM.volumes (dom_vm d)
  ∧ dom_storage (write_back alias cfg d) = dom_storage d
  ∧ dom_template (write_back alias cfg d) = dom_template d
  ∧ (∀ key, alias = Some key →
            dict_get (VM.volume_config (dom_vm (write_back alias cfg d))) key
            = Some cfg
            ∧ ∀ key', key ≠ key' →
                dict_get (VM.volume_config (dom_vm (write_back alias cfg d)))
                  key'
                = dict_get (VM.volume_config (dom_vm d)) key')
  ∧ (alias = None → write_back alias cfg d = d).
Proof.
  destruct alias as [key|]; simpl; split_and!; try done.
  intros ? [= <-]. split.
  - apply dict_get_setitem_eq.
  - intros key' Hne. by apply dict_get_setitem_ne.
Qed.

Lemma Storage_init_volume_facts (d : Domain) (name : string)
    (cfg : gmap string object) (alias : option string) :
  let out := Storage_init_volume new_Storage d name cfg alias in
  out.1.2 !! "name" = Some (default (OStr name) (cfg !! "name"))
  ∧ (∀ key, key ≠ "name" → key ≠ "source" → key ≠ "pool" → key ≠ "size" →
            key ≠ "internal" → out.1.2 !! key = cfg !! key)
  ∧ (∀ volume, out.2 = Ok volume →
       out.1.2 !! "internal" = None
       ∧ VM.volumes (dom_vm out.1.1)
         = dict_setitem (VM.volumes (dom_vm d)) name volume
       ∧ ∃ pool_ref pool,
           out.1.2 !! "pool" = Some pool_ref
           ∧ get_pool pool_ref = Ok pool
           ∧ init_volume pool
               (VM.mk (VM.name (dom_vm d)) (VM.dir_path (dom_vm d))
                  (VM.volume_config (dom_vm out.1.1)) (VM.volumes (dom_vm d)))
               out.1.2
             = Ok volume)
  ∧ (∀ e, out.2 = Raise e →
          VM.volumes (dom_vm out.1.1) = VM.volumes (dom_vm d))
  ∧ (∀ key, alias = Some key →
            dict_get (VM.volume_config (dom_vm out.1.1)) key = Some out.1.2
            ∧ ∀ key', key ≠ key' →
                dict_get (VM.volume_config (dom_vm out.1.1)) key'
                = dict_get (VM.volume_config (dom_vm d)) key')
  ∧ (alias = None →
     VM.volume_config (dom_vm out.1.1) = VM.volume_config (dom_vm d))
  ∧ VM.name (dom_vm out.1.1) = VM.name (dom_vm d)
  ∧ VM.dir_path (dom_vm out.1.1) = VM.dir_path (dom_vm d)
  ∧ dom_storage out.1.1 = dom_storage d
  ∧ (cfg !! "source" = None →
     dom_template out.1.1 = dom_template d
     ∧ out.1.2 !! "source" = None
     ∧ out.1.2 !! "size" = cfg !! "size")
  ∧ (is_Some (cfg !! "source") → ∀ volume, out.2 = Ok volume →
     ∀ t, dom_template out.1.1 = Some t → dom_storage t = true).
Proof.
  unfold Storage_init_volume.
  pose proof (init_volume_source_spec d name (set_default_name name cfg))
    as (Hvm & Hst & Hkeys & Hnone & Hready & _).
  assert (Hsrc : (set_default_name name cfg) !! "source" = cfg !! "source")
    by (by rewrite set_default_name_lookup).
  assert (Hname : (set_default_name name cfg) !! "name"
                  = Some (default (OStr name) (cfg !! "name")))
    by (by rewrite set_default_name_lookup).
  rewrite Hsrc in Hnone, Hready.
  destruct (init_volume_source new_Storage d name (set_default_name name cfg))
    as [[d1 cfg1] r1] eqn:Hsource.
  simpl in Hvm, Hst, Hkeys, Hnone, Hready.
  assert (Hname1 : cfg1 !! "name" = Some (default (OStr name) (cfg !! "name")))
    by (by rewrite Hkeys).
  assert (Hkeys1 : ∀ key, key ≠ "name" → key ≠ "source" → key ≠ "pool" →
                          key ≠ "size" → cfg1 !! key = cfg !! key).
  { intros key K0 K1 K2 K3. rewrite Hkeys, set_default_name_lookup by done.
    by rewrite (proj2 (String.eqb_neq _ _) K0). }
  assert (Hnone1 : cfg !! "source" = None →
                   dom_template d1 = dom_template d
                   ∧ cfg1 !! "source" = None
                   ∧ cfg1 !! "size" = cfg !! "size"
                   ∧ cfg1 = set_default_name name cfg).
  { intros Hn. specialize (Hnone Hn). injection Hnone as -> -> _.
    by rewrite !set_default_name_lookup. }
  destruct (write_back_spec alias cfg1 d1)
    as (Hwn & Hwd & Hwv & Hws & Hwt & Hwa & Hwnone).
  destruct r1 as [[]|e1]; simpl.
  2:{ split_and!; try done.
      - intros key K0 K1 K2 K3 _. by apply Hkeys1.
      - intros e _. by rewrite Hwv, Hvm.
      - intros key Hkey. destruct (Hwa key Hkey) as [? Hother].
        split; [done|]. intros key' Hne. rewrite Hother by done.
        by rewrite Hvm.
      - intros ->. by rewrite Hwnone, Hvm.
      - by rewrite Hwn, Hvm.
      - by rewrite Hwd, Hvm.
      - by rewrite Hws.
      - intros Hn. destruct (Hnone1 Hn) as (? & ? & ? & _).
        by rewrite Hwt. }
  pose proof (init_volume_pool_spec name cfg1) as (Hpkeys & Hpool & _).
  destruct (init_volume_pool name cfg1) as [cfg2 r2] eqn:Hp.
  simpl in Hpkeys, Hpool.
  assert (Hname2 : cfg2 !! "name" = Some (default (OStr name) (cfg !! "name")))
    by (by rewrite Hpkeys).
  assert (Hkeys2 : ∀ key, key ≠ "name" → key ≠ "source" → key ≠ "pool" →
                          key ≠ "size" → key ≠ "internal" →
                          cfg2 !! key = cfg !! key).
  { intros key K0 K1 K2 K3 K4. rewrite Hpkeys by done. by apply Hkeys1. }
  destruct (write_back_spec alias cfg2 d1)
    as (Hwn2 & Hwd2 & Hwv2 & Hws2 & Hwt2 & Hwa2 & Hwnone2).
  assert (Hnone2 : cfg !! "source" = None →
                   dom_template (write_back alias cfg2 d1) = dom_template d
                   ∧ cfg2 !! "source" = None
                   ∧ cfg2 !! "size" = cfg !! "size").
  { intros Hn. destruct (Hnone1 Hn) as (? & ? & ? & _).
    rewrite Hwt2, !Hpkeys by done. done. }
  destruct r2 as [pool|e2]; simpl.
  2:{ split_and!; try done.
      - intros e _. by rewrite Hwv2, Hvm.
      - intros key Hkey. destruct (Hwa2 key Hkey) as [? Hother].
        split; [done|]. intros key' Hne. rewrite Hother by done.
        by rewrite Hvm.
      - intros ->. by rewrite Hwnone2, Hvm.
      - by rewrite Hwn2, Hvm.
      - by rewrite Hwd2, Hvm.
      - by rewrite Hws2. }
  destruct (Hpool pool eq_refl) as (Hinternal & pool_ref & Hpr & Hget & _).
  destruct (init_volume pool (dom_vm (write_back alias cfg2 d1)) cfg2)
    as [volume|e3] eqn:Hdriver; simpl.
  2:{ split_and!; try done.
      - intros e _. by rewrite Hwv2, Hvm.
      - intros key Hkey. destruct (Hwa2 key Hkey) as [? Hother].
        split; [done|]. intros key' Hne. rewrite Hother by done.
        by rewrite Hvm.
      - intros ->. by rewrite Hwnone2, Hvm.
      - by rewrite Hwn2, Hvm.
      - by rewrite Hwd2, Hvm.
      - by rewrite Hws2. }
  split_and!; try done.
  - intros ? [= <-]. split_and!; [done | by rewrite Hwv2, Hvm |].
    exists pool_ref, pool. split_and!; [done | done |].
    rewrite <- Hdriver. f_equal.
    destruct (dom_vm (write_back alias cfg2 d1)) as [n p c v] eqn:Hdvm.
    simpl in *. by rewrite <- Hvm, <- Hwn2, <- Hwd2, <- Hwv2.
  - intros key Hkey. destruct (Hwa2 key Hkey) as [? Hother].
    split; [done|]. intros key' Hne. rewrite Hother by done.
    by rewrite Hvm.
  - intros ->. by rewrite Hwnone2, Hvm.
  - by rewrite Hwn2, Hvm.
  - by rewrite Hwd2, Hvm.
  - by rewrite Hws2.
  - intros Hsome volume' _ t Ht. rewrite Hwt2 in Ht. by apply (Hready Hsome eq_refl).
Qed.

(** [init_volume], whatever the drivers and the constructor of the template
    do.  The name is written where the dictionary has none and is never
    overwritten; no key but [name], [source], [pool], [size] and [internal]
    is touched.  When a volume is returned, it is what the driver of the
    pool named in the dictionary built from the dictionary, which has no
    [internal] key then, and it is registered under the name, in place of
    what was there; when an exception is raised, no volume is registered.
    A dictionary that is the VM's own holds, in the VM, all that was
    written, also after an exception.  Without a [source] key the template
    is left alone; with one, a returned volume means the template has its
    storage. *)
Theorem Storage_init_volume_spec (d : Domain) (name : string)
    (cfg : gmap string object) (alias : option string) :
  let out := Storage_init_volume new_Storage d name cfg alias in
  out.1.2 !! "name" = Some (default (OStr name) (cfg !! "name"))
  ∧ (∀ key, key ≠ "name" → key ≠ "source" → key ≠ "pool" → key ≠ "size" →
            key ≠ "internal" → out.1.2 !! key = cfg !! key)
  ∧ (∀ volume, out.2 = Ok volume →
       out.1.2 !! "internal" = None
       ∧ VM.volumes (dom_vm out.1.1)
         = dict_setitem (VM.volumes (dom_vm d)) name volume
       ∧ ∃ pool_ref pool,
           out.1.2 !! "pool" = Some pool_ref
           ∧ get_pool pool_ref = Ok pool
           ∧ init_volume pool
               (VM.mk (VM.name (dom_vm d)) (VM.dir_path (dom_vm d))
                  (VM.volume_config (dom_vm out.1.1)) (VM.volumes (dom_vm d)))
               out.1.2
             = Ok volume)
  ∧ (∀ e, out.2 = Raise e →
          VM.volumes (dom_vm out.1.1) = VM.volumes (dom_vm d))
  ∧ (∀ key, alias = Some key →
            dict_get (VM.volume_config (dom_vm out.1.1)) key = Some out.1.2
            ∧ ∀ key', key ≠ key' →
                dict_get (VM.volume_config (dom_vm out.1.1)) key'
                = dict_get (VM.volume_config (dom_vm d)) key')
  ∧ (alias = None →
     VM.volume_config (dom_vm out.1.1) = VM.volume_config (dom_vm d))
  ∧ VM.name (dom_vm out.1.1) = VM.name (dom_vm d)
  ∧ VM.dir_path (dom_vm out.1.1) = VM.dir_path (dom_vm d)
  ∧ dom_storage out.1.1 = dom_storage d
  ∧ (cfg !! "source" = None →
     dom_template out.1.1 = dom_template d
     ∧ out.1.2 !! "source" = None
     ∧ out.1.2 !! "size" = cfg !! "size")
  ∧ (is_Some (cfg !! "source") → ∀ volume, out.2 = Ok volume →
     ∀ t, dom_template out.1.1 = Some t → dom_storage t = true).
Proof. apply Storage_init_volume_facts. Qed.

End InitVolumeProperties.

Section InitProperties.
Context `{PoolDriver} `{App} `{AppDefaults}.
Variable new_Storage : Domain → Domain * result unit.

Lemma update_source_resolved (before after : list VM.t) (template : VM.t)
    (name : string) (source : Volume.t) (cfg : gmap string object) :
  Forall (passes_on name) before →
  dict_get (VM.volumes template) name = Some source →
  Volume.source source = None ∨ after = [] →
  _update_volume_config_source (before ++ template :: after) name cfg
  = (with_source source cfg, Ok tt).
Proof.
  intros Hbefore Hsource Hstop.
  rewrite update_source_passes by done. simpl.
  unfold dict_getitem. rewrite Hsource.
  fold (with_source source (through name before cfg)).
  assert (Hcfg : with_source source (through name before cfg)
                 = with_source source cfg).
  { rewrite <- (through_last before name cfg template source Hsource).
    rewrite <- (through_last [] name (through name before cfg)
                  template source Hsource).
    unfold through. simpl. by rewrite foldl_app. }
  rewrite Hcfg.
  destruct Hstop as [-> | ->]; [done|]. by destruct (Volume.source source).
Qed.

(** A volume whose configuration has [source] set to [None], in a VM whose
    template has its storage: the source is the volume of that name found
    up the chain of templates, and the driver of that volume's pool is
    handed the configuration with this source, this pool and the size of
    the source, the name filled in and [internal] dropped. *)
Theorem Storage_init_volume_snapshot (d t : Domain) (name : string)
    (cfg : gmap string object) (alias : option string)
    (before after : list VM.t) (template : VM.t) (source : Volume.t)
    (pool : Pool.t) :
  cfg !! "source" = Some ONone →
  dom_template d = Some t →
  dom_storage t = true →
  domain_chain t = before ++ template :: after →
  Forall (passes_on name) before →
  dict_get (VM.volumes template) name = Some source →
  Volume.source source = None ∨ after = [] →
  get_pool (OPool (Volume.pool source)) = Ok pool →
  let cfg' := delete "internal" (with_source source (set_default_name name cfg))
  in
  Storage_init_volume new_Storage d name cfg alias
  = match init_volume pool (dom_vm (write_back alias cfg' d)) cfg' with
    | Ok volume => (register (write_back alias cfg' d) name volume, cfg',
                    Ok volume)
    | Raise e => (write_back alias cfg' d, cfg', Raise e)
    end
  ∧ cfg' !! "source" = Some (OVolume source)
  ∧ cfg' !! "pool" = Some (OPool (Volume.pool source))
  ∧ cfg' !! "size" = Some (OInt (Volume_size source))
  ∧ cfg' !! "name" = Some (default (OStr name) (cfg !! "name"))
  ∧ cfg' !! "internal" = None.
Proof.
  intros Hsrc Ht Hready Hchain Hbefore Hsource Hstop Hget cfg'.
  assert (Hlook : ∀ key, key ≠ "internal" →
            cfg' !! key = with_source source (set_default_name name cfg) !! key).
  { intros key Hkey. unfold cfg'. by rewrite lookup_delete_ne. }
  split_and!.
  - unfold Storage_init_volume, init_volume_source.
    rewrite set_default_name_lookup. simpl. rewrite Hsrc.
    unfold init_template_storage. rewrite Ht, Hready.
    unfold template_chain. rewrite Ht, Hchain.
    rewrite (update_source_resolved before after template name source) by done.
    unfold init_volume_pool.
    repeat (rewrite with_source_lookup; simpl). rewrite Hget.
    fold cfg'. by destruct (init_volume pool _ cfg').
  - by rewrite Hlook, with_source_lookup.
  - by rewrite Hlook, with_source_lookup.
  - by rewrite Hlook, with_source_lookup.
  - by rewrite Hlook, with_source_lookup, set_default_name_lookup.
  - unfold cfg'. by rewrite lookup_delete_eq.
Qed.

Lemma Storage_init_volume_template (d : Domain) (name : string)
    (cfg : gmap string object) (alias : option string) :
  let out := Storage_init_volume new_Storage d name cfg alias in
  (∀ t, dom_template d = Some t → dom_storage t = true →
        dom_template out.1.1 = Some t)
  ∧ (∀ volume, out.2 = Ok volume →
       dom_template out.1.1 = dom_template d
       ∨ ∃ t, dom_template out.1.1 = Some t ∧ dom_storage t = true)
  ∧ (dom_template d = None → dom_template out.1.1 = None).
Proof.
  unfold Storage_init_volume.
  pose proof (init_volume_source_spec new_Storage d name
                (set_default_name name cfg)) as (_ & _ & _ & _ & _ & Htpl).
  destruct (init_volume_source new_Storage d name (set_default_name name cfg))
    as [[d1 cfg1] r1].
  simpl in Htpl.
  assert (Hwb : ∀ c, dom_template (write_back alias c d1) = dom_template d1)
    by (intros c; by destruct alias).
  assert (Hkeep : ∀ t, dom_template d = Some t → dom_storage t = true →
                       dom_template d1 = Some t).
  { intros t Ht Hs. destruct Htpl as [-> | (t' & Ht' & Hs' & _)]; [done|].
    congruence. }
  assert (Hnone : dom_template d = None → dom_template d1 = None).
  { intros Hn. destruct Htpl as [-> | (t' & Ht' & _)]; [done | congruence]. }
  assert (Hok : r1 = Ok tt →
                dom_template d1 = dom_template d
                ∨ ∃ t, dom_template d1 = Some t ∧ dom_storage t = true).
  { intros ->.
    destruct Htpl as [? | (t' & _ & _ & _ & [(e & ? & _) | (_ & ->)])];
      [by left | done |].
    right. by eexists. }
  destruct r1 as [[]|e1]; simpl.
  2:{ rewrite Hwb. by split_and!. }
  destruct (init_volume_pool name cfg1) as [cfg2 [pool|e2]]; simpl.
  2:{ rewrite Hwb. by split_and!. }
  destruct (init_volume pool _ cfg2) as [volume|e3]; simpl; rewrite Hwb.
  - split_and!; [done | intros _ _; by apply Hok | done].
  - by split_and!.
Qed.

Lemma init_volume_step (d : Domain) (name : string)
    (conf : gmap string object) :
  let out := Storage_init_volume new_Storage d name conf (Some name) in
  VM.name (dom_vm out.1.1) = VM.name (dom_vm d)
  ∧ VM.dir_path (dom_vm out.1.1) = VM.dir_path (dom_vm d)
  ∧ dom_storage out.1.1 = dom_storage d
  ∧ (∀ n, n ≠ name →
          dict_get (VM.volumes (dom_vm out.1.1)) n
          = dict_get (VM.volumes (dom_vm d)) n
          ∧ dict_get (VM.volume_config (dom_vm out.1.1)) n
            = dict_get (VM.volume_config (dom_vm d)) n)
  ∧ (∀ n, is_Some (dict_get (VM.volumes (dom_vm d)) n) →
          is_Some (dict_get (VM.volumes (dom_vm out.1.1)) n))
  ∧ (∀ volume, out.2 = Ok volume →
       initialised out.1.1 name
       ∧ dict_get (VM.volumes (dom_vm out.1.1)) name = Some volume)
  ∧ (∀ e, out.2 = Raise e →
          VM.volumes (dom_vm out.1.1) = VM.volumes (dom_vm d)).
Proof.
  pose proof (Storage_init_volume_facts new_Storage d name conf (Some name))
    as (Hname & Hkeys & Hok & Hraise & Halias & _ & Hvn & Hvd & Hst & _).
  destruct (Storage_init_volume new_Storage d name conf (Some name))
    as [[d1 cfg1] r] eqn:Hout.
  simpl in *. destruct (Halias name eq_refl) as [Hcfg Hother].
  split_and!; try done.
  - intros n Hn. split; [|by apply Hother].
    destruct r as [v|e]; [|by rewrite (Hraise e eq_refl)].
    destruct (Hok v eq_refl) as (_ & -> & _). by apply dict_get_setitem_ne.
  - intros n Hn. destruct r as [v|e]; [|by rewrite (Hraise e eq_refl)].
    destruct (Hok v eq_refl) as (_ & -> & _).
    destruct (decide (name = n)) as [->|Hne].
    + rewrite dict_get_setitem_eq. by eexists.
    + by rewrite dict_get_setitem_ne.
  - intros volume ->.
    destruct (Hok volume eq_refl) as (Hint & Hvols & pool_ref & pool & Hp & _).
    split; [|by rewrite Hvols, dict_get_setitem_eq].
    split; [rewrite Hvols, dict_get_setitem_eq; by eexists|].
    exists cfg1. split_and!; [done | by rewrite Hname | by rewrite Hp | done].
Qed.

Lemma initialised_frame (d d' : Domain) (n : string) :
  dict_get (VM.volumes (dom_vm d')) n = dict_get (VM.volumes (dom_vm d)) n →
  dict_get (VM.volume_config (dom_vm d')) n
  = dict_get (VM.volume_config (dom_vm d)) n →
  initialised d n → initialised d' n.
Proof. unfold initialised. by intros -> ->. Qed.

Lemma init_volumes_loop_spec (items : list (string * gmap string object))
    (d : Domain) :
  let out := init_volumes_loop new_Storage items d in
  VM.name (dom_vm out.1) = VM.name (dom_vm d)
  ∧ VM.dir_path (dom_vm out.1) = VM.dir_path (dom_vm d)
  ∧ dom_storage out.1 = dom_storage d
  ∧ (∀ n, n ∉ items.*1 →
          dict_get (VM.volumes (dom_vm out.1)) n
          = dict_get (VM.volumes (dom_vm d)) n
          ∧ dict_get (VM.volume_config (dom_vm out.1)) n
            = dict_get (VM.volume_config (dom_vm d)) n)
  ∧ (∀ n, is_Some (dict_get (VM.volumes (dom_vm d)) n) →
          is_Some (dict_get (VM.volumes (dom_vm out.1)) n))
  ∧ (out.2 = Ok tt → ∀ n, n ∈ items.*1 → initialised out.1 n).
Proof.
  revert d. induction items as [|[name conf] rest IH]; intros d; simpl.
  { split_and!; try done. intros _ n Hn. by apply elem_of_nil in Hn. }
  pose proof (init_volume_step d name conf)
    as (Hvn & Hvd & Hst & Hframe & Hkeep & Hok & Hraise).
  destruct (Storage_init_volume new_Storage d name conf (Some name))
    as [[d1 cfg1] [volume|e]] eqn:Hout; simpl in *.
  2:{ split_and!; try done.
      intros n Hn. apply Hframe. intros ->. apply Hn, elem_of_cons. auto. }
  destruct (IH d1) as (IHn & IHd & IHst & IHframe & IHkeep & IHok).
  destruct (Hok volume eq_refl) as [Hinit Hvol].
  split_and!.
  - by rewrite IHn.
  - by rewrite IHd.
  - by rewrite IHst.
  - intros n Hn.
    assert (n ≠ name) by (intros ->; apply Hn, elem_of_cons; auto).
    assert (n ∉ rest.*1) by (intros ?; apply Hn, elem_of_cons; auto).
    destruct (IHframe n) as [-> ->]; [done|]. by apply Hframe.
  - intros n Hn. by apply IHkeep, Hkeep.
  - intros Hr n Hn. destruct (decide (n ∈ rest.*1)) as [Hin|Hnin].
    + by apply IHok.
    + apply elem_of_cons in Hn as [-> | Hn]; [|done].
      destruct (IHframe name Hnin) as [Hv Hc].
      by apply (initialised_frame d1).
Qed.
Lemma init_volumes_loop_template (items : list (string * gmap string object))
    (d : Domain) :
  let out := init_volumes_loop new_Storage items d in
  (∀ t, dom_template d = Some t → dom_storage t = true →
        dom_template out.1 = Some t)
  ∧ (dom_template d = None → dom_template out.1 = None)
  ∧ (out.2 = Ok tt →
     dom_template out.1 = dom_template d
     ∨ ∃ t, dom_template out.1 = Some t ∧ dom_storage t = true)
  ∧ (out.2 = Ok tt →
     (∃ name conf, (name, conf) ∈ items ∧ is_Some (conf !! "source")) →
     ∀ t, dom_template out.1 = Some t → dom_storage t = true).
Proof.
  revert d. induction items as [|[name conf] rest IH]; intros d; simpl.
  { split_and!; auto. intros _ (? & ? & ?%elem_of_nil & _). done. }
  pose proof (Storage_init_volume_template d name conf (Some name))
    as (Hkeep & Hok & Hnone).
  pose proof (Storage_init_volume_facts new_Storage d name conf (Some name))
    as (_ & _ & _ & _ & _ & _ & _ & _ & _ & _ & Hready).
  destruct (Storage_init_volume new_Storage d name conf (Some name))
    as [[d1 cfg1] [volume|e]]; simpl in *.
  2:{ by split_and!. }
  destruct (IH d1) as (IHkeep & IHnone & IHok & IHready).
  split_and!.
  - intros t Ht Hs. apply IHkeep; [by apply Hkeep | done].
  - intros Hn. by apply IHnone, Hnone.
  - intros Hr. destruct (Hok volume eq_refl) as [Hsame | (t & Ht & Hs)].
    + rewrite <- Hsame. by apply IHok.
    + right. exists t. split; [by apply IHkeep | done].
  - intros Hr (n & c & [[= -> ->] | Hin]%elem_of_cons & Hsrc) t Ht.
    + destruct (dom_template d1) as [t1|] eqn:Ht1.
      * pose proof (Hready Hsrc volume eq_refl t1 eq_refl) as Hs1.
        rewrite (IHkeep t1 eq_refl Hs1) in Ht. by injection Ht as <-.
      * by rewrite (IHnone eq_refl) in Ht.
    + apply IHready; [done | by exists n, c | done].
Qed.

(** The loop stops at the first volume whose [init_volume] raises. *)
Lemma init_volumes_loop_first_failure
    (items : list (string * gmap string object)) (d : Domain) (e : exn) :
  (init_volumes_loop new_Storage items d).2 = Raise e →
  ∃ before name conf after d1,
    items = before ++ (name, conf) :: after
    ∧ init_volumes_loop new_Storage before d = (d1, Ok tt)
    ∧ (Storage_init_volume new_Storage d1 name conf (Some name)).2 = Raise e
    ∧ (Storage_init_volume new_Storage d1 name conf (Some name)).1.1
      = (init_volumes_loop new_Storage items d).1.
Proof.
  revert d. induction items as [|[name conf] rest IH]; intros d; simpl; [done|].
  destruct (Storage_init_volume new_Storage d name conf (Some name))
    as [[d1 cfg1] [volume|e1]] eqn:Hout; simpl.
  - intros He.
    destruct (IH d1 He) as (before & n & c & after & d2 & -> & Hb & Hr & Hd).
    exists ((name, conf) :: before), n, c, after, d2.
    split_and!; [done | | done | done]. simpl. by rewrite Hout.
  - intros [= ->]. exists [], name, conf, rest, d.
    split_and!; [done | done | by rewrite Hout | by rewrite Hout].
Qed.

(** [Storage.__init__], whatever the drivers and the constructor of the
    template do.  When it returns, every configured volume has been built:
    it is registered, and the VM's own configuration of it names the volume
    and a pool and has no [internal] key.  A volume registered before stays
    registered; names that are not configured are left as they were.  When
    it raises [e], the loop has stopped at a configured volume: the loop
    over the volumes configured before it has run to its end and has built
    them; [init_volume] of that volume has raised [e], and the VM is as this
    call left it; the volumes configured after it have not been touched.
    If it returns and a configured volume has a [source] key, the template
    has its storage; a template that has its storage is left as it is. *)
Theorem Storage_init_spec (d : Domain) :
  let out := Storage__init__ new_Storage d in
  VM.name (dom_vm out.1) = VM.name (dom_vm d)
  ∧ VM.dir_path (dom_vm out.1) = VM.dir_path (dom_vm d)
  ∧ dom_storage out.1 = dom_storage d
  ∧ (out.2 = Ok tt →
     ∀ n, n ∈ dict_keys (VM.volume_config (dom_vm d)) → initialised out.1 n)
  ∧ (∀ n, n ∉ dict_keys (VM.volume_config (dom_vm d)) →
          dict_get (VM.volumes (dom_vm out.1)) n
          = dict_get (VM.volumes (dom_vm d)) n)
  ∧ (∀ n, is_Some (dict_get (VM.volumes (dom_vm d)) n) →
          is_Some (dict_get (VM.volumes (dom_vm out.1)) n))
  ∧ (∀ e, out.2 = Raise e →
       ∃ before name conf after d1,
         VM.volume_config (dom_vm d) = before ++ (name, conf) :: after
         ∧ init_volumes_loop new_Storage before d = (d1, Ok tt)
         ∧ (∀ n, n ∈ dict_keys before → initialised d1 n)
         ∧ (Storage_init_volume new_Storage d1 name conf (Some name)).2
           = Raise e
         ∧ (Storage_init_volume new_Storage d1 name conf (Some name)).1.1
           = out.1
         ∧ VM.volumes (dom_vm out.1) = VM.volumes (dom_vm d1)
         ∧ (∀ n, n ∈ dict_keys before → n ≠ name → initialised out.1 n)
         ∧ (∀ n, n ∉ dict_keys before → n ≠ name →
                 dict_get (VM.volumes (dom_vm out.1)) n
                 = dict_get (VM.volumes (dom_vm d)) n
                 ∧ dict_get (VM.volume_config (dom_vm out.1)) n
                   = dict_get (VM.volume_config (dom_vm d)) n))
  ∧ (out.2 = Ok tt →
     (∃ name conf, (name, conf) ∈ VM.volume_config (dom_vm d)
                   ∧ is_Some (conf !! "source")) →
     ∀ t, dom_template out.1 = Some t → dom_storage t = true)
  ∧ (∀ t, dom_template d = Some t → dom_storage t = true →
          dom_template out.1 = Some t).
Proof.
  unfold Storage__init__, dict_keys.
  destruct (init_volumes_loop_spec (VM.volume_config (dom_vm d)) d)
    as (Hn & Hd & Hs & Hframe & Hkeep & Hok).
  destruct (init_volumes_loop_template (VM.volume_config (dom_vm d)) d)
    as (Htkeep & _ & _ & Hready).
  split_and!; try done.
  - intros n Hnin. by apply Hframe.
  - intros e He.
    destruct (init_volumes_loop_first_failure _ _ _ He)
      as (before & name & conf & after & d1 & Heq & Hb & Hr & Hd1).
    exists before, name, conf, after, d1.
    destruct (init_volumes_loop_spec before d)
      as (_ & _ & _ & Hbframe & _ & Hbok).
    rewrite Hb in Hbframe, Hbok. simpl in Hbframe, Hbok.
    pose proof (init_volume_step d1 name conf)
      as (_ & _ & _ & Hsframe & _ & _ & Hsraise).
    simpl in Hsframe, Hsraise. rewrite Hd1 in Hsframe, Hsraise.
    split_and!; try done.
    + by apply Hbok.
    + by apply (Hsraise e).
    + intros n Hin Hne. destruct (Hsframe n Hne) as [Hv Hc].
      apply (initialised_frame d1); [done | done | by apply Hbok].
    + intros n Hnin Hne. destruct (Hsframe n Hne) as [-> ->].
      by apply Hbframe.
Qed.
End InitProperties.

Section ConstructorProperties.
Context `{PoolDriver} `{App} `{AppDefaults}.

Lemma Storage_init_volume_ext (new1 new2 : Domain → Domain * result unit)
    (d : Domain) (name : string) (cfg : gmap string object)
    (alias : option string) :
  (∀ t, dom_template d = Some t → dom_storage t = false → new1 t = new2 t) →
  Storage_init_volume new1 d name cfg alias
  = Storage_init_volume new2 d name cfg alias.
Proof.
  intros Hagree. unfold Storage_init_volume, init_volume_source.
  destruct (set_default_name name cfg !! "source"); [|done].
  assert (init_template_storage new1 d = init_template_storage new2 d) as ->;
    [|done].
  unfold init_template_storage.
  destruct (dom_template d) as [t|] eqn:Ht; [|done].
  destruct (dom_storage t) eqn:Hs; [done|]. by rewrite (Hagree t).
Qed.

Lemma init_volumes_loop_ext (new1 new2 : Domain → Domain * result unit)
    (items : list (string * gmap string object)) (d : Domain) :
  (∀ t, dom_template d = Some t → dom_storage t = false → new1 t = new2 t) →
  init_volumes_loop new1 items d = init_volumes_loop new2 items d.
Proof.
  revert d. induction items as [|[name conf] rest IH]; intros d Hagree; simpl;
    [done|].
  rewrite (Storage_init_volume_ext new1 new2) by done.
  pose proof (Storage_init_volume_template new2 d name conf (Some name))
    as (_ & Hok & _).
  destruct (Storage_init_volume new2 d name conf (Some name))
    as [[d1 cfg1] [volume|e]]; simpl in *; [|done].
  apply IH. intros t Ht Hs.
  destruct (Hok volume eq_refl) as [Hsame | (t' & Ht' & Hs')].
  - apply Hagree; [by rewrite <- Hsame | done].
  - congruence.
Qed.

Lemma template_chain_Some (d t : Domain) :
  dom_template d = Some t →
  template_chain d = dom_vm t :: template_chain t.
Proof.
  intros Ht. unfold template_chain. rewrite Ht. by destruct t as [vm s [t'|]].
Qed.

(** The constructor builds the storage of the template, where it is
    missing, by running itself on the template, and so on up the chain:
    a depth of the length of the chain of templates is enough, and any
    greater depth gives the same VM and the same outcome. *)
Theorem Storage_new_stable (n m : nat) (d : Domain) :
  length (template_chain d) ≤ n →
  n ≤ m →
  Storage_new m d = Storage_new n d.
Proof.
  revert m d. induction n as [|n IH]; intros m d Hlen Hm.
  - destruct m as [|m]; [done|]. simpl. unfold Storage__init__.
    apply init_volumes_loop_ext. intros t Ht _.
    rewrite (template_chain_Some d t Ht) in Hlen. simpl in Hlen. lia.
  - destruct m as [|m]; [lia|]. simpl. unfold Storage__init__.
    apply init_volumes_loop_ext. intros t Ht _.
    apply IH; [|lia].
    rewrite (template_chain_Some d t Ht) in Hlen. simpl in Hlen. lia.
Qed.
End ConstructorProperties.

Lemma Storage_init_volume_snapshot_witness :
  (@Storage_init_volume config_driver example_app example_defaults
     (λ t, (t, Ok tt)) new_work_domain "root" new_root_config (Some "root")).1.2
  !! "source"
  = Some (OVolume template_root).
Proof.
  destruct (@Storage_init_volume_snapshot config_driver example_app
              example_defaults (λ t, (t, Ok tt)) new_work_domain
              (mkDomain fedora_vm true None) "root" new_root_config
              (Some "root") [] [] fedora_vm template_root pool_lvm)
    as (-> & _); try done.
  by left.
Defined.

Lemma Storage_new_stable_witness :
  @Storage_new config_driver example_app example_defaults 3
    new_work_domain_bare
  = @Storage_new config_driver example_app example_defaults 1
      new_work_domain_bare
  ∧ (@Storage_new config_driver example_app example_defaults 1
       new_work_domain_bare).2 = Ok tt
  ∧ dict_get
      (VM.volumes
         (dom_vm (@Storage_new config_driver example_app example_defaults 1
                    new_work_domain_bare).1)) "root"
    = Some (Volume.mk "root" pool_lvm "work-root" 1 false false 10737418240
              true
              (Some (Volume.mk "root" pool_lvm "fedora-root" 1 false true
                       10737418240 false None))).
Proof.
  split_and!.
  - apply (@Storage_new_stable config_driver example_app example_defaults 1 3
             new_work_domain_bare); simpl; lia.
  - by vm_compute.
  - by vm_compute.
Defined.
